(** * AbletonSmartAssistant: the LangGraph server

    A shallow embedding of [langgraph_server/rag.py], [nodes.py],
    [workflow.py] and the turn handlers of [main.py], followed by the
    properties of the session workflow and of the retrieval store.

    Conventions of the embedding.
    - Python [str] is a Rocq [string] holding the UTF-8 bytes of the text.
    - Python [float] is the primitive IEEE-754 binary64 [float].
    - Python [int] is [Z]; list indexing and slicing follow Python,
      negative indices included.
    - The replies of the external services (chat completion, vision,
      embedding) are arguments of the stage handlers: every handler is a
      function of the session state and of the reply it would receive.
    - A handler returns the external calls it made together with either the
      new state or the exception that escapes it. *)

From Stdlib Require Import ZArith List String Ascii Bool Lia.
From Stdlib Require Import DecimalString Floats Sorted Permutation.
Import ListNotations.

Local Open Scope string_scope.
Local Open Scope list_scope.
Local Open Scope Z_scope.

(** ** Python strings *)

Module PyStr.

(** [str.lower].  The ASCII capitals become small letters.  Outside ASCII
    exactly two code points have a lowercase that holds an ASCII letter:
    U+212A KELVIN SIGN (bytes E2 84 AA) becomes k, and U+0130 (bytes C4
    B0) becomes i followed by U+0307 (bytes CC 87).  The other capitals
    that Python folds become characters outside ASCII and are left as
    they are: the program only searches lowered texts for ASCII words and
    compares them with ASCII words, and never outputs them. *)
Definition lower_ascii (c : ascii) : ascii :=
  let n := nat_of_ascii c in
  if (Nat.leb 65 n && Nat.leb n 90)%bool then ascii_of_nat (n + 32) else c.

Definition is_byte (n : nat) (c : ascii) : bool := Nat.eqb (nat_of_ascii c) n.

Fixpoint lower (s : string) : string :=
  match s with
  | EmptyString => EmptyString
  | String c s' =>
    let plain := String (lower_ascii c) (lower s') in
    match s' with
    | String c2 rest2 =>
      if (is_byte 196 c && is_byte 176 c2)%bool
      then String "i" (String (ascii_of_nat 204) (String (ascii_of_nat 135) (lower rest2)))
      else
        match rest2 with
        | String c3 rest3 =>
          if (is_byte 226 c && is_byte 132 c2 && is_byte 170 c3)%bool
          then String "k" (lower rest3)
          else plain
        | EmptyString => plain
        end
    | EmptyString => plain
    end
  end.

(** [needle in hay]. *)
Fixpoint contains (needle hay : string) : bool :=
  match hay with
  | EmptyString => String.prefix needle EmptyString
  | String _ hay' => String.prefix needle hay || contains needle hay'
  end.

(** [any(word in text for word in words)]. *)
Definition any_in (words : list string) (text : string) : bool :=
  existsb (fun word => contains word text) words.

(** [str(n)] for an integer. *)
Definition str_of_Z (n : Z) : string :=
  NilZero.string_of_int (Z.to_int n).

(** Truth value of a string: non-empty. *)
Definition truthy (s : string) : bool :=
  match s with EmptyString => false | _ => true end.

(** Truth value of an optional string ([None] or a [str]). *)
Definition truthy_opt (s : option string) : bool :=
  match s with Some s => truthy s | None => false end.

(** [(s or "")]. *)
Definition or_empty (s : option string) : string :=
  match s with Some s => s | None => "" end.

(** [str.startswith]. *)
Definition startswith (s p : string) : bool := String.prefix p s.

End PyStr.

(** ** Python lists *)

Module PyList.

(** [l[i]]: [None] stands for [IndexError]. *)
Definition index {A} (l : list A) (i : Z) : option A :=
  let n := Z.of_nat (List.length l) in
  if (0 <=? i) && (i <? n) then nth_error l (Z.to_nat i)
  else if (- n <=? i) && (i <? 0) then nth_error l (Z.to_nat (n + i))
  else None.

(** The position in [l] that [l[i]] designates. *)
Definition position {A} (l : list A) (i : Z) : nat :=
  if 0 <=? i then Z.to_nat i else Z.to_nat (Z.of_nat (List.length l) + i).

Fixpoint update_nth {A} (l : list A) (n : nat) (f : A -> A) : list A :=
  match l, n with
  | [], _ => []
  | x :: l', O => f x :: l'
  | x :: l', S n' => x :: update_nth l' n' f
  end.

(** In-place change of the object [l[i]] (the list keeps its other
    elements and its length). *)
Definition update {A} (l : list A) (i : Z) (f : A -> A) : list A :=
  update_nth l (position l i) f.

(** [l[:k]]. *)
Definition slice_to {A} (l : list A) (k : Z) : list A :=
  if 0 <=? k then firstn (Z.to_nat k) l
  else firstn (Z.to_nat (Z.of_nat (List.length l) + k)) l.

(** [l[-1]]. *)
Definition last_opt {A} (l : list A) : option A := index l (-1).

End PyList.

(** ** Exceptions and the trace of external calls *)

Inductive Exn :=
| IndexError
| ValueError
| GraphRecursionError
| ValidationError
| ZeroDivisionError.

Inductive Res (A : Type) :=
| Ok (a : A)
| Raised (e : Exn).
Arguments Ok {A} a.
Arguments Raised {A} e.

(** The external calls a stage can make. *)
Inductive Call :=
| CallIntent        (* chat completion of [detect_user_intent] *)
| CallEmbedding     (* [create_embedding] *)
| CallVersion       (* chat completion of [check_ableton_version] *)
| CallGenerate      (* chat completion of [generate_full_answer] *)
| CallInteraction   (* chat completion of [detect_interaction_type] *)
| CallLocate        (* vision call of [analyze_screenshot_for_button] *)
| CallValidate      (* vision call of [optional_validate_step] *)
| CallFallback.     (* chat completion of [fallback_review_steps] *)

Definition Call_eqb (a b : Call) : bool :=
  match a, b with
  | CallIntent, CallIntent | CallEmbedding, CallEmbedding
  | CallVersion, CallVersion | CallGenerate, CallGenerate
  | CallInteraction, CallInteraction | CallLocate, CallLocate
  | CallValidate, CallValidate | CallFallback, CallFallback => true
  | _, _ => false
  end.

(** A computation: the calls made, and the value or the exception. *)
Definition M (A : Type) : Type := list Call * Res A.

Definition ret {A} (a : A) : M A := ([], Ok a).
Definition raise {A} (e : Exn) : M A := ([], Raised e).
Definition call (c : Call) : M unit := ([c], Ok tt).
Definition bind {A B} (m : M A) (f : A -> M B) : M B :=
  match m with
  | (t, Ok a) => let '(t', r) := f a in (t ++ t', r)
  | (t, Raised e) => (t, Raised e)
  end.
Definition lift {A} (r : Res A) : M A := ([], r).
Definition trace {A} (m : M A) : list Call := fst m.
Definition outcome {A} (m : M A) : Res A := snd m.

Notation "x <- m ;; k" := (bind m (fun x => k))
  (at level 61, m at next level, right associativity).
Notation "m ;;; k" := (bind m (fun _ => k))
  (at level 61, right associativity).

(** A field of a JSON object returned by a model: absent, [null], or a
    value. *)
Inductive JField (A : Type) :=
| Absent
| Null
| Val (a : A).
Arguments Absent {A}.
Arguments Null {A}.
Arguments Val {A} a.

(** ** rag.py *)

Module Rag.

Local Open Scope float_scope.

Definition Metadata := list (string * string).

Record Chunk := {
  id : string;
  content : string;
  edition : option string;
  embedding : list float;
  metadata : Metadata }.

Record RAGStore := {
  full_index : list Chunk;
  versions_index : list Chunk }.

(** [sum(...)] over floats: additions from the left, starting at 0, as
    CPython performs them up to 3.11 (later versions also compensate the
    rounding error of each addition).  The vectors evaluated below have
    sums that are exact, so that their values do not depend on it. *)
Definition fsum (l : list float) : float :=
  fold_left PrimFloat.add l 0.

(** [math.sqrt]: raises [ValueError] below zero. *)
Definition math_sqrt (x : float) : Res float :=
  if x <? 0 then Raised ValueError else Ok (PrimFloat.sqrt x).

(** [a / b] on floats: raises [ZeroDivisionError] when the divisor is a
    zero of either sign; infinities and NaN divide without raising. *)
Definition float_div (a b : float) : Res float :=
  if b =? 0 then Raised ZeroDivisionError else Ok (a / b).

Definition _cosine_similarity (vec1 vec2 : list float) : Res float :=
  if negb (Nat.eqb (List.length vec1) (List.length vec2)) then Ok 0
  else
    let dot_product := fsum (map (fun ab => fst ab * snd ab) (combine vec1 vec2)) in
    match math_sqrt (fsum (map (fun a => a * a) vec1)) with
    | Raised e => Raised e
    | Ok magnitude1 =>
      match math_sqrt (fsum (map (fun a => a * a) vec2)) with
      | Raised e => Raised e
      | Ok magnitude2 =>
        if (magnitude1 =? 0) || (magnitude2 =? 0) then Ok 0
        else float_div dot_product (magnitude1 * magnitude2)
      end
    end.

(** [[(chunk, sim(query, chunk.embedding)) for chunk in chunks]]. *)
Fixpoint score_all (chunks : list Chunk) (query_embedding : list float)
  : Res (list (Chunk * float)) :=
  match chunks with
  | [] => Ok []
  | chunk :: rest =>
    match _cosine_similarity query_embedding (embedding chunk) with
    | Raised e => Raised e
    | Ok s =>
      match score_all rest query_embedding with
      | Raised e => Raised e
      | Ok scored => Ok ((chunk, s) :: scored)
      end
    end
  end.

(** [list.sort(key=..., reverse=True)]: the stable sort by descending
    key, written as the insertion sort that compares with [<] only, as
    [list.sort] does.  On keys that [<] orders totally every stable sort
    returns this list; with a NaN among the keys [list.sort] promises no
    particular order. *)
Fixpoint insert_desc {A} (x : A * float) (l : list (A * float))
  : list (A * float) :=
  match l with
  | [] => [x]
  | y :: l' => if snd x <? snd y then y :: insert_desc x l' else x :: l
  end.

Definition sort_desc {A} (l : list (A * float)) : list (A * float) :=
  fold_right insert_desc [] l.

Definition _top_matches (chunks : list Chunk) (query_embedding : list float)
    (top_k : Z) : Res (list Chunk) :=
  match score_all chunks query_embedding with
  | Raised e => Raised e
  | Ok scored => Ok (map fst (PyList.slice_to (sort_desc scored) top_k))
  end.

(** The values a dictionary built from a chunk can hold. *)
Inductive PyVal :=
| VNone
| VStr (s : string)
| VFloats (l : list float)
| VMeta (m : Metadata).

(** A Python [dict] with string keys, in insertion order. *)
Definition Dict := list (string * PyVal).

Definition dict_keys (d : Dict) : list string := map fst d.

Fixpoint dict_get (d : Dict) (k : string) : option PyVal :=
  match d with
  | [] => None
  | (k', v) :: d' => if String.eqb k k' then Some v else dict_get d' k
  end.

Definition _chunk_to_dict (chunk : Chunk) : Dict :=
  [ ("id", VStr (id chunk));
    ("content", VStr (content chunk));
    ("edition", match edition chunk with Some e => VStr e | None => VNone end);
    ("metadata", VMeta (metadata chunk)) ]%string.

Record RetrieveResult := {
  full : list Dict;
  versions : list Dict }.

(** [RAGStore.retrieve]: the result, and the store as the call leaves
    it.  [VERSION_CHECK_TOP_K] comes from the environment ([config.py]). *)
Definition retrieve (VERSION_CHECK_TOP_K : Z) (self : RAGStore)
    (query_embedding : list float) (edition : string) (top_k : Z)
  : Res RetrieveResult * RAGStore :=
  match _top_matches (full_index self) query_embedding top_k with
  | Raised e => (Raised e, self)
  | Ok full_chunks =>
    match _top_matches (versions_index self) query_embedding VERSION_CHECK_TOP_K with
    | Raised e => (Raised e, self)
    | Ok version_chunks =>
      (Ok {| full := map _chunk_to_dict full_chunks;
             versions := map _chunk_to_dict version_chunks |}, self)
    end
  end.

End Rag.

(** ** state.py and nodes.py *)

Module Nodes.

Import PyStr.

Definition nl : string := String (ascii_of_nat 10) EmptyString.

Inductive Intent := AbletonQuestion | Other.

Inductive Mode := simple | step_by_step.

(** The values of [action_required]. *)
Inductive Action :=
| WaitVersionChoice
| WaitStepChoice
| WaitUserAction
| WaitTaskCompletionChoice.

Definition Action_eqb (a b : Action) : bool :=
  match a, b with
  | WaitVersionChoice, WaitVersionChoice
  | WaitStepChoice, WaitStepChoice
  | WaitUserAction, WaitUserAction
  | WaitTaskCompletionChoice, WaitTaskCompletionChoice => true
  | _, _ => false
  end.

(** [button_coords]: coordinates in pixels. *)
Record Coords := {
  coord_x : Z;
  coord_y : Z;
  coord_width : Z;
  coord_height : Z }.

(** A step of the list: [{"text", "requires_click", "button_coords"}].
    The text comes from the model and may be absent or [null].  The key
    [requires_click] is always there; its value is the one the model
    gave, [None] for a JSON [null]. *)
Record Step := {
  text : JField string;
  requires_click : option bool;
  button_coords : option Coords }.

(** The truth value of [step.get("requires_click", False)]. *)
Definition clicks (s : Step) : bool :=
  match requires_click s with Some b => b | None => false end.

(** [step.get("text") or ""]. *)
Definition text_or_empty (s : Step) : string :=
  match text s with Val t => t | _ => "" end.

(** [step.get("text", "")] as an f-string renders it. *)
Definition text_fmt (s : Step) : string :=
  match text s with Val t => t | Null => "None" | Absent => "" end.

(** An optional string as an f-string renders it. *)
Definition fmt_opt (s : option string) : string :=
  match s with Some s => s | None => "None" end.

Record AgentState := {
  session_id : string;
  user_query : string;
  ableton_edition : string;
  screenshot_url : option string;
  intent : option Intent;
  allowed : option bool;
  version_explanation : option string;
  selected_chunks : list Rag.Dict;
  full_answer : option string;
  steps : list Step;
  mode : Mode;
  current_step_index : Z;
  user_choice : option string;
  action_required : option Action;
  response_text : option string }.

(** [state[key] = v], for the keys that the code assigns. *)
Definition set_screenshot_url (st : AgentState) (v : option string) : AgentState :=
  Build_AgentState
    (session_id st) (user_query st) (ableton_edition st) v (intent st)
    (allowed st) (version_explanation st) (selected_chunks st)
    (full_answer st) (steps st) (mode st) (current_step_index st)
    (user_choice st) (action_required st) (response_text st).

Definition set_intent (st : AgentState) (v : option Intent) : AgentState :=
  Build_AgentState
    (session_id st) (user_query st) (ableton_edition st)
    (screenshot_url st) v (allowed st) (version_explanation st)
    (selected_chunks st) (full_answer st) (steps st) (mode st)
    (current_step_index st) (user_choice st) (action_required st)
    (response_text st).

Definition set_allowed (st : AgentState) (v : option bool) : AgentState :=
  Build_AgentState
    (session_id st) (user_query st) (ableton_edition st)
    (screenshot_url st) (intent st) v (version_explanation st)
    (selected_chunks st) (full_answer st) (steps st) (mode st)
    (current_step_index st) (user_choice st) (action_required st)
    (response_text st).

Definition set_version_explanation (st : AgentState) (v : option string) : AgentState :=
  Build_AgentState
    (session_id st) (user_query st) (ableton_edition st)
    (screenshot_url st) (intent st) (allowed st) v (selected_chunks st)
    (full_answer st) (steps st) (mode st) (current_step_index st)
    (user_choice st) (action_required st) (response_text st).

Definition set_selected_chunks (st : AgentState) (v : list Rag.Dict) : AgentState :=
  Build_AgentState
    (session_id st) (user_query st) (ableton_edition st)
    (screenshot_url st) (intent st) (allowed st) (version_explanation st) v
    (full_answer st) (steps st) (mode st) (current_step_index st)
    (user_choice st) (action_required st) (response_text st).

Definition set_full_answer (st : AgentState) (v : option string) : AgentState :=
  Build_AgentState
    (session_id st) (user_query st) (ableton_edition st)
    (screenshot_url st) (intent st) (allowed st) (version_explanation st)
    (selected_chunks st) v (steps st) (mode st) (current_step_index st)
    (user_choice st) (action_required st) (response_text st).

Definition set_steps (st : AgentState) (v : list Step) : AgentState :=
  Build_AgentState
    (session_id st) (user_query st) (ableton_edition st)
    (screenshot_url st) (intent st) (allowed st) (version_explanation st)
    (selected_chunks st) (full_answer st) v (mode st)
    (current_step_index st) (user_choice st) (action_required st)
    (response_text st).

Definition set_mode (st : AgentState) (v : Mode) : AgentState :=
  Build_AgentState
    (session_id st) (user_query st) (ableton_edition st)
    (screenshot_url st) (intent st) (allowed st) (version_explanation st)
    (selected_chunks st) (full_answer st) (steps st) v
    (current_step_index st) (user_choice st) (action_required st)
    (response_text st).

Definition set_current_step_index (st : AgentState) (v : Z) : AgentState :=
  Build_AgentState
    (session_id st) (user_query st) (ableton_edition st)
    (screenshot_url st) (intent st) (allowed st) (version_explanation st)
    (selected_chunks st) (full_answer st) (steps st) (mode st) v
    (user_choice st) (action_required st) (response_text st).

Definition set_user_choice (st : AgentState) (v : option string) : AgentState :=
  Build_AgentState
    (session_id st) (user_query st) (ableton_edition st)
    (screenshot_url st) (intent st) (allowed st) (version_explanation st)
    (selected_chunks st) (full_answer st) (steps st) (mode st)
    (current_step_index st) v (action_required st) (response_text st).

Definition set_action_required (st : AgentState) (v : option Action) : AgentState :=
  Build_AgentState
    (session_id st) (user_query st) (ableton_edition st)
    (screenshot_url st) (intent st) (allowed st) (version_explanation st)
    (selected_chunks st) (full_answer st) (steps st) (mode st)
    (current_step_index st) (user_choice st) v (response_text st).

Definition set_response_text (st : AgentState) (v : option string) : AgentState :=
  Build_AgentState
    (session_id st) (user_query st) (ableton_edition st)
    (screenshot_url st) (intent st) (allowed st) (version_explanation st)
    (selected_chunks st) (full_answer st) (steps st) (mode st)
    (current_step_index st) (user_choice st) (action_required st) v.

Definition set_step_requires_click (v : option bool) (s : Step) : Step :=
  {| text := text s; requires_click := v; button_coords := button_coords s |}.

Definition set_step_button_coords (v : option Coords) (s : Step) : Step :=
  {| text := text s; requires_click := requires_click s; button_coords := v |}.

Definition len (st : AgentState) : Z := Z.of_nat (List.length (steps st)).

(** What the handlers read from outside the session: whether the OpenAI
    client exists ([OPENAI_API_KEY] set), the retrieval store, the
    configured [VERSION_CHECK_TOP_K], and the count of alphabetic
    characters of a text ([str.isalpha], the Unicode tables of the
    Python runtime). *)
Record Env := {
  client : bool;
  rag_store : Rag.RAGStore;
  VERSION_CHECK_TOP_K : Z;
  count_alpha : string -> Z }.

Inductive Lang := ru | en.

(** The code points U+0400..U+04FF are the UTF-8 sequences whose first
    byte is 0xD0..0xD3. *)
Fixpoint cyrillic_count (s : string) : Z :=
  match s with
  | EmptyString => 0
  | String c s' =>
    let n := nat_of_ascii c in
    (if (Nat.leb 208 n && Nat.leb n 211)%bool then 1 else 0) + cyrillic_count s'
  end.

(** [float(n)] for a count [n]. *)
Definition float_of_Z (z : Z) : float := PrimFloat.of_uint63 (Uint63.of_Z z).

(** [cyrillic_count / total_letters > 0.1], the constant being the
    double nearest to one tenth. *)
Definition detect_language (env : Env) (text : string) : Lang :=
  if negb (truthy text) then en
  else
    let total_letters := count_alpha env text in
    if (0 <? total_letters)
       && PrimFloat.ltb 0x1.999999999999ap-4%float
            (PrimFloat.div (float_of_Z (cyrillic_count text))
                           (float_of_Z total_letters))
    then ru else en.

(** *** Replies of the external services *)

(** [detect_user_intent]: the call raises, or returns a message
    content. *)
Inductive IntentReply :=
| IntentRaise
| IntentContent (content : option string).

(** [check_ableton_version]: the call or [json.loads] raises, or the
    reply is an object with optional [allowed] and [explanation]. *)
Inductive VersionReply :=
| VersionRaise
| VersionResult (allowed : JField bool) (explanation : JField string).

(** A step as the model returns it; [raw_button_coords] is [None] when
    the key is absent or [null]. *)
Record RawStep := {
  raw_text : JField string;
  raw_requires_click : JField bool;
  raw_button_coords : option Coords }.

(** [generate_full_answer]: the call or the parsing raises (with the
    message of the exception), or the reply is an object with optional
    [explanation] and [steps]. *)
Inductive GenReply :=
| GenRaise (msg : string)
| GenResult (explanation : JField string) (raw_steps : list RawStep).

Inductive InteractionReply :=
| InteractionRaise
| InteractionResult (requires_click : JField bool).

(** [analyze_screenshot_for_button]: the file is missing; reading it
    raises; the vision call or the parsing raises; the reply holds no
    JSON object; or it holds one. *)
Inductive LocateReply :=
| LocFileMissing
| LocReadError
| LocRaise
| LocNoJson
| LocResult (found : bool) (x y width height : option Z).

Inductive ValidateReply :=
| ValFileMissing
| ValReadError
| ValRaise
| ValNoJson
| ValResult (valid : bool) (explanation : option string).

Inductive FallbackReply :=
| FallbackRaise
| FallbackResult (problematic_steps : list Z).

(** The replies one stage execution can draw on. *)
Record Oracle := {
  o_intent : IntentReply;
  o_embedding : list float;
  o_version : VersionReply;
  o_generate : GenReply;
  o_interaction : InteractionReply;
  o_locate : LocateReply;
  o_validate : ValidateReply;
  o_fallback : FallbackReply }.

(** *** The stage handlers *)

Definition detect_user_intent (env : Env) (reply : IntentReply)
    (state : AgentState) : M AgentState :=
  if negb (client env) then ret (set_intent state (Some AbletonQuestion))
  else
    call CallIntent ;;;
    match reply with
    | IntentContent (Some content) =>
      if truthy content then
        (* [content.strip().lower()]: stripping the ends does not change
           whether the word occurs *)
        if contains "ableton" (lower content)
        then ret (set_intent state (Some AbletonQuestion))
        else ret (set_intent state (Some Other))
      else ret (set_intent state (Some AbletonQuestion))
    | IntentContent None => ret (set_intent state (Some AbletonQuestion))
    | IntentRaise => ret (set_intent state (Some AbletonQuestion))
    end.

(** [result.get("allowed", True)]. *)
Definition allowed_field (f : JField bool) : option bool :=
  match f with Absent => Some true | Null => None | Val b => Some b end.

(** [result.get("explanation")]. *)
Definition get_field {A} (f : JField A) : option A :=
  match f with Val a => Some a | _ => None end.

Definition check_ableton_version (env : Env) (query_embedding : list float)
    (reply : VersionReply) (state : AgentState) : M AgentState :=
  let edition := ableton_edition state in
  let user_choice := lower (or_empty (user_choice state)) in
  if contains "try anyway" user_choice || contains "all the same" user_choice
     || contains "proceed anyway" user_choice
  then ret (set_allowed state (Some true))
  else
    match allowed state with
    | Some _ => ret state
    | None =>
      call CallEmbedding ;;;
      results <- lift (fst (Rag.retrieve (VERSION_CHECK_TOP_K env) (rag_store env)
                                         query_embedding edition 2)) ;;
      match Rag.versions results with
      | [] => ret (set_allowed state (Some true))
      | _ :: _ =>
        if negb (client env) then ret (set_allowed state (Some true))
        else
          call CallVersion ;;;
          match reply with
          | VersionResult a e =>
            ret (set_version_explanation (set_allowed state (allowed_field a))
                                         (get_field e))
          | VersionRaise => ret (set_allowed state (Some true))
          end
      end
    end.

Definition wait_for_version_choice (state : AgentState) : AgentState :=
  (* the key [version_explanation] is always present, so the default of
     [state.get] is never used *)
  let explanation := version_explanation state in
  if truthy_opt (user_choice state) then set_action_required state None
  else
    set_response_text
      (set_action_required state (Some WaitVersionChoice))
      (Some ("⚠️ In the current version (" ++ ableton_edition state
             ++ ") this will likely not work due to limitations: "
             ++ fmt_opt explanation ++ nl ++ nl
             ++ "Choose an action:" ++ nl
             ++ "1. Try anyway" ++ nl
             ++ "2. Formulate a new task")%string).

Definition retrieve_from_vectorstore (env : Env) (query_embedding : list float)
    (state : AgentState) : M AgentState :=
  call CallEmbedding ;;;
  results <- lift (fst (Rag.retrieve (VERSION_CHECK_TOP_K env) (rag_store env)
                                     query_embedding (ableton_edition state) 5)) ;;
  ret (set_selected_chunks state (Rag.full results)).

Definition click_words : list string :=
  ["click"; "press"; "select"; "choose"; "open"].

(** One iteration of the loop over the steps when the answer was
    supplied: [None] when the iteration raises ([None.lower()]).  A key
    [requires_click] that is present keeps its value, [null] included. *)
Definition fill_step_existing (r : RawStep) : option Step :=
  match raw_requires_click r with
  | Val b =>
    Some {| text := raw_text r; requires_click := Some b;
            button_coords := raw_button_coords r |}
  | Null =>
    Some {| text := raw_text r; requires_click := None;
            button_coords := raw_button_coords r |}
  | Absent =>
    match raw_text r with
    | Null => None
    | Absent =>
      Some {| text := Absent;
              requires_click := Some (any_in click_words (lower ""));
              button_coords := raw_button_coords r |}
    | Val t =>
      Some {| text := Val t;
              requires_click := Some (any_in click_words (lower t));
              button_coords := raw_button_coords r |}
    end
  end.

Fixpoint fill_steps_existing (rs : list RawStep) : option (list Step) :=
  match rs with
  | [] => Some []
  | r :: rs' =>
    match fill_step_existing r with
    | None => None
    | Some s =>
      match fill_steps_existing rs' with
      | None => None
      | Some ss => Some (s :: ss)
      end
    end
  end.

(** [steps[0].get('text', '')[:100]] and the same of [steps[-1]] raise
    on a [null] text. *)
Definition previews_ok (ss : list Step) : bool :=
  match ss with
  | [] => true
  | first :: _ =>
    match text first, option_map text (PyList.last_opt ss) with
    | Null, _ => false
    | _, Some Null => false
    | _, _ => true
    end
  end.

(** The loop over the steps when the answer is generated. *)
Definition fill_step_generated (r : RawStep) : Step :=
  {| text := raw_text r;
     requires_click :=
       match raw_requires_click r with
       | Val b => Some b
       | Null => None
       | Absent => Some false
       end;
     button_coords := raw_button_coords r |}.

(** [result.get("explanation", "")]. *)
Definition explanation_field (f : JField string) : option string :=
  match f with Absent => Some "" | Null => None | Val s => Some s end.

Definition generate_full_answer (env : Env) (reply : GenReply)
    (state : AgentState) : M AgentState :=
  let chunks := selected_chunks state in
  let existing_answer := full_answer state in
  if truthy_opt existing_answer && match chunks with [] => true | _ => false end
  then
    (* an answer is already there: only break it into steps *)
    if negb (client env) then ret (set_steps state [])
    else
      call CallGenerate ;;;
      match reply with
      | GenRaise _ => ret (set_steps state [])
      | GenResult _ raw_steps =>
        let state := set_full_answer state existing_answer in
        match fill_steps_existing raw_steps with
        | None => ret (set_steps state [])
        | Some ss =>
          if previews_ok ss then ret (set_steps state ss)
          else ret (set_steps state [])
        end
      end
  else
    (* generate the answer from the chunks *)
    if negb (client env)
    then ret (set_steps (set_full_answer state (Some "OpenAI client not available.")) [])
    else
      call CallGenerate ;;;
      match reply with
      | GenRaise msg =>
        ret (set_steps
               (set_full_answer state (Some ("Error generating answer: " ++ msg)%string))
               [])
      | GenResult e raw_steps =>
        ret (set_steps (set_full_answer state (explanation_field e))
                       (map fill_step_generated raw_steps))
      end.

Definition wait_for_user_step_choice (state : AgentState) : AgentState :=
  (* the key [full_answer] is always present: [state.get("full_answer", "")]
     is its value, which may be [None] *)
  let full_answer := full_answer state in
  let steps := steps state in
  let user_choice := lower (or_empty (user_choice state)) in
  if truthy user_choice then
    if contains "no" user_choice || contains "thanks" user_choice
       || contains "thank you" user_choice
    then
      set_response_text
        (set_mode (set_action_required state None) simple)
        (Some "Okay, feel free to ask if you need help!")
    else if contains "yes" user_choice || contains "show" user_choice
            || contains "start" user_choice
    then set_action_required state None
    else set_action_required state None
  else
    let state := set_mode (set_action_required state (Some WaitStepChoice)) simple in
    match steps with
    | _ :: _ =>
      set_response_text state
        (Some (fmt_opt full_answer ++ nl ++ nl
               ++ "Would you like me to show this step-by-step? (yes/no)")%string)
    | [] => set_response_text state full_answer
    end.

Definition step_header (number total : Z) : string :=
  ("Step " ++ str_of_Z number ++ " of " ++ str_of_Z total ++ ":")%string.

Definition step_agent_start (state : AgentState) : AgentState :=
  match steps state with
  | [] => set_response_text state (Some "No steps to execute.")
  | first_step :: _ =>
    set_response_text
      (set_current_step_index (set_mode state step_by_step) 0)
      (Some (step_header 1 (len state) ++ nl ++ text_fmt first_step)%string)
  end.

(** [steps[current_index]]. *)
Definition current_step (state : AgentState) : Res Step :=
  match PyList.index (steps state) (current_step_index state) with
  | Some s => Ok s
  | None => Raised IndexError
  end.

(** Assignment to a key of the dictionary [steps[current_index]]. *)
Definition update_current_step (state : AgentState) (f : Step -> Step)
  : AgentState :=
  set_steps state (PyList.update (steps state) (current_step_index state) f).

(** [not steps or current_index >= len(steps)]. *)
Definition no_current_step (state : AgentState) : bool :=
  match steps state with
  | [] => true
  | _ :: _ => len state <=? current_step_index state
  end.

(** [result.get("requires_click", False)]: [None] for a JSON [null]. *)
Definition requires_click_field (f : JField bool) : option bool :=
  match f with Val b => Some b | Null => None | Absent => Some false end.

Definition detect_interaction_type (env : Env) (reply : InteractionReply)
    (state : AgentState) : M AgentState :=
  if no_current_step state then ret state
  else
    current <- lift (current_step state) ;;
    let step_text := text_or_empty current in
    if negb (client env) then
      let requires_click :=
        if truthy step_text
        then any_in ["click"; "button"; "menu"; "select"] (lower step_text)
        else false in
      ret (update_current_step state
             (set_step_requires_click (Some requires_click)))
    else
      call CallInteraction ;;;
      match reply with
      | InteractionResult f =>
        ret (update_current_step state
               (set_step_requires_click (requires_click_field f)))
      | InteractionRaise =>
        let requires_click :=
          if truthy step_text
          then any_in ["click"; "button"; "menu"] (lower step_text)
          else false in
        ret (update_current_step state
               (set_step_requires_click (Some requires_click)))
      end.

Definition default_to (d : Z) (v : option Z) : Z :=
  match v with Some v => v | None => d end.

Definition analyze_screenshot_for_button (env : Env) (reply : LocateReply)
    (state : AgentState) : M AgentState :=
  if no_current_step state then ret state
  else
    _ <- lift (current_step state) ;;
    if negb (truthy_opt (screenshot_url state)) || negb (client env) then
      ret (set_response_text state
             (Some "Screenshot not provided or client unavailable."))
    else
      match reply with
      | LocFileMissing =>
        ret (set_response_text state (Some "Screenshot file not found."))
      | LocReadError =>
        ret (update_current_step state (set_step_button_coords None))
      | LocRaise =>
        call CallLocate ;;;
        ret (update_current_step state (set_step_button_coords None))
      | LocNoJson =>
        call CallLocate ;;;
        ret (update_current_step state (set_step_button_coords None))
      | LocResult found x y width height =>
        call CallLocate ;;;
        match found, x, y with
        | true, Some x, Some y =>
          ret (update_current_step state
                 (set_step_button_coords
                    (Some {| coord_x := x; coord_y := y;
                             coord_width := default_to 50 width;
                             coord_height := default_to 50 height |})))
        | _, _, _ =>
          (* not found, no [x], or [result["y"]] raising [KeyError] *)
          ret (update_current_step state (set_step_button_coords None))
        end
      end.

Definition wait_user_action (state : AgentState) : M AgentState :=
  let state := set_action_required state (Some WaitUserAction) in
  let current_index := current_step_index state in
  if negb (no_current_step state) then
    current <- lift (current_step state) ;;
    let step_text := text_or_empty current in
    let first_part :=
      (step_header (current_index + 1) (len state) ++ nl ++ step_text)%string in
    match button_coords current with
    | Some coords =>
      ret (set_response_text state
             (Some (first_part ++ nl ++ nl ++ "Button coordinates: x="
                    ++ str_of_Z (coord_x coords) ++ ", y="
                    ++ str_of_Z (coord_y coords))%string))
    | None => ret (set_response_text state (Some first_part))
    end
  else ret (set_response_text state (Some "All steps completed.")).

Definition optional_validate_step (env : Env) (reply : ValidateReply)
    (state : AgentState) : M AgentState :=
  if len state <=? current_step_index state then ret state
  else
    current <- lift (current_step state) ;;
    if contains "skip" (lower (or_empty (user_choice state))) then ret state
    else if negb (clicks current) then ret state
    else if negb (truthy_opt (screenshot_url state)) || negb (client env)
    then ret state
    else
      match reply with
      | ValFileMissing => ret state
      | ValReadError => ret state
      | ValRaise => call CallValidate ;;; ret state
      | ValNoJson => call CallValidate ;;; ret state
      | ValResult valid explanation =>
        call CallValidate ;;;
        if negb valid then
          let explanation :=
            match explanation with
            | Some e => e
            | None => "Step was not completed correctly."
            end in
          ret (set_response_text state (Some ("⚠️ " ++ explanation)%string))
        else ret state
      end.

Definition next_step_or_finish (state : AgentState) : AgentState :=
  let current_index := current_step_index state in
  match steps state with
  | _ :: _ =>
    if current_index <? len state - 1
    then set_current_step_index state (current_index + 1)
    else set_action_required state (Some WaitTaskCompletionChoice)
  | [] => set_action_required state (Some WaitTaskCompletionChoice)
  end.

(** The table [completion_questions] of [final_confirmation]. *)
Definition completion_questions (l : Lang) : string :=
  match l with
  | ru => "Did you manage to solve the task?"
  | en => "Did you manage to solve the task?"
  end.

Definition final_confirmation (env : Env) (state : AgentState)
  : M AgentState :=
  let current_index := current_step_index state in
  let query_lang := detect_language env (user_query state) in
  let completion_question := completion_questions query_lang in
  if negb (no_current_step state) then
    last_step <- lift (current_step state) ;;
    let last_step_text := text_fmt last_step in
    let header := step_header (current_index + 1) (len state) in
    ret (set_action_required
           (set_response_text state
              (Some (header ++ nl ++ last_step_text ++ nl ++ nl
                     ++ completion_question)%string))
           (Some WaitTaskCompletionChoice))
  else
    ret (set_action_required
           (set_response_text state (Some completion_question))
           (Some WaitTaskCompletionChoice)).

(** [step['text']] raises [KeyError] on a step without text. *)
Definition all_steps_have_text (ss : list Step) : bool :=
  forallb (fun s => match text s with Absent => false | _ => true end) ss.

Definition fallback_review_steps (env : Env) (reply : FallbackReply)
    (state : AgentState) : M AgentState :=
  if negb (client env)
  then ret (set_response_text state (Some "Failed to analyze steps."))
  else if negb (all_steps_have_text (steps state))
  then ret (set_response_text state (Some "Failed to identify problematic steps."))
  else
    call CallFallback ;;;
    match reply with
    | FallbackRaise =>
      ret (set_response_text state (Some "Failed to identify problematic steps."))
    | FallbackResult [] =>
      ret (set_response_text state (Some "All steps completed correctly."))
    | FallbackResult (first_problematic :: _) =>
      ret (set_response_text
             (set_mode (set_current_step_index state first_problematic) step_by_step)
             (Some ("Let's start from step " ++ str_of_Z (first_problematic + 1)
                    ++ ".")%string))
    end.

End Nodes.

(** ** workflow.py *)

Module Workflow.

Import PyStr Nodes.

(** The nodes of the graph, under the names [create_workflow] gives
    them. *)
Inductive Node :=
| detect_intent
| check_version
| wait_version_choice
| retrieve
| generate_answer
| wait_step_choice
| step_agent
| detect_interaction
| analyze_screenshot
| wait_action
| validate
| next_step
| final_confirmation
| fallback.

(** The target of an edge: a node, or [END]. *)
Definition Target := option Node.
Definition END : Target := None.

Definition choice (state : AgentState) : string :=
  lower (or_empty (user_choice state)).

Definition should_continue_after_intent (state : AgentState) : Target :=
  match intent state with
  | Some AbletonQuestion => Some check_version
  | _ => END
  end.

Definition should_continue_after_version_check (state : AgentState) : Target :=
  match allowed state with
  | Some true => Some retrieve
  | _ => Some wait_version_choice
  end.

Definition should_continue_after_version_choice (state : AgentState) : Target :=
  if contains "new task" (choice state) || contains "cancel" (choice state)
  then END else Some retrieve.

Definition should_continue_after_step_choice (state : AgentState) : Target :=
  if contains "yes" (choice state) then Some step_agent else END.

Definition should_continue_after_interaction_type (state : AgentState)
  : Res Target :=
  if negb (no_current_step state) then
    match current_step state with
    | Raised e => Raised e
    | Ok current =>
      if clicks current then Ok (Some analyze_screenshot)
      else Ok (Some wait_action)
    end
  else Ok (Some wait_action).

Definition should_continue_after_user_action (state : AgentState) : Target :=
  if contains "cancel" (choice state) then END
  else if contains "skip" (choice state) then Some next_step
  else Some validate.

Definition should_continue_after_next_step (state : AgentState) : Target :=
  if negb (no_current_step state) then Some detect_interaction
  else Some final_confirmation.

Definition should_continue_after_final_confirmation (state : AgentState)
  : Target :=
  if contains "yes" (choice state) || contains "solved" (choice state)
     || contains "done" (choice state)
  then END else Some fallback.

(** [workflow.add_node]: the handler of each node. *)
Definition handler (env : Env) (n : Node) (o : Oracle) (state : AgentState)
  : M AgentState :=
  match n with
  | detect_intent => detect_user_intent env (o_intent o) state
  | check_version => check_ableton_version env (o_embedding o) (o_version o) state
  | wait_version_choice => ret (wait_for_version_choice state)
  | retrieve => retrieve_from_vectorstore env (o_embedding o) state
  | generate_answer => generate_full_answer env (o_generate o) state
  | wait_step_choice => ret (wait_for_user_step_choice state)
  | step_agent => ret (step_agent_start state)
  | detect_interaction => detect_interaction_type env (o_interaction o) state
  | analyze_screenshot => analyze_screenshot_for_button env (o_locate o) state
  | wait_action => wait_user_action state
  | validate => optional_validate_step env (o_validate o) state
  | next_step => ret (next_step_or_finish state)
  | final_confirmation => Nodes.final_confirmation env state
  | fallback => fallback_review_steps env (o_fallback o) state
  end.

(** [workflow.add_edge] and [workflow.add_conditional_edges]: where the
    graph goes after a node has run. *)
Definition successor (n : Node) (state : AgentState) : Res Target :=
  match n with
  | detect_intent => Ok (should_continue_after_intent state)
  | check_version => Ok (should_continue_after_version_check state)
  | wait_version_choice => Ok (should_continue_after_version_choice state)
  | retrieve => Ok (Some generate_answer)
  | generate_answer => Ok (Some wait_step_choice)
  | wait_step_choice => Ok (should_continue_after_step_choice state)
  | step_agent => Ok (Some detect_interaction)
  | detect_interaction => should_continue_after_interaction_type state
  | analyze_screenshot => Ok (Some wait_action)
  | wait_action => Ok (should_continue_after_user_action state)
  | validate => Ok (Some next_step)
  | next_step => Ok (should_continue_after_next_step state)
  | final_confirmation => Ok (should_continue_after_final_confirmation state)
  | fallback => Ok (Some step_agent)
  end.

Definition entry_point : Node := detect_intent.

(** What [workflow.stream(initial_state)] produces, one element per
    stage executed; the rest of the stream is computed when the consumer
    asks for it. *)
Inductive Stream :=
| SEnd
| SRaise (e : Exn)
| SYield (name : Node) (node_state : AgentState) (rest : unit -> Stream).

(** The compiled graph gives up with [GraphRecursionError] after
    [recursion_limit] stages (25 unless configured). *)
Definition recursion_limit : nat := 25.

Fixpoint stream_from (fuel : nat) (env : Env) (script : nat -> Oracle)
    (i : nat) (n : Node) (state : AgentState) : Stream :=
  match fuel with
  | O => SRaise GraphRecursionError
  | S fuel' =>
    match outcome (handler env n (script i) state) with
    | Raised e => SRaise e
    | Ok state' =>
      SYield n state'
        (fun _ =>
           match successor n state' with
           | Raised e => SRaise e
           | Ok None => SEnd
           | Ok (Some n') => stream_from fuel' env script (S i) n' state'
           end)
    end
  end.

Definition stream (env : Env) (script : nat -> Oracle) (initial_state : AgentState)
  : Stream :=
  stream_from recursion_limit env script 0 entry_point initial_state.

End Workflow.

(** ** main.py *)

Module Main.

Import PyStr Nodes Workflow.

Inductive Http (A : Type) :=
| HttpOk (a : A)
| HttpError (status_code : Z).
Arguments HttpOk {A} a.
Arguments HttpError {A} status_code.

Record ChatResponse := {
  response : string;
  chat_mode : Mode;
  chat_steps : option (list Step);
  chat_action_required : option Action }.

Record StepResponse := {
  step_text : string;
  step_index : Z;
  total_steps : Z;
  step_requires_click : bool;
  step_button_coords : option Coords;
  step_action_required : option Action }.

(** *** /chat *)

(** The session a first message creates. *)
Definition new_session (session_id message edition : string)
    (screenshot : option string) : AgentState :=
  {| session_id := session_id;
     user_query := message;
     ableton_edition := edition;
     screenshot_url := screenshot;
     intent := None;
     allowed := None;
     version_explanation := None;
     selected_chunks := [];
     full_answer := None;
     steps := [];
     mode := simple;
     current_step_index := 0;
     user_choice := None;
     action_required := None;
     response_text := None |}.

Definition max_iterations : nat := 20.

Definition truthy_action (a : option Action) : bool :=
  match a with Some _ => true | None => false end.

(** The loop [for step in workflow.stream(initial_state)]: [iteration]
    counts the stage results consumed so far and [result] is the last
    one. *)
Fixpoint consume (s : Stream) (iteration : nat) (result : AgentState)
  : Res (AgentState * nat) :=
  match s with
  | SEnd => Ok (result, iteration)
  | SRaise e => Raised e
  | SYield _ node_state rest =>
    let iteration := S iteration in
    let result := node_state in
    if truthy_action (action_required result)
       || Nat.leb max_iterations iteration
    then Ok (result, iteration)
    else consume (rest tt) iteration result
  end.

(** The response built from the last state: its text, else the full
    answer, else a fixed sentence. *)
Definition chat_response_text (result : AgentState) : string :=
  if truthy_opt (response_text result) then or_empty (response_text result)
  else if truthy_opt (full_answer result) then or_empty (full_answer result)
  else "No response generated.".

Definition chat_response (result : AgentState) : ChatResponse :=
  {| response := chat_response_text result;
     chat_mode := mode result;
     chat_steps :=
       match mode result, steps result with
       | step_by_step, _ :: _ => Some (steps result)
       | _, _ => None
       end;
     chat_action_required := action_required result |}.

(** The loop of [chat] on an arbitrary stream of stage results, and the
    response it leads to. *)
Definition chat_on_stream (s : Stream) (initial_state : AgentState)
  : Http ChatResponse * AgentState :=
  match consume s 0 initial_state with
  | Ok (result, _) => (HttpOk (chat_response result), result)
  | Raised _ => (HttpError 500, initial_state)
  end.

(** A turn of [/chat] once the message is stored in the session: the
    response and the session as the turn leaves it. *)
Definition chat (env : Env) (script : nat -> Oracle) (session : AgentState)
  : Http ChatResponse * AgentState :=
  chat_on_stream (stream env script session) session.

(** *** /step *)

Definition Turn (A : Type) : Type := list Call * (AgentState * Http A).

(** A call inside the [try] block: an exception ends the turn with the
    status 500 and the session as stored so far. *)
Definition try_ {A B} (session : AgentState) (m : M A) (k : A -> Turn B)
  : Turn B :=
  match m with
  | (t, Ok a) => let '(t', r) := k a in (t ++ t', r)
  | (t, Raised _) => (t, (session, HttpError 500))
  end.

Definition done {A} (session : AgentState) (r : Http A) : Turn A :=
  ([], (session, r)).

Definition yes_keywords : list string :=
  ["yes"; "solved"; "done"; "completed"; "finished"; "managed"; "succeeded"].

Definition no_keywords : list string :=
  ["no"; "failed"; "didn't"; "couldn't"; "unable"; "not solved"].

Definition completion_messages (l : Lang) : string :=
  match l with
  | ru => "Great! Task completed. If you need help with anything else, just ask!"
  | en => "Great! Task completed. If you need help with anything else, just ask!"
  end.

(** [steps[0]] of a list known to be non-empty at this point. *)
Definition first_step (ss : list Step) : Res Step :=
  match PyList.index ss 0 with Some s => Ok s | None => Raised IndexError end.

Definition last_step (ss : list Step) : Res Step :=
  match PyList.last_opt ss with Some s => Ok s | None => Raised IndexError end.

(** [StepResponse(..., requires_click=step.get("requires_click", False),
    ...)] for a step of the list: the field is declared [bool], and
    pydantic refuses [None] with a [ValidationError]. *)
Definition step_response (step_text : string) (step_index total_steps : Z)
    (step : Step) (action_required : option Action) : Res StepResponse :=
  match requires_click step with
  | Some b =>
    Ok {| step_text := step_text;
          step_index := step_index;
          total_steps := total_steps;
          step_requires_click := b;
          step_button_coords := button_coords step;
          step_action_required := action_required |}
  | None => Raised ValidationError
  end.

(** The branch of [step] that reads the decision as the answer to the
    completion question; [session] is the session as just stored. *)
Definition answer_completion (env : Env) (o : Oracle) (session : AgentState)
    (user_action : string) : Turn StepResponse :=
  let steps := steps session in
  let total := Z.of_nat (List.length steps) in
  let user_choice_lower := lower user_action in
  let query_lang := detect_language env (user_query session) in
  let is_yes := any_in yes_keywords user_choice_lower in
  let is_no := any_in no_keywords user_choice_lower in
  if is_yes then
    let session := set_mode (set_action_required session None) simple in
    done session
      (HttpOk {| step_text := completion_messages query_lang;
                 step_index := total - 1;
                 total_steps := total;
                 step_requires_click := false;
                 step_button_coords := None;
                 step_action_required := None |})
  else if is_no then
    (* restart from the first step *)
    let session :=
      set_action_required (set_current_step_index session 0)
                          (Some WaitUserAction) in
    try_ session (lift (first_step steps)) (fun first =>
    let first_step_text :=
      (step_header 1 total ++ nl ++ text_fmt first)%string in
    try_ session
      (detect_interaction_type env (o_interaction o)
         (set_current_step_index session 0))
      (fun result =>
    let session := result in
    (* [first_step] is the dictionary the handler has just updated *)
    try_ session (lift (first_step (Nodes.steps result))) (fun first =>
    try_ session
      (lift (step_response first_step_text 0 total first (Some WaitUserAction)))
      (fun response => done session (HttpOk response)))))
  else
    (* unclear: ask again *)
    try_ session (lift (last_step steps)) (fun last =>
    done session
      (HttpOk {| step_text :=
                   (step_header total total ++ nl ++ text_fmt last
                    ++ nl ++ nl ++ completion_questions query_lang)%string;
                 step_index := total - 1;
                 total_steps := total;
                 step_requires_click := false;
                 step_button_coords := None;
                 step_action_required := Some WaitTaskCompletionChoice |})).

(** The rest of [step]: present the step the cursor has reached. *)
Definition present_next (env : Env) (o : Oracle) (result : AgentState)
    (current_index : Z) : Turn StepResponse :=
  let session := result in
  let total := Z.of_nat (List.length (steps result)) in
  let new_index := current_step_index result in
  (* the index did not move: force the increment *)
  let forced :=
    (new_index =? current_index) && (current_index <? total - 1) in
  let new_index := if forced then current_index + 1 else new_index in
  let result :=
    if forced then set_current_step_index result new_index else result in
  let session :=
    if forced then set_current_step_index session new_index else session in
  if new_index =? total - 1 then
    (* the last step: show it with the completion question *)
    try_ session (Nodes.final_confirmation env result) (fun result =>
    let session := result in
    done session
      (HttpOk {| step_text := or_empty (response_text result);
                 step_index := new_index;
                 total_steps := total;
                 step_requires_click := false;
                 step_button_coords := None;
                 step_action_required := Some WaitTaskCompletionChoice |}))
  else if (new_index <? total) && (0 <=? new_index) then
    try_ session (detect_interaction_type env (o_interaction o) result)
      (fun result =>
    try_ session (lift (current_step result)) (fun next =>
    let session := result in
    try_ session
      (lift (step_response
               (step_header (new_index + 1) total ++ nl ++ text_fmt next)%string
               new_index total next (Some WaitUserAction)))
      (fun response => done session (HttpOk response))))
  else
    let session := set_mode (set_action_required session None) simple in
    done session
      (HttpOk {| step_text := "All steps completed.";
                 step_index := total - 1;
                 total_steps := total;
                 step_requires_click := false;
                 step_button_coords := None;
                 step_action_required := None |}).

(** The stages [step] runs on the decision: validation unless the
    decision says to skip, then the advance. *)
Definition run_decision (env : Env) (o : Oracle) (state : AgentState)
    (user_action : string) : M AgentState :=
  if contains "skip" (lower user_action)
  then ret (next_step_or_finish state)
  else state <- optional_validate_step env (o_validate o) state ;;
       ret (next_step_or_finish state).

Definition step (env : Env) (o : Oracle) (session : AgentState)
    (user_action : string) (request_screenshot : option string)
  : Turn StepResponse :=
  let session := set_user_choice session (Some user_action) in
  let session :=
    if truthy_opt request_screenshot
    then set_screenshot_url session request_screenshot else session in
  let total := Z.of_nat (List.length (steps session)) in
  let current_index := current_step_index session in
  if total <=? current_index then done session (HttpError 400)
  else
    match current_step session with
    | Raised _ => done session (HttpError 500)
    | Ok _ =>
      if contains "cancel" (lower user_action) then
        done session
          (HttpOk {| step_text := "Task cancelled.";
                     step_index := current_index;
                     total_steps := total;
                     step_requires_click := false;
                     step_button_coords := None;
                     step_action_required := None |})
      else
        (* continue the workflow from the [wait_action] node *)
        let state :=
          set_response_text
            (set_user_choice (set_mode session step_by_step) (Some user_action))
            None in
        try_ session (run_decision env o state user_action) (fun result =>
        match action_required result with
        | Some WaitTaskCompletionChoice =>
          answer_completion env o result user_action
        | _ => present_next env o result current_index
        end)
    end.

(** *** The session table *)

(** [sessions]: the dictionary from session identifiers to sessions. *)
Definition Sessions : Type := list (string * AgentState).

(** [sessions.get(session_id)]; [None] when [session_id not in sessions]. *)
Fixpoint sessions_get (sessions : Sessions) (session_id : string)
  : option AgentState :=
  match sessions with
  | [] => None
  | (k, v) :: rest =>
    if String.eqb k session_id then Some v else sessions_get rest session_id
  end.

(** [sessions[session_id] = session]. *)
Fixpoint sessions_set (sessions : Sessions) (session_id : string)
    (session : AgentState) : Sessions :=
  match sessions with
  | [] => [(session_id, session)]
  | (k, v) :: rest =>
    if String.eqb k session_id then (k, session) :: rest
    else (k, v) :: sessions_set rest session_id session
  end.

Definition set_user_query (st : AgentState) (v : string) : AgentState :=
  Build_AgentState
    (session_id st) v (ableton_edition st) (screenshot_url st) (intent st)
    (allowed st) (version_explanation st) (selected_chunks st) (full_answer st)
    (steps st) (mode st) (current_step_index st) (user_choice st)
    (action_required st) (response_text st).

Definition set_ableton_edition (st : AgentState) (v : string) : AgentState :=
  Build_AgentState
    (session_id st) (user_query st) v (screenshot_url st) (intent st)
    (allowed st) (version_explanation st) (selected_chunks st) (full_answer st)
    (steps st) (mode st) (current_step_index st) (user_choice st)
    (action_required st) (response_text st).

(** [len(s)]: the number of code points, that is of the bytes of the
    UTF-8 text that are not continuation bytes (0x80..0xBF). *)
Fixpoint py_len (s : string) : Z :=
  match s with
  | EmptyString => 0
  | String c s' =>
    let n := nat_of_ascii c in
    (if (Nat.leb 128 n && Nat.leb n 191)%bool then 0 else 1) + py_len s'
  end.

(** *** /chat, from the request *)

(** The fields of [ChatRequest] and [StepByStepRequest] that the handlers
    read ([rag_answer] only in the latter). *)
Record ChatRequest := {
  message : string;
  request_session_id : option string;
  request_edition : string;
  request_screenshot_url : option string;
  rag_answer : string }.

(** [request.session_id or str(uuid.uuid4())], [fresh_id] being the
    identifier drawn. *)
Definition session_id_of (fresh_id : string) (request : ChatRequest) : string :=
  if truthy_opt (request_session_id request)
  then or_empty (request_session_id request) else fresh_id.

(** The message "show_button" with a screenshot: locate the control of
    the current step, outside the workflow. *)
Definition show_button (env : Env) (o : Oracle) (session : AgentState)
    (request : ChatRequest) : Http ChatResponse * AgentState :=
  let session :=
    set_ableton_edition
      (set_screenshot_url session (request_screenshot_url request))
      (request_edition request) in
  let state :=
    set_response_text
      (set_action_required (set_user_choice session None) (Some WaitUserAction))
      None in
  match outcome (analyze_screenshot_for_button env (o_locate o) state) with
  | Raised _ => (HttpError 500, session)
  | Ok result =>
    let found := "Button found! See the highlight on screen." in
    if negb (no_current_step result) then
      match current_step result with
      | Raised _ => (HttpError 500, result)
      | Ok current =>
        let response_text :=
          match button_coords current with
          | Some coords =>
            ("Button found at coordinates: x=" ++ str_of_Z (coord_x coords)
             ++ ", y=" ++ str_of_Z (coord_y coords))%string
          | None => found
          end in
        (HttpOk {| response := response_text;
                   chat_mode := step_by_step;
                   chat_steps := Some (steps result);
                   chat_action_required := Some WaitUserAction |}, result)
      end
    else
      (HttpOk {| response := found;
                 chat_mode := step_by_step;
                 chat_steps := Some (steps result);
                 chat_action_required := Some WaitUserAction |}, result)
  end.

(** The session with the new message stored in it: the message is the
    user's choice when a step or version choice is awaited, and a new
    query otherwise. *)
Definition receive_message (session : AgentState) (request : ChatRequest)
  : AgentState :=
  let session :=
    match action_required session with
    | Some WaitStepChoice | Some WaitVersionChoice =>
      set_user_choice session (Some (message request))
    | _ => set_user_query session (message request)
    end in
  set_ableton_edition
    (set_screenshot_url session (request_screenshot_url request))
    (request_edition request).

(** [chat]: [existing] is the session found under the identifier, if
    any; the result is the response and the session as stored. *)
Definition chat_request (env : Env) (script : nat -> Oracle) (session_id : string)
    (existing : option AgentState) (request : ChatRequest)
  : Http ChatResponse * AgentState :=
  match existing with
  | None =>
    chat env script
      (new_session session_id (message request) (request_edition request)
                   (request_screenshot_url request))
  | Some session =>
    if String.eqb (lower (message request)) "show_button"
       && truthy_opt (request_screenshot_url request)
    then show_button env (script O) session request
    else chat env script (receive_message session request)
  end.

(** [chat] on the session table. *)
Definition chat_endpoint (env : Env) (script : nat -> Oracle) (fresh_id : string)
    (sessions : Sessions) (request : ChatRequest)
  : Http ChatResponse * string * Sessions :=
  let session_id := session_id_of fresh_id request in
  let '(r, session) :=
    chat_request env script session_id (sessions_get sessions session_id) request in
  (r, session_id, sessions_set sessions session_id session).

(** *** /step, /step/validate and /session/{id}/status on the table *)

Definition step_endpoint (env : Env) (o : Oracle) (sessions : Sessions)
    (session_id user_action : string) (request_screenshot : option string)
  : list Call * (Sessions * Http StepResponse) :=
  match sessions_get sessions session_id with
  | None => ([], (sessions, HttpError 404))
  | Some session =>
    let '(t, (session, r)) := step env o session user_action request_screenshot in
    (t, (sessions_set sessions session_id session, r))
  end.

Record ValidateStepResponse := {
  valid : bool;
  validation_explanation : option string }.

(** [validate_step] on the session found; the session is only read. *)
Definition validate_step (env : Env) (o : Oracle) (session : AgentState)
    (request_screenshot_url : string) (request_step_index : Z)
  : list Call * Http ValidateStepResponse :=
  if Z.of_nat (List.length (steps session)) <=? request_step_index
  then ([], HttpError 400)
  else
    match PyList.index (steps session) request_step_index with
    | None => ([], HttpError 500)
    | Some _ =>
      let state :=
        set_response_text
          (set_action_required
             (set_user_choice
                (set_mode
                   (set_current_step_index
                      (set_screenshot_url session (Some request_screenshot_url))
                      request_step_index)
                   step_by_step)
                None)
             None)
          None in
      match optional_validate_step env (o_validate o) state with
      | (t, Raised _) => (t, HttpError 500)
      | (t, Ok result) =>
        let response_text := response_text result in
        let valid :=
          if truthy_opt response_text
          then negb (startswith (or_empty response_text) "⚠️")
          else true in
        (t, HttpOk {| valid := valid;
                      validation_explanation :=
                        if valid then None else response_text |})
      end
    end.

Definition validate_step_endpoint (env : Env) (o : Oracle) (sessions : Sessions)
    (session_id request_screenshot_url : string) (request_step_index : Z)
  : list Call * Http ValidateStepResponse :=
  match sessions_get sessions session_id with
  | None => ([], HttpError 404)
  | Some session => validate_step env o session request_screenshot_url request_step_index
  end.

Record SessionStatusResponse := {
  status_mode : Mode;
  status_current_step : option Z;
  status_total_steps : option Z;
  status_current_step_info : option Step }.

Definition get_session_status (sessions : Sessions) (session_id : string)
  : Http SessionStatusResponse :=
  match sessions_get sessions session_id with
  | None => HttpError 404
  | Some session =>
    let current_step := current_step_index session in
    let total_steps :=
      match steps session with
      | [] => None
      | _ :: _ => Some (Z.of_nat (List.length (steps session)))
      end in
    match mode session with
    | step_by_step =>
      if negb (no_current_step session) then
        match PyList.index (steps session) current_step with
        | None => HttpError 500
        | Some info =>
          HttpOk {| status_mode := step_by_step;
                    status_current_step := Some current_step;
                    status_total_steps := total_steps;
                    status_current_step_info := Some info |}
        end
      else
        HttpOk {| status_mode := step_by_step;
                  status_current_step := Some current_step;
                  status_total_steps := total_steps;
                  status_current_step_info := None |}
    | simple =>
      HttpOk {| status_mode := simple;
                status_current_step := None;
                status_total_steps := None;
                status_current_step_info := None |}
    end
  end.

(** *** /chat/step-by-step *)

(** The session [chat_step_by_step] prepares from the request. *)
Definition prepare_step_by_step (session_id : string)
    (existing : option AgentState) (request : ChatRequest) : AgentState :=
  match existing with
  | None =>
    set_allowed
      (set_intent
         (set_full_answer
            (new_session session_id (message request) (request_edition request)
                         (request_screenshot_url request))
            (Some (rag_answer request)))
         (Some AbletonQuestion))
      (Some true)
  | Some session =>
    set_allowed
      (set_intent
         (set_ableton_edition
            (set_screenshot_url
               (set_full_answer (set_user_query session (message request))
                                (Some (rag_answer request)))
               (request_screenshot_url request))
            (request_edition request))
         (Some AbletonQuestion))
      (Some true)
  end.

(** [chat_step_by_step]: the response and the session as stored. *)
Definition chat_step_by_step (env : Env) (o : Oracle) (session_id : string)
    (existing : option AgentState) (request : ChatRequest)
  : Http ChatResponse * AgentState :=
  let session := prepare_step_by_step session_id existing request in
  let initial_state :=
    set_response_text
      (set_selected_chunks
         (set_version_explanation
            (set_allowed (set_intent session (Some AbletonQuestion)) (Some true))
            None)
         [])
      None in
  match outcome (generate_full_answer env (o_generate o) initial_state) with
  | Raised _ => (HttpError 500, session)
  | Ok result =>
    match full_answer result with
    | None =>
      (* [len(result_full_answer)] raises on [None] *)
      (HttpError 500, session)
    | Some answer =>
      match steps result with
      | [] =>
        (HttpOk {| response :=
                     ("Failed to extract steps from answer. Answer length: "
                      ++ str_of_Z (py_len answer)
                      ++ " characters. Please try again.")%string;
                   chat_mode := simple;
                   chat_steps := None;
                   chat_action_required := None |}, session)
      | _ :: _ =>
        let result := step_agent_start result in
        match outcome (result <- detect_interaction_type env (o_interaction o) result ;;
                       wait_user_action result) with
        | Raised _ => (HttpError 500, session)
        | Ok result =>
          let response_text :=
            if truthy_opt (response_text result) then or_empty (response_text result)
            else
              match steps result with
              | first :: _ =>
                (step_header 1 (len result) ++ nl ++ text_fmt first)%string
              | [] =>
                if truthy_opt (full_answer result) then or_empty (full_answer result)
                else "Failed to extract steps from answer."
              end in
          (HttpOk {| response := response_text;
                     chat_mode := mode result;
                     chat_steps :=
                       match mode result, steps result with
                       | step_by_step, _ :: _ => Some (steps result)
                       | _, _ => None
                       end;
                     chat_action_required := action_required result |}, result)
        end
      end
    end
  end.

End Main.

(** * Properties *)

Import PyStr Nodes.

(** ** Spec-level vocabulary *)

(** The cursor lies in [[0, len(steps)]]. *)
Definition cursor_in_range (state : AgentState) : Prop :=
  0 <= current_step_index state <= len state.

(** The cursor designates a step. *)
Definition cursor_on_step (state : AgentState) : Prop :=
  0 <= current_step_index state < len state.

(** A presented text that is there and not empty. *)
Definition presents_text (state : AgentState) : Prop :=
  truthy_opt (response_text state) = true.

(** Mode 2 of [generate_full_answer]: an answer was supplied and no chunk
    was retrieved. *)
Definition answer_supplied (state : AgentState) : Prop :=
  truthy_opt (full_answer state) = true /\ selected_chunks state = [].

(** ** The monad *)

Lemma bind_ret {A B} (a : A) (f : A -> M B) : bind (ret a) f = f a.
Proof. unfold bind, ret. destruct (f a) as [t r]. reflexivity. Qed.

Lemma outcome_bind_call {A} (c : Call) (k : M A) :
  outcome (call c ;;; k) = outcome k.
Proof. unfold bind, call. destruct k as [t r]. reflexivity. Qed.

Lemma trace_bind_call {A} (c : Call) (k : M A) :
  trace (call c ;;; k) = c :: trace k.
Proof. unfold bind, call. destruct k as [t r]. reflexivity. Qed.

Lemma outcome_bind_lift {A B} (r : Res A) (f : A -> M B) :
  outcome (x <- lift r ;; f x) =
  match r with Ok a => outcome (f a) | Raised e => Raised e end.
Proof. unfold bind, lift. destruct r as [a|e]; [destruct (f a)|]; reflexivity. Qed.

Lemma trace_bind_lift {A B} (r : Res A) (f : A -> M B) :
  trace (x <- lift r ;; f x) =
  match r with Ok a => trace (f a) | Raised e => [] end.
Proof. unfold bind, lift. destruct r as [a|e]; [destruct (f a)|]; reflexivity. Qed.

(** ** C4: the supplied answer survives step extraction *)

(** C4.  In mode 2 (an answer was supplied and no chunk was retrieved),
    whatever the generation service replies (a parsed object, or an
    exception, which covers malformed JSON), [generate_full_answer]
    returns a state whose [full_answer] is the supplied text. *)
Theorem generate_full_answer_preserves_supplied_answer :
  forall env reply state,
    answer_supplied state ->
    exists state',
      outcome (generate_full_answer env reply state) = Ok state' /\
      full_answer state' = full_answer state.
Proof.
  intros env reply state [Hans Hchunks].
  unfold generate_full_answer. rewrite Hans, Hchunks. cbn [andb].
  destruct (client env); cbn [negb].
  - rewrite outcome_bind_call.
    destruct reply as [msg|e raw]; [eexists; split; reflexivity|].
    destruct (fill_steps_existing raw) as [ss|];
      [destruct (previews_ok ss)|]; eexists; split; reflexivity.
  - eexists; split; reflexivity.
Qed.

Definition supplied_state : AgentState :=
  set_full_answer
    (Main.new_session "s1" "How do I add an audio effect?" "Ableton Live Suite" None)
    (Some "1. Open the browser. 2. Drag the effect onto the track.").

Definition two_raw_steps : list RawStep :=
  [ {| raw_text := Val "Open the browser."; raw_requires_click := Absent;
       raw_button_coords := None |};
    {| raw_text := Val "Drag the effect onto the track.";
       raw_requires_click := Val false; raw_button_coords := None |} ].

Definition env_with_client : Env :=
  {| client := true;
     rag_store := {| Rag.full_index := []; Rag.versions_index := [] |};
     VERSION_CHECK_TOP_K := 2;
     count_alpha := fun _ => 0 |}.

Lemma generate_full_answer_preserves_supplied_answer_witness :
  exists state',
    outcome (generate_full_answer env_with_client
               (GenResult (Val "summary") two_raw_steps) supplied_state)
    = Ok state' /\
    full_answer state' = full_answer supplied_state.
Proof.
  apply (generate_full_answer_preserves_supplied_answer env_with_client
           (GenResult (Val "summary") two_raw_steps) supplied_state).
  split; reflexivity.
Defined.

(** ** C6: the step-choice gate *)

(** The handler recognises a negative reply. *)
Definition recognised_negative (user_choice : string) : bool :=
  contains "no" (lower user_choice) || contains "thanks" (lower user_choice)
  || contains "thank you" (lower user_choice).

(** C6 (the code departs from the claim).  A reply "show" is not a
    negative, and the handler [wait_for_user_step_choice] lists it with
    the replies that continue to [step_agent]; the edge
    [should_continue_after_step_choice] nevertheless ends the workflow,
    without the closing message. *)
Theorem step_choice_show_ends_workflow :
  forall state,
    let state' := wait_for_user_step_choice (set_user_choice state (Some "show")) in
    recognised_negative "show" = false /\
    Workflow.should_continue_after_step_choice state' = Workflow.END /\
    action_required state' = None /\
    response_text state' = response_text state.
Proof.
  intros state. repeat split.
Qed.

(** A reply that is not a recognised negative never gets the closing
    message: the handler leaves the presented text as it was. *)
Lemma non_negative_reply_keeps_text :
  forall state choice,
    user_choice state = Some choice ->
    truthy (lower choice) = true ->
    recognised_negative choice = false ->
    response_text (wait_for_user_step_choice state) = response_text state /\
    action_required (wait_for_user_step_choice state) = None.
Proof.
  intros state choice Hc Ht Hn. unfold wait_for_user_step_choice.
  unfold recognised_negative in Hn.
  rewrite Hc. cbn [or_empty]. rewrite Ht, Hn.
  destruct (contains "yes" (lower choice) || contains "show" (lower choice)
            || contains "start" (lower choice)); split; reflexivity.
Qed.

(** ** C8: the text presented by the awaiting stages *)

(** A model reply without explanation and without steps. *)
Definition bare_script (_ : nat) : Oracle :=
  {| o_intent := IntentContent (Some "ableton_question");
     o_embedding := [];
     o_version := VersionRaise;
     o_generate := GenResult Absent [];
     o_interaction := InteractionRaise;
     o_locate := LocNoJson;
     o_validate := ValNoJson;
     o_fallback := FallbackRaise |}.

(** C8 (counterexample).  A first message whose generated answer has no
    explanation and no steps: the turn stops in [wait_for_user_step_choice]
    with the session awaiting the step choice and an empty [response_text];
    the non-empty text of the response is supplied by [/chat]. *)
Lemma awaiting_step_choice_with_empty_text :
  let turn := Main.chat env_with_client bare_script
                (Main.new_session "s1" "How do I warp a clip?" "Ableton Live Suite" None) in
  action_required (snd turn) = Some WaitStepChoice /\
  response_text (snd turn) = Some "" /\
  ~ presents_text (snd turn) /\
  option_map Main.response
    (match fst turn with Main.HttpOk r => Some r | Main.HttpError _ => None end)
  = Some "No response generated.".
Proof.
  vm_compute. repeat split; try reflexivity. intros H; discriminate H.
Qed.

Lemma truthy_append_l (a b : string) : truthy a = true -> truthy (a ++ b)%string = true.
Proof. destruct a; [discriminate|reflexivity]. Qed.

Lemma chat_response_text_nonempty (result : AgentState) :
  truthy (Main.chat_response_text result) = true.
Proof.
  unfold Main.chat_response_text.
  destruct (truthy_opt (response_text result)) eqn:Hr.
  - destruct (response_text result); [exact Hr|discriminate].
  - destruct (truthy_opt (full_answer result)) eqn:Hf; [|reflexivity].
    destruct (full_answer result); [exact Hf|discriminate].
Qed.

Lemma index_nonneg_in_range {A} (l : list A) (i : Z) :
  0 <= i < Z.of_nat (List.length l) -> exists a, PyList.index l i = Some a.
Proof.
  intros H. unfold PyList.index.
  replace ((0 <=? i) && (i <? Z.of_nat (List.length l))) with true
    by (symmetry; apply andb_true_iff; split; [apply Z.leb_le|apply Z.ltb_lt]; lia).
  destruct (nth_error l (Z.to_nat i)) eqn:E; [eauto|].
  apply nth_error_None in E. lia.
Qed.

Lemma no_current_step_false (state : AgentState) :
  no_current_step state = false -> current_step_index state < len state.
Proof.
  unfold no_current_step, len. destruct (steps state); [discriminate|].
  intros H. apply Z.leb_gt in H. exact H.
Qed.

Lemma current_step_ok (state : AgentState) :
  cursor_on_step state -> exists s, current_step state = Ok s.
Proof.
  intros H. unfold current_step.
  destruct (index_nonneg_in_range (steps state) (current_step_index state) H) as [a Ha].
  rewrite Ha. eauto.
Qed.

Lemma wait_for_version_choice_presents state :
  action_required (wait_for_version_choice state) <> None ->
  presents_text (wait_for_version_choice state).
Proof.
  unfold wait_for_version_choice, presents_text.
  destruct (truthy_opt (user_choice state)); [intros H; now elim H|reflexivity].
Qed.

Lemma wait_for_user_step_choice_presents state :
  action_required (wait_for_user_step_choice state) <> None ->
  steps state <> [] \/ truthy_opt (full_answer state) = true ->
  presents_text (wait_for_user_step_choice state).
Proof.
  unfold wait_for_user_step_choice, presents_text.
  destruct (truthy (lower (or_empty (user_choice state)))).
  { destruct (_ || _); [|destruct (_ || _)]; intros H; now elim H. }
  intros _ Hs.
  destruct (steps state) as [|s ss] eqn:Es.
  - destruct Hs as [Hs|Hs]; [contradiction|exact Hs].
  - cbn. destruct (fmt_opt (full_answer state)); reflexivity.
Qed.

Lemma wait_user_action_presents state state' :
  outcome (wait_user_action state) = Ok state' ->
  presents_text state' /\ action_required state' = Some WaitUserAction.
Proof.
  unfold wait_user_action.
  set (st := set_action_required state (Some WaitUserAction)).
  destruct (no_current_step st); cbn [negb].
  - cbn. intros H; inversion H; subst. split; reflexivity.
  - rewrite outcome_bind_lift. destruct (current_step st) as [s|e]; [|discriminate].
    destruct (button_coords s); cbn; intros H; inversion H; subst; split; reflexivity.
Qed.

Lemma final_confirmation_presents env state state' :
  outcome (Nodes.final_confirmation env state) = Ok state' ->
  presents_text state' /\ action_required state' = Some WaitTaskCompletionChoice.
Proof.
  unfold Nodes.final_confirmation.
  destruct (no_current_step state); cbn [negb].
  - cbn. intros H; inversion H; subst.
    split; [|reflexivity]. unfold presents_text. cbn.
    destruct (detect_language env (user_query state)); reflexivity.
  - rewrite outcome_bind_lift. destruct (current_step state) as [s|e]; [|discriminate].
    cbn. intros H; inversion H; subst. split; reflexivity.
Qed.

Lemma wait_user_action_returns state :
  0 <= current_step_index state ->
  exists state', outcome (wait_user_action state) = Ok state'.
Proof.
  intros Hi. unfold wait_user_action.
  set (st := set_action_required state (Some WaitUserAction)).
  destruct (no_current_step st) eqn:En; cbn [negb].
  - eexists; reflexivity.
  - apply no_current_step_false in En.
    destruct (current_step_ok st) as [s Hs]; [split; [exact Hi|exact En]|].
    rewrite outcome_bind_lift, Hs. destruct (button_coords s); eexists; reflexivity.
Qed.

Lemma final_confirmation_returns_nonneg env state :
  0 <= current_step_index state ->
  exists state', outcome (Nodes.final_confirmation env state) = Ok state'.
Proof.
  intros Hi. unfold Nodes.final_confirmation.
  destruct (no_current_step state) eqn:En; cbn [negb].
  - eexists; reflexivity.
  - apply no_current_step_false in En.
    destruct (current_step_ok state) as [s Hs]; [split; assumption|].
    rewrite outcome_bind_lift, Hs. eexists; reflexivity.
Qed.

(** C8 (amended).  Whenever [wait_for_version_choice] leaves the session
    awaiting input, and whenever [wait_user_action] or [final_confirmation]
    return, the presented text is non-empty, and they do return when the
    cursor is not negative; [wait_for_user_step_choice] leaves a non-empty
    text when it awaits input with at least one step or a non-empty full
    answer (with no step it presents the full answer as it is); and the
    text that [/chat] returns is never empty. *)
Theorem awaiting_stages_present_text :
  forall env state,
    (action_required (wait_for_version_choice state) <> None
     -> presents_text (wait_for_version_choice state)) /\
    (action_required (wait_for_user_step_choice state) <> None
     -> steps state <> [] \/ truthy_opt (full_answer state) = true
     -> presents_text (wait_for_user_step_choice state)) /\
    (forall state', outcome (wait_user_action state) = Ok state'
     -> presents_text state' /\ action_required state' = Some WaitUserAction) /\
    (forall state', outcome (Nodes.final_confirmation env state) = Ok state'
     -> presents_text state' /\ action_required state' = Some WaitTaskCompletionChoice) /\
    (0 <= current_step_index state
     -> (exists state', outcome (wait_user_action state) = Ok state') /\
        (exists state', outcome (Nodes.final_confirmation env state) = Ok state')) /\
    truthy (Main.chat_response_text state) = true.
Proof.
  intros env state. repeat apply conj.
  - apply wait_for_version_choice_presents.
  - apply wait_for_user_step_choice_presents.
  - apply wait_user_action_presents.
  - apply final_confirmation_presents.
  - intros Hi. split.
    + now apply wait_user_action_returns.
    + now apply final_confirmation_returns_nonneg.
  - apply chat_response_text_nonempty.
Qed.

Definition three_steps : list Step :=
  [ {| text := Val "Open the browser."; requires_click := Some false;
       button_coords := None |};
    {| text := Val "Click the Audio Effects category."; requires_click := Some true;
       button_coords := None |};
    {| text := Val "Drag Reverb onto the track."; requires_click := Some false;
       button_coords := None |} ].

(** A session with three steps, delivered up to the second one. *)
Definition guided_state : AgentState :=
  set_action_required
    (set_current_step_index
       (set_mode
          (set_steps
             (set_full_answer
                (Main.new_session "s1" "How do I add an audio effect?"
                   "Ableton Live Suite" None)
                (Some "Use the browser."))
             three_steps)
          step_by_step)
       1)
    (Some WaitUserAction).

Lemma awaiting_stages_present_text_witness :
  presents_text (wait_for_version_choice guided_state) /\
  presents_text (wait_for_user_step_choice guided_state) /\
  (exists state', outcome (wait_user_action guided_state) = Ok state') /\
  (exists state', outcome (Nodes.final_confirmation env_with_client guided_state) = Ok state').
Proof.
  pose proof (awaiting_stages_present_text env_with_client guided_state)
    as (Hv & Hs & _ & _ & Hr & _).
  split; [apply Hv; discriminate|].
  split; [apply Hs; [discriminate|left; discriminate]|].
  apply Hr. vm_compute. discriminate.
Defined.

(** ** C1: the step cursor *)

(** A handler that keeps the number of steps and the cursor. *)
Definition keeps_cursor (state state' : AgentState) : Prop :=
  len state' = len state /\ current_step_index state' = current_step_index state.

Lemma keeps_cursor_refl (state : AgentState) : keeps_cursor state state.
Proof. split; reflexivity. Qed.

Lemma length_update_nth {A} (l : list A) (n : nat) (f : A -> A) :
  List.length (PyList.update_nth l n f) = List.length l.
Proof.
  revert n. induction l as [|x l IH]; intros n; [reflexivity|].
  destruct n; cbn; [reflexivity|]. now rewrite IH.
Qed.

Lemma keeps_cursor_update (state : AgentState) (f : Step -> Step) :
  keeps_cursor state (update_current_step state f).
Proof.
  split; [|reflexivity]. unfold len, update_current_step, PyList.update. cbn.
  now rewrite length_update_nth.
Qed.

Create HintDb cursor.
#[local] Hint Resolve keeps_cursor_refl keeps_cursor_update : cursor.

(** Peel the outcome of a handler written with [bind], [call] and [lift]. *)
Ltac peel H :=
  repeat first
    [ rewrite outcome_bind_call in H
    | rewrite outcome_bind_lift in H
    | match type of H with
      | context [match ?x with _ => _ end] => destruct x eqn:?
      | context [if ?c then _ else _] => destruct c eqn:?
      end ];
  try discriminate H;
  try (cbn in H; injection H as <-).

Lemma detect_user_intent_keeps_cursor env reply state state' :
  outcome (detect_user_intent env reply state) = Ok state' -> keeps_cursor state state'.
Proof. unfold detect_user_intent. intros H. peel H; split; reflexivity. Qed.

Lemma check_ableton_version_keeps_cursor env q reply state state' :
  outcome (check_ableton_version env q reply state) = Ok state' ->
  keeps_cursor state state'.
Proof. unfold check_ableton_version. intros H. peel H; split; reflexivity. Qed.

Lemma retrieve_from_vectorstore_keeps_cursor env q state state' :
  outcome (retrieve_from_vectorstore env q state) = Ok state' ->
  keeps_cursor state state'.
Proof. unfold retrieve_from_vectorstore. intros H. peel H; split; reflexivity. Qed.

Lemma wait_for_version_choice_keeps_cursor state :
  keeps_cursor state (wait_for_version_choice state).
Proof.
  unfold wait_for_version_choice.
  destruct (truthy_opt (user_choice state)); split; reflexivity.
Qed.

Lemma wait_for_user_step_choice_keeps_cursor state :
  keeps_cursor state (wait_for_user_step_choice state).
Proof.
  unfold wait_for_user_step_choice.
  destruct (truthy _); [destruct (_ || _); [|destruct (_ || _)]|destruct (steps state)];
    split; reflexivity.
Qed.

Lemma detect_interaction_type_keeps_cursor env reply state state' :
  outcome (detect_interaction_type env reply state) = Ok state' ->
  keeps_cursor state state'.
Proof. unfold detect_interaction_type. intros H. peel H; auto with cursor. Qed.

Lemma analyze_screenshot_for_button_keeps_cursor env reply state state' :
  outcome (analyze_screenshot_for_button env reply state) = Ok state' ->
  keeps_cursor state state'.
Proof.
  unfold analyze_screenshot_for_button. intros H.
  peel H; auto with cursor; split; reflexivity.
Qed.

Lemma wait_user_action_keeps_cursor state state' :
  outcome (wait_user_action state) = Ok state' -> keeps_cursor state state'.
Proof. unfold wait_user_action. intros H. peel H; split; reflexivity. Qed.

Lemma optional_validate_step_keeps_cursor env reply state state' :
  outcome (optional_validate_step env reply state) = Ok state' ->
  keeps_cursor state state'.
Proof. unfold optional_validate_step. intros H. peel H; split; reflexivity. Qed.

Lemma final_confirmation_keeps_cursor env state state' :
  outcome (Nodes.final_confirmation env state) = Ok state' -> keeps_cursor state state'.
Proof. unfold Nodes.final_confirmation. intros H. peel H; split; reflexivity. Qed.

(** [step_agent_start] keeps the steps and, when there is one, puts the
    cursor on the first. *)
Lemma step_agent_start_cursor state :
  len (step_agent_start state) = len state /\
  (steps state = [] -> current_step_index (step_agent_start state) = current_step_index state) /\
  (steps state <> [] -> current_step_index (step_agent_start state) = 0).
Proof.
  unfold step_agent_start. destruct (steps state) eqn:E; repeat split; cbn;
    intros; congruence.
Qed.

(** [next_step_or_finish] advances by one below the last step and stays
    put otherwise. *)
Lemma next_step_or_finish_cursor state :
  len (next_step_or_finish state) = len state /\
  (0 <= current_step_index state < len state - 1 ->
   current_step_index (next_step_or_finish state) = current_step_index state + 1) /\
  (len state - 1 <= current_step_index state ->
   current_step_index (next_step_or_finish state) = current_step_index state /\
   action_required (next_step_or_finish state) = Some WaitTaskCompletionChoice).
Proof.
  unfold next_step_or_finish, len.
  destruct (steps state) as [|s ss] eqn:E.
  - cbn. rewrite E. cbn. repeat split; intros; lia.
  - destruct (current_step_index state <? _) eqn:Hlt;
      [apply Z.ltb_lt in Hlt|apply Z.ltb_ge in Hlt];
      cbn [steps current_step_index action_required set_current_step_index
           set_action_required];
      rewrite E; repeat split; intros; try reflexivity; lia.
Qed.

Lemma generate_full_answer_keeps_index env reply state state' :
  outcome (generate_full_answer env reply state) = Ok state' ->
  current_step_index state' = current_step_index state.
Proof. unfold generate_full_answer. intros H. peel H; reflexivity. Qed.

(** [fallback_review_steps] keeps the steps; it keeps the cursor too, or
    stores the first flagged index as the model returned it. *)
Lemma fallback_review_steps_cursor env reply state state' :
  outcome (fallback_review_steps env reply state) = Ok state' ->
  keeps_cursor state state' \/
  (exists first rest,
      reply = FallbackResult (first :: rest) /\
      len state' = len state /\ current_step_index state' = first).
Proof.
  unfold fallback_review_steps. intros H. peel H;
    try (left; split; reflexivity).
  right. eexists _, _. repeat split.
Qed.

Lemma keeps_cursor_in_range state state' :
  keeps_cursor state state' ->
  (cursor_in_range state -> cursor_in_range state') /\
  (cursor_on_step state -> cursor_on_step state').
Proof. unfold keeps_cursor, cursor_in_range, cursor_on_step. intros [-> ->]. tauto. Qed.

(** C1 (counterexample).  With three steps, a review that flags the index
    7 leaves the cursor at 7; and in a fresh session, which is not in the
    completion state, the cursor already equals the number of steps. *)
Lemma cursor_escapes_the_step_list :
  (exists state',
      outcome (fallback_review_steps env_with_client (FallbackResult [7]) guided_state)
      = Ok state' /\
      len state' = 3 /\ current_step_index state' = 7 /\
      ~ cursor_in_range state') /\
  (let fresh := Main.new_session "s2" "How do I warp a clip?" "Ableton Live Suite" None in
   exists state',
      outcome (detect_user_intent env_with_client (IntentContent (Some "ableton_question"))
                 fresh) = Ok state' /\
      current_step_index state' = len state' /\
      action_required state' = None /\ full_answer state' = None).
Proof.
  split.
  - eexists. split; [reflexivity|]. repeat split.
    unfold cursor_in_range. cbn. lia.
  - eexists. split; [reflexivity|]. repeat split.
Qed.

(** C1 (amended).  Let the cursor be in [[0, len(steps)]] before a stage
    handler runs and let the handler return.  For every handler except
    [generate_full_answer] and [fallback_review_steps] the cursor is in
    [[0, len(steps)]] afterwards, and if it designated a step before it
    still designates one: no handler moves it to [len(steps)].
    [fallback_review_steps] keeps the bound provided the first index it is
    given lies in [[0, len(steps)]]; [generate_full_answer] leaves the
    cursor where it was while replacing the steps. *)
Theorem cursor_bounds_after_stage :
  forall env n o state state',
    outcome (Workflow.handler env n o state) = Ok state' ->
    cursor_in_range state ->
    (n <> Workflow.generate_answer -> n <> Workflow.fallback ->
     cursor_in_range state' /\ (cursor_on_step state -> cursor_on_step state')) /\
    (n = Workflow.fallback ->
     (forall first rest, o_fallback o = FallbackResult (first :: rest) ->
                         0 <= first <= len state) ->
     cursor_in_range state') /\
    (n = Workflow.generate_answer ->
     current_step_index state' = current_step_index state).
Proof.
  intros env n o state state' H Hin.
  assert (Hk : forall s', keeps_cursor state s' ->
                cursor_in_range s' /\ (cursor_on_step state -> cursor_on_step s')).
  { intros s' Hs. destruct (keeps_cursor_in_range _ _ Hs). auto. }
  destruct n; cbn [Workflow.handler] in H;
    (split; [intros Hg Hf|split; [intros Hf Hflag|intros Hg]]);
    try congruence; try discriminate.
  - apply Hk. eapply detect_user_intent_keeps_cursor; eauto.
  - apply Hk. eapply check_ableton_version_keeps_cursor; eauto.
  - cbn in H. injection H as <-. apply Hk, wait_for_version_choice_keeps_cursor.
  - apply Hk. eapply retrieve_from_vectorstore_keeps_cursor; eauto.
  - eapply generate_full_answer_keeps_index; eauto.
  - cbn in H. injection H as <-. apply Hk, wait_for_user_step_choice_keeps_cursor.
  - cbn in H. injection H as <-.
    destruct (step_agent_start_cursor state) as (Hl & He & Hn).
    unfold cursor_in_range, cursor_on_step in *. rewrite Hl.
    destruct (steps state) eqn:E.
    + rewrite He by reflexivity. tauto.
    + rewrite Hn by discriminate. unfold len in *. rewrite E in *.
      cbn [List.length] in *. lia.
  - apply Hk. eapply detect_interaction_type_keeps_cursor; eauto.
  - apply Hk. eapply analyze_screenshot_for_button_keeps_cursor; eauto.
  - apply Hk. eapply wait_user_action_keeps_cursor; eauto.
  - apply Hk. eapply optional_validate_step_keeps_cursor; eauto.
  - cbn in H. injection H as <-.
    destruct (next_step_or_finish_cursor state) as (Hl & Ha & Hs).
    unfold cursor_in_range, cursor_on_step in *. rewrite Hl.
    destruct (Z_lt_le_dec (current_step_index state) (len state - 1)) as [Hlt|Hge].
    + rewrite Ha by lia. lia.
    + destruct (Hs Hge) as [-> _]. lia.
  - apply Hk. eapply final_confirmation_keeps_cursor; eauto.
  - destruct (fallback_review_steps_cursor _ _ _ _ H) as [Hs|(first & rest & Hr & Hl & Hi)].
    + apply Hk, Hs.
    + unfold cursor_in_range. rewrite Hl, Hi. eapply Hflag, Hr.
Qed.

Lemma cursor_bounds_after_stage_witness :
  cursor_in_range (next_step_or_finish guided_state) /\
  cursor_on_step (next_step_or_finish guided_state).
Proof.
  assert (Hin : cursor_in_range guided_state) by (unfold cursor_in_range; cbn; lia).
  assert (Hon : cursor_on_step guided_state) by (unfold cursor_on_step; cbn; lia).
  destruct (cursor_bounds_after_stage env_with_client Workflow.next_step
              (bare_script 0) guided_state (next_step_or_finish guided_state)
              eq_refl Hin) as (H & _ & _).
  destruct H as [H1 H2]; [discriminate|discriminate|].
  split; [exact H1|exact (H2 Hon)].
Defined.

(** ** C5: skipping a step *)

Import Main.

(** The session as [step] stores the request in it. *)
Definition with_request (session : AgentState) (user_action : string)
    (request_screenshot : option string) : AgentState :=
  let session := set_user_choice session (Some user_action) in
  if truthy_opt request_screenshot
  then set_screenshot_url session request_screenshot else session.

(** The state [step] hands to the stages. *)
Definition stage_input (session : AgentState) (user_action : string)
    (request_screenshot : option string) : AgentState :=
  set_response_text
    (set_user_choice (set_mode (with_request session user_action request_screenshot)
                               step_by_step)
                     (Some user_action))
    None.

Lemma with_request_cursor session d shot :
  steps (with_request session d shot) = steps session /\
  current_step_index (with_request session d shot) = current_step_index session /\
  action_required (with_request session d shot) = action_required session /\
  user_query (with_request session d shot) = user_query session.
Proof. unfold with_request. destruct (truthy_opt shot); repeat split. Qed.

(** [step] on a decision that is not a cancellation, with the cursor on a
    step. *)
Lemma step_unfold env o session d shot :
  cursor_on_step session ->
  contains "cancel" (lower d) = false ->
  step env o session d shot =
  try_ (with_request session d shot)
    (run_decision env o (stage_input session d shot) d)
    (fun result =>
       match action_required result with
       | Some WaitTaskCompletionChoice => answer_completion env o result d
       | _ => present_next env o result (current_step_index session)
       end).
Proof.
  intros Hon Hc. unfold step. fold (with_request session d shot).
  destruct (with_request_cursor session d shot) as (Hs & Hi & _ & _).
  rewrite Hs, Hi.
  replace (Z.of_nat (List.length (steps session)) <=? current_step_index session)
    with false by (symmetry; apply Z.leb_gt; apply Hon).
  destruct (current_step_ok (with_request session d shot)) as [s Hcs].
  { unfold cursor_on_step, len. rewrite Hs, Hi. exact Hon. }
  rewrite Hcs, Hc. reflexivity.
Qed.

Lemma detect_interaction_type_trace env reply state :
  ~ In CallValidate (trace (detect_interaction_type env reply state)).
Proof.
  unfold detect_interaction_type.
  destruct (no_current_step state); cbv iota; [cbn; tauto|].
  rewrite trace_bind_lift. destruct (current_step state); [|cbn; tauto].
  destruct (client env); cbn [negb]; [|cbn; tauto].
  rewrite trace_bind_call. destruct reply; cbn; intros [H|[]]; discriminate H.
Qed.

Lemma final_confirmation_trace env state :
  trace (Nodes.final_confirmation env state) = [].
Proof.
  unfold Nodes.final_confirmation.
  destruct (no_current_step state); cbn [negb]; [reflexivity|].
  rewrite trace_bind_lift. destruct (current_step state); reflexivity.
Qed.

Lemma try_trace {A B} session (m : M A) (k : A -> Turn B) :
  fst (try_ session m k) =
  (trace m ++ match outcome m with Ok a => fst (k a) | Raised _ => [] end)%list.
Proof.
  unfold try_, trace, outcome. destruct m as [t [a|e]]; cbn.
  - destruct (k a). reflexivity.
  - now rewrite app_nil_r.
Qed.

Lemma try_lift {A B} session (r : Res A) (k : A -> Turn B) :
  try_ session (lift r) k =
  match r with Ok a => k a | Raised _ => ([], (session, HttpError 500)) end.
Proof. unfold try_, lift. destruct r as [a|e]; [destruct (k a) as [t x]|]; reflexivity. Qed.

Lemma try_ret {A B} session (a : A) (k : A -> Turn B) :
  try_ session (ret a) k = k a.
Proof. unfold try_, ret. destruct (k a) as [t x]. reflexivity. Qed.

(** Presenting the next step makes no validation call. *)
Lemma present_next_trace env o result current_index :
  ~ In CallValidate (fst (present_next env o result current_index)).
Proof.
  unfold present_next.
  match goal with |- context [if ?c then current_index + 1 else _] => destruct c end.
  all: match goal with |- context [if ?c then try_ _ _ _ else _] => destruct c end.
  all: try (rewrite try_trace, final_confirmation_trace;
            destruct (outcome _); cbn; tauto).
  all: match goal with |- context [if ?c then try_ _ _ _ else _] => destruct c end.
  all: try (cbn; tauto).
  all: rewrite try_trace; intros H; apply in_app_or in H; destruct H as [H|H];
    [now apply detect_interaction_type_trace in H|];
    destruct (outcome _); [|destruct H]; rewrite try_lift in H;
    destruct (current_step _); [|destruct H]; rewrite try_lift in H;
    destruct (step_response _ _ _ _ _); destruct H.
Qed.

Lemma answer_completion_trace env o session d :
  ~ In CallValidate (fst (answer_completion env o session d)).
Proof.
  unfold answer_completion.
  destruct (any_in yes_keywords (lower d)); [cbn; tauto|].
  destruct (any_in no_keywords (lower d)).
  - rewrite try_lift. destruct (first_step _); [|cbn; tauto].
    rewrite try_trace. intros H; apply in_app_or in H; destruct H as [H|H];
      [now apply detect_interaction_type_trace in H|].
    destruct (outcome _); [|destruct H]. rewrite try_lift in H.
    destruct (first_step _); [|destruct H]. rewrite try_lift in H.
    destruct (step_response _ _ _ _ _); destruct H.
  - rewrite try_lift. destruct (last_step _); cbn; tauto.
Qed.

Lemma try_ok {A B} session (m : M A) (k : A -> Turn B) a :
  outcome m = Ok a -> snd (try_ session m k) = snd (k a).
Proof.
  unfold try_, outcome. destruct m as [t r]. cbn. intros ->.
  destruct (k a). reflexivity.
Qed.

Lemma detect_interaction_type_returns env reply state :
  cursor_on_step state ->
  exists state', outcome (detect_interaction_type env reply state) = Ok state'.
Proof.
  intros Hon. unfold detect_interaction_type.
  destruct (no_current_step state); cbv iota; [eexists; reflexivity|].
  destruct (current_step_ok state Hon) as [s Hs].
  rewrite outcome_bind_lift, Hs.
  destruct (client env); cbn [negb]; [|eexists; reflexivity].
  rewrite outcome_bind_call. destruct reply; eexists; reflexivity.
Qed.

Lemma final_confirmation_returns env state :
  cursor_on_step state ->
  exists state', outcome (Nodes.final_confirmation env state) = Ok state'.
Proof.
  intros Hon. apply final_confirmation_returns_nonneg, Hon.
Qed.

Lemma keeps_cursor_on_step state state' :
  keeps_cursor state state' -> cursor_on_step state -> cursor_on_step state'.
Proof. intros Hk. apply keeps_cursor_in_range, Hk. Qed.

(** [detect_interaction_type] stores [None] as [requires_click] of the
    current step: the client exists and the model answered
    [{"requires_click": null}]. *)
Definition stores_null (env : Env) (reply : InteractionReply) : bool :=
  client env
  && match reply with InteractionResult Null => true | _ => false end.

Lemma nth_error_update_nth {A} (l : list A) (n : nat) (f : A -> A) :
  nth_error (PyList.update_nth l n f) n = option_map f (nth_error l n).
Proof.
  revert n. induction l as [|x l IH]; intros [|n]; cbn; try reflexivity. apply IH.
Qed.

Lemma current_step_update state (f : Step -> Step) s :
  cursor_on_step state -> current_step state = Ok s ->
  current_step (update_current_step state f) = Ok (f s).
Proof.
  intros [H0 H1]. unfold current_step, update_current_step, PyList.update,
    PyList.index, PyList.position.
  cbn [steps current_step_index set_steps]. rewrite length_update_nth.
  fold (len state).
  replace ((0 <=? current_step_index state) && (current_step_index state <? len state))
    with true
    by (symmetry; apply andb_true_iff; split; [apply Z.leb_le|apply Z.ltb_lt]; lia).
  replace (0 <=? current_step_index state) with true by (symmetry; apply Z.leb_le; lia).
  rewrite nth_error_update_nth.
  destruct (nth_error (steps state) _); [|discriminate]. now intros [= ->].
Qed.

(** What [detect_interaction_type] leaves as [requires_click] of the step
    under the cursor. *)
Lemma detect_interaction_type_stores env reply state state' s :
  cursor_on_step state ->
  outcome (detect_interaction_type env reply state) = Ok state' ->
  current_step state' = Ok s ->
  requires_click s = if stores_null env reply then None else Some (clicks s).
Proof.
  intros Hon. destruct (current_step_ok state Hon) as [cur Hcur].
  unfold detect_interaction_type, stores_null.
  replace (no_current_step state) with false.
  2:{ symmetry. unfold no_current_step. destruct (steps state) eqn:E.
      - unfold cursor_on_step, len in Hon. rewrite E in Hon. cbn in Hon. lia.
      - apply Z.leb_gt. apply Hon. }
  rewrite outcome_bind_lift, Hcur.
  destruct (client env); cbn [negb andb].
  - rewrite outcome_bind_call. destruct reply as [|[| |b]]; cbn [outcome ret fst snd];
      intros [= <-]; rewrite (current_step_update _ _ _ Hon Hcur);
      intros [= <-]; reflexivity.
  - cbn [outcome ret fst snd]. intros [= <-].
    rewrite (current_step_update _ _ _ Hon Hcur). intros [= <-]. reflexivity.
Qed.

(** Presenting the step [new_index] that the advance has reached: the
    session keeps that cursor, and the response carries it unless the
    interaction analysis of a step that is not the last stored a [null],
    which the response model refuses (status 500). *)
Lemma present_next_advanced env o result current_index :
  cursor_on_step result ->
  current_step_index result <> current_index ->
  let turn := present_next env o result current_index in
  keeps_cursor result (fst (snd turn)) /\
  (stores_null env (o_interaction o) = false \/
   current_step_index result = len result - 1 ->
   exists r, snd (snd turn) = HttpOk r /\ step_index r = current_step_index result) /\
  (stores_null env (o_interaction o) = true ->
   current_step_index result <> len result - 1 ->
   snd (snd turn) = HttpError 500).
Proof.
  intros Hon Hne. unfold present_next.
  replace (current_step_index result =? current_index) with false
    by (symmetry; apply Z.eqb_neq; exact Hne).
  cbn [andb]. cbv iota. fold (len result).
  destruct (current_step_index result =? len result - 1) eqn:Hlast.
  - destruct (final_confirmation_returns env result Hon) as [r' Hr'].
    rewrite (try_ok _ _ _ _ Hr'). cbn [fst snd done].
    split; [eapply final_confirmation_keeps_cursor; eauto|].
    split; [intros _; eexists; split; reflexivity|].
    intros _ Hn. apply Z.eqb_eq in Hlast. contradiction.
  - replace ((current_step_index result <? len result) && (0 <=? current_step_index result))
      with true
      by (symmetry; apply andb_true_iff; split;
          [apply Z.ltb_lt|apply Z.leb_le]; apply Hon).
    destruct (detect_interaction_type_returns env (o_interaction o) result Hon) as [r' Hr'].
    rewrite (try_ok _ _ _ _ Hr').
    pose proof (detect_interaction_type_keeps_cursor _ _ _ _ Hr') as Hk.
    destruct (current_step_ok r' (keeps_cursor_on_step _ _ Hk Hon)) as [s Hs].
    pose proof (detect_interaction_type_stores _ _ _ _ _ Hon Hr' Hs) as Hrc.
    rewrite try_lift, Hs, try_lift. unfold step_response. rewrite Hrc.
    apply Z.eqb_neq in Hlast.
    destruct (stores_null env (o_interaction o)); cbn [fst snd done].
    + split; [exact Hk|]. split; [|reflexivity].
      intros [H|H]; [discriminate H|contradiction].
    + split; [exact Hk|]. split; [|discriminate].
      intros _. eexists. split; reflexivity.
Qed.

Lemma stage_input_fields session d shot :
  steps (stage_input session d shot) = steps session /\
  current_step_index (stage_input session d shot) = current_step_index session /\
  action_required (stage_input session d shot) = action_required session /\
  user_query (stage_input session d shot) = user_query session.
Proof. unfold stage_input, with_request. destruct (truthy_opt shot); repeat split. Qed.

Lemma next_step_or_finish_action state :
  0 <= current_step_index state < len state - 1 ->
  action_required (next_step_or_finish state) = action_required state.
Proof.
  intros H. unfold next_step_or_finish, len in *.
  destruct (steps state); [cbn in H; lia|].
  replace (current_step_index state <? _) with true
    by (symmetry; apply Z.ltb_lt; apply H).
  reflexivity.
Qed.

(** C5 (counterexample).  At step 2 of 3 the decision "skip it or cancel"
    contains "skip", yet the cursor stays and the task is cancelled: the
    edge after [wait_action] and [/step] both test "cancel" first.  At the
    last step the decision "skip, done" is read as the answer to the
    completion question and ends the task. *)
Lemma skip_with_cancel_does_not_advance :
  (let turn := step env_with_client (bare_script 0) guided_state "skip it or cancel" None in
   contains "skip" (lower "skip it or cancel") = true /\
   current_step_index guided_state = 1 /\
   current_step_index (fst (snd turn)) = 1 /\
   option_map step_text
     (match snd (snd turn) with HttpOk r => Some r | HttpError _ => None end)
   = Some "Task cancelled." /\
   Workflow.should_continue_after_user_action
     (set_user_choice guided_state (Some "skip it or cancel")) = Workflow.END) /\
  (let last := set_current_step_index guided_state 2 in
   let turn := step env_with_client (bare_script 0) last "skip, done" None in
   action_required (fst (snd turn)) = None /\
   option_map step_action_required
     (match snd (snd turn) with HttpOk r => Some r | HttpError _ => None end)
   = Some None).
Proof. vm_compute. repeat split. Qed.

(** [str.lower] folds U+212A KELVIN SIGN to the letter k: a decision
    spelt with it holds the word "skip" once lowered. *)
Example lower_folds_the_kelvin_sign :
  let kelvin := String (ascii_of_nat 226) (String (ascii_of_nat 132)
                  (String (ascii_of_nat 170) EmptyString)) in
  lower ("S" ++ kelvin ++ "IP") = "skip" /\
  contains "skip" (lower ("s" ++ kelvin ++ "ip")) = true.
Proof. vm_compute. split; reflexivity. Qed.

(** A reply of the interaction analysis whose [requires_click] is null. *)
Definition null_script : Oracle :=
  {| o_intent := IntentContent (Some "ableton_question");
     o_embedding := [];
     o_version := VersionRaise;
     o_generate := GenResult Absent [];
     o_interaction := InteractionResult Null;
     o_locate := LocNoJson;
     o_validate := ValNoJson;
     o_fallback := FallbackRaise |}.

(** At step 1 of 3 the decision "skip" moves the cursor to step 2, the
    analysis of that step stores the null, and the response model refuses
    it: the request is answered with the status 500, the session keeping
    the advanced cursor and the null. *)
Example skip_answers_500_on_null_analysis :
  let session := set_current_step_index guided_state 0 in
  let turn := step env_with_client null_script session "skip" None in
  snd (snd turn) = HttpError 500 /\
  current_step_index (fst (snd turn)) = 1 /\
  option_map requires_click (PyList.index (steps (fst (snd turn))) 1) = Some None.
Proof. vm_compute. repeat split. Qed.

(** C5 (amended).  In a session awaiting the user action at step [i], a
    decision that contains "skip" and does not contain "cancel" is routed
    to [next_step], and [/step] handles it without any validation call.
    Below the last step the cursor becomes [i + 1].  The response then
    presents that step, with one exception: when step [i + 1] is not the
    last one, a client is configured and the interaction analysis of that
    step answers a null [requires_click], the null is stored in the step,
    the response model refuses it and the request is answered with the
    status 500, the cursor being advanced all the same.  At the last step
    the advance leaves the cursor at [i] and marks the session as awaiting
    the completion answer; [/step] then asks the completion question,
    provided the decision holds none of the completion keywords. *)
Theorem skip_advances_without_validation :
  forall env o session d shot,
    action_required session = Some WaitUserAction ->
    cursor_on_step session ->
    contains "skip" (lower d) = true ->
    contains "cancel" (lower d) = false ->
    let i := current_step_index session in
    let turn := step env o session d shot in
    let session' := fst (snd turn) in
    Workflow.should_continue_after_user_action (set_user_choice session (Some d))
      = Some Workflow.next_step /\
    ~ In CallValidate (fst turn) /\
    (i < len session - 1 ->
     len session' = len session /\
     current_step_index session' = i + 1 /\
     (stores_null env (o_interaction o) = false \/ i + 1 = len session - 1 ->
      exists r, snd (snd turn) = HttpOk r /\ step_index r = i + 1) /\
     (stores_null env (o_interaction o) = true -> i + 1 < len session - 1 ->
      snd (snd turn) = HttpError 500)) /\
    (i = len session - 1 ->
     let advanced := next_step_or_finish (stage_input session d shot) in
     current_step_index advanced = i /\
     action_required advanced = Some WaitTaskCompletionChoice /\
     (any_in yes_keywords (lower d) = false ->
      any_in no_keywords (lower d) = false ->
      current_step_index session' = i /\
      action_required session' = Some WaitTaskCompletionChoice /\
      exists r, snd (snd turn) = HttpOk r /\
                step_action_required r = Some WaitTaskCompletionChoice)).
Proof.
  intros env o session d shot Hact Hon Hskip Hcancel i turn session'.
  subst turn session'. rewrite (step_unfold env o session d shot Hon Hcancel).
  unfold run_decision. rewrite Hskip, try_ret.
  destruct (stage_input_fields session d shot) as (Hs & Hi & Ha & Hq).
  set (state0 := stage_input session d shot) in *.
  assert (Hlen : len state0 = len session) by (unfold len; now rewrite Hs).
  destruct (next_step_or_finish_cursor state0) as (Hl & Hadv & Hstay).
  split.
  { unfold Workflow.should_continue_after_user_action, Workflow.choice. cbn.
    now rewrite Hcancel, Hskip. }
  split.
  { destruct (action_required (next_step_or_finish state0)) as [[| | |]|];
      first [apply present_next_trace|apply answer_completion_trace]. }
  split.
  - intros Hlt.
    assert (Hrange : 0 <= current_step_index state0 < len state0 - 1).
    { rewrite Hi, Hlen. unfold cursor_on_step in Hon. subst i. lia. }
    rewrite (next_step_or_finish_action state0 Hrange), Ha, Hact.
    specialize (Hadv Hrange).
    destruct (present_next_advanced env o (next_step_or_finish state0)
                (current_step_index session)) as ([Hk1 Hk2] & Hok & Hfail).
    { unfold cursor_on_step. rewrite Hl, Hadv. lia. }
    { rewrite Hadv, Hi. lia. }
    rewrite Hk1, Hk2, Hl, Hadv, Hi, Hlen in *. subst i.
    split; [reflexivity|]. split; [reflexivity|]. split.
    + intros Hcase. apply Hok. exact Hcase.
    + intros Hnull Hnot. apply Hfail; [exact Hnull|lia].
  - intros Hlast. cbv zeta.
    assert (Hge : len state0 - 1 <= current_step_index state0)
      by (rewrite Hi, Hlen; subst i; lia).
    destruct (Hstay Hge) as [Hc Hw].
    split; [now rewrite Hc, Hi|]. split; [exact Hw|].
    intros Hy Hn. rewrite Hw. unfold answer_completion. rewrite Hy, Hn.
    assert (Hlastok : exists s, last_step (steps (next_step_or_finish state0)) = Ok s).
    { unfold last_step, PyList.last_opt, PyList.index.
      fold (len (next_step_or_finish state0)). rewrite Hl, Hlen.
      assert (0 < len session) by (unfold cursor_on_step in Hon; lia).
      replace ((0 <=? -1) && (-1 <? len session)) with false by reflexivity.
      replace ((- len session <=? -1) && (-1 <? 0)) with true
        by (symmetry; apply andb_true_iff; split; [apply Z.leb_le; lia|reflexivity]).
      destruct (nth_error _ _) eqn:E; [eauto|].
      apply nth_error_None in E. fold (len (next_step_or_finish state0)) in E.
      unfold len in *. lia. }
    destruct Hlastok as [s Hsl]. rewrite try_lift, Hsl. cbn.
    rewrite Hc, Hi. repeat split; eauto.
Qed.

Lemma skip_advances_without_validation_witness :
  ~ In CallValidate (fst (step env_with_client (bare_script 0) guided_state "skip" None)) /\
  current_step_index
    (fst (snd (step env_with_client (bare_script 0) guided_state "skip" None))) = 2.
Proof.
  assert (Hon : cursor_on_step guided_state) by (unfold cursor_on_step; cbn; lia).
  destruct (skip_advances_without_validation env_with_client (bare_script 0)
              guided_state "skip" None eq_refl Hon eq_refl eq_refl)
    as (_ & Ht & Hadv & _).
  split; [exact Ht|].
  destruct Hadv as (_ & Hi & _); [cbn; lia|exact Hi].
Defined.

(** ** C7: the answer to the completion question *)

(** The session once the last of the three steps has been presented with
    the completion question. *)
Definition confirming_state : AgentState :=
  set_action_required (set_current_step_index guided_state 2)
                      (Some WaitTaskCompletionChoice).

(** C7 (the code departs from the claim).  "not solved" is one of the
    negative keywords of [/step], yet it contains the affirmative keyword
    "solved", which is tested first: the decision is answered with the
    success message, the cursor stays on the last step and the session
    stops awaiting input, instead of restarting at step 1. *)
Theorem not_solved_is_taken_for_success :
    let turn := step env_with_client (bare_script 0) confirming_state
                     "not solved" None in
    In "not solved" no_keywords /\
    any_in yes_keywords (lower "not solved") = true /\
    current_step_index (fst (snd turn)) = 2 /\
    action_required (fst (snd turn)) = None /\
    snd (snd turn) =
      HttpOk {| step_text :=
                  "Great! Task completed. If you need help with anything else, just ask!";
                step_index := 2;
                total_steps := 3;
                step_requires_click := false;
                step_button_coords := None;
                step_action_required := None |} /\
    Workflow.should_continue_after_final_confirmation
      (set_user_choice confirming_state (Some "not solved")) = Workflow.END.
Proof.
  cbv zeta. split; [cbn; tauto|]. vm_compute. repeat split.
Qed.

Lemma optional_validate_step_steps env reply state state' :
  outcome (optional_validate_step env reply state) = Ok state' ->
  steps state' = steps state /\ action_required state' = action_required state /\
  user_query state' = user_query state.
Proof. unfold optional_validate_step. intros H. peel H; repeat split. Qed.

Lemma optional_validate_step_returns env reply state :
  cursor_on_step state ->
  exists state', outcome (optional_validate_step env reply state) = Ok state'.
Proof.
  intros Hon. unfold optional_validate_step.
  destruct (len state <=? current_step_index state); [eexists; reflexivity|].
  destruct (current_step_ok state Hon) as [s Hs].
  rewrite outcome_bind_lift, Hs.
  destruct (contains _ _); [eexists; reflexivity|].
  destruct (negb (clicks s)); [eexists; reflexivity|].
  destruct (_ || _); [eexists; reflexivity|].
  destruct reply as [| | | |[] e]; rewrite ?outcome_bind_call; eexists; reflexivity.
Qed.

Lemma next_step_or_finish_steps state :
  steps (next_step_or_finish state) = steps state /\
  user_query (next_step_or_finish state) = user_query state.
Proof.
  unfold next_step_or_finish. destruct (steps state) eqn:E;
    [|destruct (_ <? _)]; cbn; rewrite ?E; split; reflexivity.
Qed.

Lemma next_step_or_finish_awaiting_completion state :
  action_required state = Some WaitTaskCompletionChoice ->
  action_required (next_step_or_finish state) = Some WaitTaskCompletionChoice.
Proof.
  intros H. unfold next_step_or_finish. destruct (steps state);
    [|destruct (_ <? _)]; cbn; auto.
Qed.

Lemma detect_interaction_type_texts env reply state state' :
  outcome (detect_interaction_type env reply state) = Ok state' ->
  map text (steps state') = map text (steps state).
Proof.
  assert (Hu : forall l n v, map text (PyList.update_nth l n (set_step_requires_click v))
                             = map text l).
  { induction l as [|x l IH]; intros [|n] v; cbn; try reflexivity. now rewrite IH. }
  unfold detect_interaction_type. intros H.
  peel H; unfold update_current_step, PyList.update; cbn; auto.
Qed.

(** The restart that the code performs by design: a decision holding a
    negative keyword and no affirmative one, with a session awaiting the
    completion answer, puts the cursor back on the first step and
    presents "Step 1 of n:" followed by the text of that step, which no
    stage has changed (the interaction analysis of that step not
    answering [null]). *)
Lemma plain_negative_restarts_delivery :
  forall env o session d shot first rest,
    stores_null env (o_interaction o) = false ->
    action_required session = Some WaitTaskCompletionChoice ->
    cursor_on_step session ->
    steps session = first :: rest ->
    contains "cancel" (lower d) = false ->
    any_in yes_keywords (lower d) = false ->
    any_in no_keywords (lower d) = true ->
    let turn := step env o session d shot in
    current_step_index (fst (snd turn)) = 0 /\
    map text (steps (fst (snd turn))) = map text (steps session) /\
    exists r, snd (snd turn) = HttpOk r /\
              step_index r = 0 /\
              step_text r = (step_header 1 (len session) ++ nl ++ text_fmt first)%string.
Proof.
  intros env o session d shot first rest Hnull Hact Hon Hsteps Hcancel Hy Hn. cbv zeta.
  rewrite (step_unfold env o session d shot Hon Hcancel).
  destruct (stage_input_fields session d shot) as (Hs & Hi & Ha & Hq).
  set (state0 := stage_input session d shot) in *.
  assert (Hon0 : cursor_on_step state0).
  { unfold cursor_on_step, len. rewrite Hs, Hi. exact Hon. }
  assert (Hrun : exists result,
             outcome (run_decision env o state0 d) = Ok result /\
             steps result = steps session /\
             action_required result = Some WaitTaskCompletionChoice).
  { unfold run_decision. destruct (contains "skip" (lower d)).
    - eexists. split; [reflexivity|].
      destruct (next_step_or_finish_steps state0) as [-> _].
      split; [exact Hs|]. apply next_step_or_finish_awaiting_completion. congruence.
    - destruct (optional_validate_step_returns env (o_validate o) state0 Hon0) as [v Hv].
      destruct (optional_validate_step_steps _ _ _ _ Hv) as (Hvs & Hva & _).
      exists (next_step_or_finish v). split.
      + unfold outcome, bind in *. destruct (optional_validate_step _ _ _) as [t r].
        cbn in Hv. subst r. reflexivity.
      + destruct (next_step_or_finish_steps v) as [-> _].
        split; [congruence|]. apply next_step_or_finish_awaiting_completion. congruence. }
  destruct Hrun as (result & Hrun & Hrs & Hra).
  rewrite !(try_ok _ _ _ _ Hrun), Hra. unfold answer_completion. rewrite Hy, Hn, Hrs, Hsteps.
  rewrite try_lift. cbn [first_step PyList.index List.length].
  set (restart := set_action_required (set_current_step_index result 0)
                                      (Some WaitUserAction)).
  assert (Honr : cursor_on_step (set_current_step_index restart 0)).
  { unfold cursor_on_step, len. cbn [steps current_step_index set_current_step_index
                                      set_action_required restart].
    rewrite Hrs, Hsteps. cbn [List.length]. lia. }
  destruct (detect_interaction_type_returns env (o_interaction o) _ Honr) as [r' Hr'].
  pose proof (detect_interaction_type_keeps_cursor _ _ _ _ Hr') as [Hkl Hki].
  pose proof (detect_interaction_type_texts _ _ _ _ Hr') as Htexts.
  cbn [steps set_current_step_index set_action_required restart] in Htexts.
  rewrite Hrs, Hsteps in Htexts.
  cbn -[step_header]. rewrite !(try_ok _ _ _ _ Hr').
  destruct (steps r') as [|f' rest'] eqn:Er'; [discriminate Htexts|].
  assert (Hcs : current_step r' = Ok f').
  { unfold current_step. rewrite Hki, Er'. reflexivity. }
  pose proof (detect_interaction_type_stores _ _ _ _ _ Honr Hr' Hcs) as Hrc.
  rewrite Hnull in Hrc.
  cbn -[step_header step_response]. unfold step_response.
  rewrite Hrc. cbn -[step_header].
  split; [exact Hki|]. split; [rewrite Er'; exact Htexts|].
  eexists. split; [reflexivity|]. split; [reflexivity|].
  cbn -[step_header]. unfold len. rewrite Hsteps. reflexivity.
Qed.

(** ** Magnitudes of binary64 roots and products

    The square root of a binary64 number, when it is not zero, is at
    least [2^-537] in magnitude, and the product of two such numbers is
    at least [2^-1074], the least positive binary64 number: it does not
    round to zero. *)

Lemma digits2_pos_size p : SpecFloat.digits2_pos p = Pos.size p.
Proof. induction p; cbn; congruence. Qed.

Lemma Zdigits2_log2 m : 0 < m -> SpecFloat.Zdigits2 m = Z.log2 m + 1.
Proof.
  destruct m as [|p|p]; try lia. intros _. cbn [SpecFloat.Zdigits2].
  rewrite digits2_pos_size. destruct p; cbn; lia.
Qed.

Lemma iter_pos_nat {A} (f : A -> A) p x :
  SpecFloat.iter_pos f p x = Nat.iter (Pos.to_nat p) f x.
Proof.
  revert x. induction p as [p IH|p IH|]; intros x; cbn [SpecFloat.iter_pos].
  - rewrite !IH, Pos2Nat.inj_xI, Nat.iter_succ_r.
    replace (2 * Pos.to_nat p)%nat with (Pos.to_nat p + Pos.to_nat p)%nat by lia.
    now rewrite Nat.iter_add.
  - rewrite !IH, Pos2Nat.inj_xO.
    replace (2 * Pos.to_nat p)%nat with (Pos.to_nat p + Pos.to_nat p)%nat by lia.
    now rewrite Nat.iter_add.
  - reflexivity.
Qed.

Lemma shr_1_m r :
  0 <= SpecFloat.shr_m r ->
  SpecFloat.shr_m (SpecFloat.shr_1 r) = Z.shiftr (SpecFloat.shr_m r) 1.
Proof.
  destruct r as [m b s]. cbn [SpecFloat.shr_m]. intros H.
  rewrite <- Z.div2_spec.
  destruct m as [|[p|p|]|p]; try lia; reflexivity.
Qed.

Lemma iter_shr_1_m n r :
  0 <= SpecFloat.shr_m r ->
  SpecFloat.shr_m (Nat.iter n SpecFloat.shr_1 r)
  = Z.shiftr (SpecFloat.shr_m r) (Z.of_nat n).
Proof.
  intros H. induction n as [|n IH].
  - change (Nat.iter 0 SpecFloat.shr_1 r) with r. change (Z.of_nat 0) with 0.
    now rewrite Z.shiftr_0_r.
  - rewrite Nat.iter_succ, shr_1_m.
    + rewrite IH, Z.shiftr_shiftr by lia. f_equal. lia.
    + rewrite IH. apply Z.shiftr_nonneg. exact H.
Qed.

(** [fexp] of binary64. *)
Definition fexp64 (e : Z) : Z := Z.max (e - 53) (-1074).

Lemma fexp64_eq e : SpecFloat.fexp 53 1024 e = fexp64 e.
Proof. reflexivity. Qed.

Lemma shr_record_of_loc_m m l :
  SpecFloat.shr_m (SpecFloat.shr_record_of_loc m l) = m.
Proof. destruct l as [|[]]; reflexivity. Qed.

Lemma shr_fexp_keeps m e l :
  0 < m -> -1074 < SpecFloat.Zdigits2 m + e ->
  0 < SpecFloat.shr_m (fst (SpecFloat.shr_fexp 53 1024 m e l)) /\
  SpecFloat.Zdigits2 (SpecFloat.shr_m (fst (SpecFloat.shr_fexp 53 1024 m e l)))
  + snd (SpecFloat.shr_fexp 53 1024 m e l)
  = SpecFloat.Zdigits2 m + e.
Proof.
  intros Hm Hd. unfold SpecFloat.shr_fexp, SpecFloat.shr. rewrite fexp64_eq.
  rewrite (Zdigits2_log2 m Hm) in *.
  destruct (fexp64 (Z.log2 m + 1 + e) - e) as [|p|p] eqn:En; cbn [fst snd];
    rewrite ?shr_record_of_loc_m; try (split; [exact Hm|now rewrite Zdigits2_log2]).
  assert (Hp : Z.pos p <= Z.log2 m) by (unfold fexp64 in En; lia).
  rewrite iter_pos_nat, iter_shr_1_m by (rewrite shr_record_of_loc_m; lia).
  rewrite shr_record_of_loc_m, positive_nat_Z.
  assert (Hpos : 0 < Z.shiftr m (Z.pos p)).
  { rewrite Z.shiftr_div_pow2 by lia. apply Z.div_str_pos. split; [apply Z.pow_pos_nonneg; lia|].
    apply Z.log2_le_pow2; lia. }
  split; [exact Hpos|].
  rewrite (Zdigits2_log2 _ Hpos), Z.log2_shiftr by exact Hm. lia.
Qed.

Lemma round_nearest_even_bounds m l :
  m <= SpecFloat.round_nearest_even m l <= m + 1.
Proof. destruct l as [|[]]; cbn; try destruct (Z.even m); lia. Qed.

(** Rounding a positive mantissa whose magnitude is above the least
    subnormal gives a finite number that is not smaller in magnitude
    class, or an infinity: never zero. *)
Lemma binary_round_aux_large s m e l :
  0 < m -> -1074 < SpecFloat.Zdigits2 m + e ->
  match SpecFloat.binary_round_aux 53 1024 s m e l with
  | S754_finite _ mz ez => SpecFloat.Zdigits2 m + e <= Z.pos (SpecFloat.digits2_pos mz) + ez
  | S754_infinity _ => True
  | _ => False
  end.
Proof.
  intros Hm Hd. unfold SpecFloat.binary_round_aux.
  destruct (shr_fexp_keeps m e l Hm Hd) as [H1 H2].
  destruct (SpecFloat.shr_fexp 53 1024 m e l) as [mrs' e']. cbn [fst snd] in H1, H2.
  set (m1 := SpecFloat.round_nearest_even (SpecFloat.shr_m mrs')
               (SpecFloat.loc_of_shr_record mrs')).
  pose proof (round_nearest_even_bounds (SpecFloat.shr_m mrs')
                (SpecFloat.loc_of_shr_record mrs')) as Hr. fold m1 in Hr.
  assert (Hm1 : 0 < m1) by lia.
  assert (Hd1 : SpecFloat.Zdigits2 (SpecFloat.shr_m mrs') <= SpecFloat.Zdigits2 m1).
  { rewrite !Zdigits2_log2 by lia. pose proof (Z.log2_le_mono (SpecFloat.shr_m mrs') m1). lia. }
  destruct (shr_fexp_keeps m1 e' SpecFloat.loc_Exact Hm1 ltac:(lia)) as [H3 H4].
  destruct (SpecFloat.shr_fexp 53 1024 m1 e' SpecFloat.loc_Exact) as [mrs'' e''].
  cbn [fst snd] in H3, H4.
  destruct (SpecFloat.shr_m mrs'') as [|mz|mz]; try lia.
  destruct (e'' <=? 1024 - 53); [|exact I].
  cbn [SpecFloat.Zdigits2] in H4. lia.
Qed.

(** A number that is not zero and, when finite, is at least [2^-537] in
    magnitude; every square root that is not zero is one. *)
Definition large (x : spec_float) : Prop :=
  match x with
  | S754_zero _ => False
  | S754_finite _ m e => -536 <= Z.pos (SpecFloat.digits2_pos m) + e
  | _ => True
  end.

Definition not_zero (x : spec_float) : Prop :=
  match x with S754_zero _ => False | _ => True end.

Lemma SFmul_large x y :
  large x -> large y -> not_zero (SpecFloat.SFmul 53 1024 x y).
Proof.
  destruct x as [sx|sx| |sx mx ex], y as [sy|sy| |sy my ey]; cbn [large]; try tauto;
    intros Hx Hy; cbn [SpecFloat.SFmul not_zero]; auto.
  pose proof (binary_round_aux_large (xorb sx sy) (Z.pos (mx * my)) (ex + ey)
                SpecFloat.loc_Exact ltac:(lia)) as H.
  assert (Hd : -1074 < SpecFloat.Zdigits2 (Z.pos (mx * my)) + (ex + ey)).
  { rewrite Zdigits2_log2 by lia. rewrite Pos2Z.inj_mul.
    pose proof (Z.log2_mul_below (Z.pos mx) (Z.pos my) ltac:(lia) ltac:(lia)).
    pose proof (Zdigits2_log2 (Z.pos mx) ltac:(lia)) as Hmx.
    pose proof (Zdigits2_log2 (Z.pos my) ltac:(lia)) as Hmy.
    cbn [SpecFloat.Zdigits2] in Hmx, Hmy. lia. }
  specialize (H Hd).
  destruct (SpecFloat.binary_round_aux 53 1024 (xorb sx sy) (Z.pos (mx * my)) (ex + ey)
              SpecFloat.loc_Exact); cbn [not_zero]; auto.
Qed.

Lemma SFsqrt_large x :
  SpecFloat.valid_binary 53 1024 x = true -> not_zero x ->
  large (SpecFloat.SFsqrt 53 1024 x).
Proof.
  destruct x as [s|s| |s mx ex]; cbn [not_zero]; try tauto; intros Hv _.
  - destruct s; exact I.
  - destruct s; [exact I|]. cbn [SpecFloat.SFsqrt].
    cbn [SpecFloat.valid_binary] in Hv. unfold SpecFloat.bounded in Hv.
    apply andb_true_iff in Hv. destruct Hv as [Hc _].
    unfold SpecFloat.canonical_mantissa in Hc. apply Z.eqb_eq in Hc.
    rewrite fexp64_eq in Hc. unfold fexp64 in Hc.
    unfold SpecFloat.SFsqrt_core_binary. rewrite fexp64_eq.
    pose proof (Zdigits2_log2 (Z.pos mx) ltac:(lia)) as Hdig.
    cbn [SpecFloat.Zdigits2] in Hdig |- *.
    set (d := Z.pos (SpecFloat.digits2_pos mx)) in *.
    set (e' := Z.min (fexp64 (Z.div2 (d + ex + 1))) (Z.div2 ex)).
    assert (He' : 2 * e' <= ex).
    { assert (H : e' <= Z.div2 ex) by (unfold e'; lia). rewrite Z.div2_div in H.
      pose proof (Z.mul_div_le ex 2 ltac:(lia)). clearbody e'. lia. }
    clearbody e'.
    set (m' := match ex - 2 * e' with
               | 0 => Z.pos mx
               | Z.pos _ => Z.shiftl (Z.pos mx) (ex - 2 * e')
               | Z.neg _ => 0
               end).
    assert (Hm' : m' = Z.shiftl (Z.pos mx) (ex - 2 * e')).
    { unfold m'. destruct (ex - 2 * e') eqn:E; try lia; reflexivity. }
    assert (Hlog : Z.log2 m' = Z.log2 (Z.pos mx) + (ex - 2 * e')).
    { rewrite Hm'. apply Z.log2_shiftl; lia. }
    assert (Hm'pos : 0 < m').
    { rewrite Hm', Z.shiftl_mul_pow2 by lia.
      apply Z.mul_pos_pos; [lia|apply Z.pow_pos_nonneg; lia]. }
    destruct (Z.sqrtrem m') as [q r] eqn:Esq.
    assert (Hq : q = Z.sqrt m').
    { rewrite <- Z.sqrtrem_sqrt, Esq. reflexivity. }
    clearbody m'.
    pose proof (Z.log2_nonneg m') as Hl0.
    pose proof (Z.div_mod (Z.log2 m') 2 ltac:(lia)) as Hdm.
    pose proof (Z.mod_pos_bound (Z.log2 m') 2 ltac:(lia)) as Hmb.
    set (k := Z.log2 m' / 2) in *. clearbody k.
    assert (Hk0 : 0 <= k) by lia.
    assert (Hk : 2 ^ k <= q).
    { rewrite Hq. rewrite <- (Z.sqrt_square (2 ^ k)) by (apply Z.pow_nonneg; lia).
      apply Z.sqrt_le_mono. rewrite <- Z.pow_add_r by lia.
      transitivity (2 ^ Z.log2 m').
      - apply Z.pow_le_mono_r; lia.
      - apply Z.log2_spec. exact Hm'pos. }
    assert (Hqpos : 0 < q) by (pose proof (Z.pow_pos_nonneg 2 k); lia).
    assert (Hlq : k <= Z.log2 q) by (apply Z.log2_le_pow2; assumption).
    assert (Hbig : -536 <= SpecFloat.Zdigits2 q + e').
    { rewrite Zdigits2_log2 by exact Hqpos. lia. }
    pose proof (binary_round_aux_large false q e'
                  (if r =? 0 then SpecFloat.loc_Exact
                   else SpecFloat.loc_Inexact (if r <=? q then Lt else Gt))
                  Hqpos ltac:(lia)) as H.
    destruct (SpecFloat.binary_round_aux _ _ _ _ _ _); cbn [large]; auto. lia.
Qed.

Lemma not_zero_eqb x : not_zero (Prim2SF x) -> (x =? 0)%float = false.
Proof.
  rewrite FloatAxioms.eqb_spec. change (Prim2SF 0) with (S754_zero false).
  destruct (Prim2SF x) as [s|s| |s m e]; cbn; try tauto; destruct s; reflexivity.
Qed.

Lemma eqb_zero_not_zero x : (x =? 0)%float = false -> not_zero (Prim2SF x).
Proof.
  rewrite FloatAxioms.eqb_spec. change (Prim2SF 0) with (S754_zero false).
  destruct (Prim2SF x) as [s|s| |s m e]; cbn; auto; discriminate.
Qed.

Lemma sqrt_large x :
  (PrimFloat.sqrt x =? 0)%float = false -> large (Prim2SF (PrimFloat.sqrt x)).
Proof.
  intros H. apply eqb_zero_not_zero in H. rewrite sqrt_spec in *.
  apply SFsqrt_large; [apply Prim2SF_valid|].
  destruct (Prim2SF x); cbn in *; auto.
Qed.

(** The product of two square roots that are not zero is not zero: the
    division of [_cosine_similarity] never has a zero divisor. *)
Lemma product_of_magnitudes_not_zero x y :
  (PrimFloat.sqrt x =? 0)%float = false ->
  (PrimFloat.sqrt y =? 0)%float = false ->
  (PrimFloat.sqrt x * PrimFloat.sqrt y =? 0)%float = false.
Proof.
  intros Hx Hy. apply not_zero_eqb. rewrite mul_spec.
  apply SFmul_large; apply sqrt_large; assumption.
Qed.

(** ** Floating point *)

Local Open Scope float_scope.

(** *** Signs *)

Definition not_negative (s : spec_float) : Prop :=
  match s with
  | S754_finite true _ _ => False
  | S754_infinity true => False
  | _ => True
  end.

Lemma binary_round_aux_sign prec emax m e l :
  not_negative (SpecFloat.binary_round_aux prec emax false m e l).
Proof.
  unfold SpecFloat.binary_round_aux.
  destruct (SpecFloat.shr_fexp prec emax m e l) as [mrs e'].
  destruct (SpecFloat.shr_fexp prec emax _ e' _) as [mrs' e''].
  destruct (SpecFloat.shr_m mrs'); cbn; auto.
  destruct (_ <=? _)%Z; cbn; auto.
Qed.

Lemma square_not_negative a : not_negative (Prim2SF (a * a)).
Proof.
  rewrite mul_spec. destruct (Prim2SF a) as [s|s| |s m e]; cbn; auto.
  - destruct s; cbn; auto.
  - destruct s; cbn; apply binary_round_aux_sign.
Qed.

Lemma add_not_negative x y :
  not_negative (Prim2SF x) -> not_negative (Prim2SF y) ->
  not_negative (Prim2SF (x + y)).
Proof.
  rewrite add_spec.
  destruct (Prim2SF x) as [sx|sx| |sx mx ex], (Prim2SF y) as [sy|sy| |sy my ey];
    cbn; try tauto; try (destruct sx, sy; cbn; tauto).
  destruct sx, sy; cbn; try tauto. intros _ _.
  unfold SpecFloat.binary_round.
  destruct (SpecFloat.shl_align _ _ _). apply binary_round_aux_sign.
Qed.

Lemma not_negative_ltb x : not_negative (Prim2SF x) -> (x <? 0) = false.
Proof.
  rewrite ltb_spec. change (Prim2SF 0) with (S754_zero false).
  destruct (Prim2SF x) as [s|s| |s m e]; cbn; auto; destruct s; cbn; tauto.
Qed.

Lemma fold_add_not_negative l acc :
  not_negative (Prim2SF acc) ->
  Forall (fun x => not_negative (Prim2SF x)) l ->
  not_negative (Prim2SF (fold_left PrimFloat.add l acc)).
Proof.
  revert acc. induction l as [|x l IH]; intros acc Ha Hl; cbn; auto.
  inversion Hl; subst. apply IH; auto. apply add_not_negative; auto.
Qed.

Lemma sum_of_squares_not_negative l :
  (Rag.fsum (map (fun a => a * a) l) <? 0) = false.
Proof.
  apply not_negative_ltb, fold_add_not_negative.
  - change (Prim2SF 0) with (S754_zero false). exact I.
  - apply Forall_forall. intros x Hx. apply in_map_iff in Hx.
    destruct Hx as (a & <- & _). apply square_not_negative.
Qed.

Lemma sum_of_squares_sign l :
  not_negative (Prim2SF (Rag.fsum (map (fun a => a * a) l))).
Proof.
  apply fold_add_not_negative.
  - change (Prim2SF 0) with (S754_zero false). exact I.
  - apply Forall_forall. intros x Hx. apply in_map_iff in Hx.
    destruct Hx as (a & <- & _). apply square_not_negative.
Qed.

Lemma sqrt_not_negative x : not_negative (Prim2SF (PrimFloat.sqrt x)).
Proof.
  rewrite sqrt_spec. destruct (Prim2SF x) as [s|s| |s m e]; cbn; auto.
  - destruct s; cbn; auto.
  - destruct s; cbn; auto.
    destruct (SpecFloat.SFsqrt_core_binary _ _ _ _) as [[mz ez] lz].
    apply binary_round_aux_sign.
Qed.

Lemma mul_not_negative x y :
  not_negative (Prim2SF x) -> not_negative (Prim2SF y) ->
  not_negative (Prim2SF (x * y)).
Proof.
  rewrite mul_spec.
  destruct (Prim2SF x) as [sx|sx| |sx mx ex], (Prim2SF y) as [sy|sy| |sy my ey];
    cbn; try tauto; destruct sx, sy; cbn; try tauto.
  intros _ _. apply binary_round_aux_sign.
Qed.

(** A quotient of numbers that are not negative, the divisor not being a
    zero, is not negative (it may be NaN). *)
Lemma div_not_negative x y :
  not_negative (Prim2SF x) -> not_negative (Prim2SF y) -> not_zero (Prim2SF y) ->
  not_negative (Prim2SF (x / y)).
Proof.
  rewrite div_spec.
  destruct (Prim2SF x) as [sx|sx| |sx mx ex], (Prim2SF y) as [sy|sy| |sy my ey];
    cbn; try tauto; destruct sx, sy; cbn; try tauto.
  intros _ _ _.
  destruct (SpecFloat.SFdiv_core_binary _ _ _ _ _ _) as [[mz ez] lz].
  apply binary_round_aux_sign.
Qed.

Lemma mul_comm (x y : float) : x * y = y * x.
Proof.
  rewrite <- (SF2Prim_Prim2SF (x * y)), <- (SF2Prim_Prim2SF (y * x)).
  rewrite !mul_spec. f_equal.
  destruct (Prim2SF x) as [sx|sx| |sx mx ex], (Prim2SF y) as [sy|sy| |sy my ey];
    cbn; try reflexivity; rewrite ?(xorb_comm sx sy); try reflexivity.
  rewrite (Pos.mul_comm mx my), (Z.add_comm ex ey). reflexivity.
Qed.

(** *** Order *)

(** The order of the floats that are not NaN, read off their
    specification: a sign class, then exponent and mantissa. *)
Definition order_key (s : spec_float) : Z * Z * Z :=
  match s with
  | S754_infinity true => (-2, 0, 0)
  | S754_finite true m e => (-1, - e, Z.neg m)
  | S754_zero _ => (0, 0, 0)
  | S754_nan => (0, 0, 0)
  | S754_finite false m e => (1, e, Z.pos m)
  | S754_infinity false => (2, 0, 0)
  end%Z.

Definition key_lt (a b : Z * Z * Z) : Prop :=
  let '(a1, a2, a3) := a in
  let '(b1, b2, b3) := b in
  (a1 < b1 \/ (a1 = b1 /\ (a2 < b2 \/ (a2 = b2 /\ a3 < b3))))%Z.

Definition is_number (s : spec_float) : Prop := s <> S754_nan.

Lemma SFcompare_key a b :
  is_number a -> is_number b ->
  exists c, SFcompare a b = Some c /\
    (c = Lt <-> key_lt (order_key a) (order_key b)) /\
    (c = Eq <-> order_key a = order_key b) /\
    (c = Gt <-> key_lt (order_key b) (order_key a)).
Proof.
  unfold is_number. intros Ha Hb.
  destruct a as [sa|sa| |sa ma ea], b as [sb|sb| |sb mb eb];
    try congruence; try destruct sa; try destruct sb; cbn;
    (eexists; split; [reflexivity|]).
  all: try change (PosDef.Pos.compare_cont Eq ma mb) with (Pos.compare ma mb).
  all: try destruct (Z.compare_spec ea eb) as [He|He|He];
       try destruct (Pos.compare_spec ma mb) as [Hm|Hm|Hm]; cbn;
       repeat split; intros H; try discriminate H; try lia;
       try (injection H; intros; lia); try (f_equal; [f_equal|]; lia).
Qed.

Lemma key_lt_irrefl a : ~ key_lt a a.
Proof. destruct a as [[a1 a2] a3]. cbn. lia. Qed.

Lemma key_lt_trans a b c : key_lt a b -> key_lt b c -> key_lt a c.
Proof. destruct a as [[a1 a2] a3], b as [[b1 b2] b3], c as [[c1 c2] c3]. cbn. lia. Qed.

Lemma key_total a b : key_lt a b \/ a = b \/ key_lt b a.
Proof.
  destruct a as [[a1 a2] a3], b as [[b1 b2] b3]. cbn.
  destruct (Z.lt_total a1 b1) as [|[|]]; try lia.
  destruct (Z.lt_total a2 b2) as [|[|]]; try lia.
  destruct (Z.lt_total a3 b3) as [|[|]]; try lia.
  subst. auto.
Qed.

Definition number (x : float) : Prop := PrimFloat.is_nan x = false.

Lemma number_spec x : number x -> is_number (Prim2SF x).
Proof.
  unfold number, PrimFloat.is_nan, is_number. rewrite FloatAxioms.eqb_spec.
  intros H E. rewrite E in H. discriminate H.
Qed.

Lemma ltb_key x y :
  number x -> number y ->
  ((x <? y) = true <-> key_lt (order_key (Prim2SF x)) (order_key (Prim2SF y))).
Proof.
  intros Hx Hy. rewrite ltb_spec. unfold SFltb.
  destruct (SFcompare_key _ _ (number_spec _ Hx) (number_spec _ Hy))
    as (c & -> & Hl & He & Hg).
  destruct c; split; intros H; try discriminate H; try reflexivity;
    try (apply Hl in H; discriminate H); apply Hl; reflexivity.
Qed.

Lemma leb_key x y :
  number x -> number y ->
  ((x <=? y) = true <->
   key_lt (order_key (Prim2SF x)) (order_key (Prim2SF y))
   \/ order_key (Prim2SF x) = order_key (Prim2SF y)).
Proof.
  intros Hx Hy. rewrite leb_spec. unfold SFleb.
  destruct (SFcompare_key _ _ (number_spec _ Hx) (number_spec _ Hy))
    as (c & -> & Hl & He & Hg).
  destruct c; split; intros H; try discriminate H; try reflexivity.
  - right. apply He. reflexivity.
  - left. apply Hl. reflexivity.
  - exfalso. destruct H as [H|H]; [apply Hl in H|apply He in H]; discriminate H.
Qed.

Lemma leb_number x y : (x <=? y) = true -> number x /\ number y.
Proof.
  rewrite leb_spec. unfold number, PrimFloat.is_nan. rewrite !FloatAxioms.eqb_spec.
  unfold SFleb, SFeqb.
  destruct (Prim2SF x) as [sx|sx| |sx mx ex], (Prim2SF y) as [sy|sy| |sy my ey];
    cbn; try discriminate; intros _; split;
    try destruct sx; try destruct sy; cbn; try reflexivity;
    rewrite ?Z.compare_refl, ?Pos.compare_cont_refl; reflexivity.
Qed.

Lemma eqb_number x y : (x =? y) = true -> number x /\ number y.
Proof.
  rewrite FloatAxioms.eqb_spec. unfold number, PrimFloat.is_nan. rewrite !FloatAxioms.eqb_spec.
  unfold SFeqb.
  destruct (Prim2SF x) as [sx|sx| |sx mx ex], (Prim2SF y) as [sy|sy| |sy my ey];
    cbn; try discriminate; intros _; split;
    try destruct sx; try destruct sy; cbn; try reflexivity;
    rewrite ?Z.compare_refl, ?Pos.compare_cont_refl; reflexivity.
Qed.

Lemma eqb_key x y :
  (x =? y) = true -> order_key (Prim2SF x) = order_key (Prim2SF y).
Proof.
  intros H. destruct (eqb_number _ _ H) as [Hx Hy].
  rewrite FloatAxioms.eqb_spec in H. unfold SFeqb in H.
  destruct (SFcompare_key _ _ (number_spec _ Hx) (number_spec _ Hy))
    as (c & Hc & Hl & He & Hg).
  rewrite Hc in H. destruct c; try discriminate H. apply He. reflexivity.
Qed.

(** The three facts the sort relies on. *)
Lemma not_ltb_leb x y :
  number x -> number y -> (x <? y) = false -> (y <=? x) = true.
Proof.
  intros Hx Hy H. apply leb_key; auto.
  destruct (key_total (order_key (Prim2SF y)) (order_key (Prim2SF x))) as [|[|Hlt]]; auto.
  apply ltb_key in Hlt; auto. congruence.
Qed.

Lemma ltb_leb x y : (x <? y) = true -> (x <=? y) = true.
Proof.
  rewrite ltb_spec, leb_spec. unfold SFltb, SFleb.
  destruct (SFcompare _ _) as [[| |]|]; congruence.
Qed.

Lemma leb_trans x y z : (x <=? y) = true -> (y <=? z) = true -> (x <=? z) = true.
Proof.
  intros H1 H2. destruct (leb_number _ _ H1) as [Hx Hy].
  destruct (leb_number _ _ H2) as [_ Hz].
  apply leb_key in H1; auto. apply leb_key in H2; auto. apply leb_key; auto.
  destruct H1 as [H1|H1], H2 as [H2|H2].
  - left. eapply key_lt_trans; eauto.
  - left. congruence.
  - left. congruence.
  - right. congruence.
Qed.

Lemma eqb_not_ltb x y s : (x =? s) = true -> (y =? s) = true -> (x <? y) = false.
Proof.
  intros Hx Hy.
  destruct (eqb_number _ _ Hx) as [Nx _]. destruct (eqb_number _ _ Hy) as [Ny _].
  apply eqb_key in Hx. apply eqb_key in Hy.
  destruct (x <? y) eqn:E; [|reflexivity].
  apply ltb_key in E; auto. rewrite Hx, Hy in E. now apply key_lt_irrefl in E.
Qed.

(** ** C3: cosine similarity *)

Definition magnitude (v : list float) : float :=
  PrimFloat.sqrt (Rag.fsum (map (fun a => a * a) v)).

Definition dot_product (u v : list float) : float :=
  Rag.fsum (map (fun ab => fst ab * snd ab) (combine u v)).

(** The value [_cosine_similarity] computes. *)
Definition cosine (u v : list float) : float :=
  if negb (Nat.eqb (List.length u) (List.length v)) then 0
  else if (magnitude u =? 0) || (magnitude v =? 0) then 0
  else dot_product u v / (magnitude u * magnitude v).

Lemma math_sqrt_sum_of_squares v :
  Rag.math_sqrt (Rag.fsum (map (fun a => a * a) v)) = Ok (magnitude v).
Proof. unfold Rag.math_sqrt. now rewrite sum_of_squares_not_negative. Qed.

(** [_cosine_similarity] never raises: no square root is taken of a
    negative number, and no division has a zero divisor. *)
Lemma cosine_similarity_returns u v :
  Rag._cosine_similarity u v = Ok (cosine u v).
Proof.
  unfold Rag._cosine_similarity, cosine.
  destruct (negb _); [reflexivity|].
  rewrite !math_sqrt_sum_of_squares.
  destruct (magnitude u =? 0) eqn:Eu; [reflexivity|].
  destruct (magnitude v =? 0) eqn:Ev; [reflexivity|].
  cbn [orb]. unfold Rag.float_div.
  assert (Hp : (magnitude u * magnitude v =? 0) = false)
    by (apply product_of_magnitudes_not_zero; assumption).
  now rewrite Hp.
Qed.

Lemma dot_product_comm u v : dot_product u v = dot_product v u.
Proof.
  unfold dot_product. f_equal. revert v.
  induction u as [|a u IH]; intros [|b v]; cbn; try reflexivity.
  now rewrite IH, mul_comm.
Qed.

Lemma cosine_comm u v : cosine u v = cosine v u.
Proof.
  unfold cosine. rewrite (Nat.eqb_sym (List.length u)).
  destruct (negb _); [reflexivity|].
  rewrite (orb_comm (magnitude u =? 0)).
  destruct (_ || _); [reflexivity|].
  now rewrite dot_product_comm, (mul_comm (magnitude u)).
Qed.

Lemma combine_same {A} (l : list A) : combine l l = map (fun a => (a, a)) l.
Proof. induction l as [|a l IH]; cbn; congruence. Qed.

Lemma dot_product_same v : dot_product v v = Rag.fsum (map (fun a => a * a) v).
Proof. unfold dot_product. now rewrite combine_same, map_map. Qed.

(** C3 (counterexample).  In binary64 arithmetic neither the bound
    [[-1, 1]] nor the value 1 for identical vectors holds, and not only
    by a rounding error.  The similarity of [[1, 1]] with itself is the
    float just below 1 and that of [[2, 3]] with itself the float just
    above 1.  The similarity of [[1.21875 * 2^-537]] with [[1]] is
    1.21875, the square of the small component being rounded down to the
    least positive number.  The similarity of [[2^600]] with itself is
    NaN, its square overflowing.  The similarity of the non-zero vector
    [[2^-600]] with itself is 0, its square underflowing to zero. *)
Lemma cosine_of_identical_vectors_is_not_one :
  Rag._cosine_similarity [1; 1] [1; 1] = Ok 0x1.ffffffffffffep-1 /\
  (0x1.ffffffffffffep-1 =? 1) = false /\
  Rag._cosine_similarity [2; 3] [2; 3] = Ok 0x1.0000000000001p+0 /\
  (0x1.0000000000001p+0 <=? 1) = false /\
  Rag._cosine_similarity [0x1.38p-537] [1] = Ok 0x1.38p+0 /\
  (0x1.38p+0 <=? 1) = false /\
  (exists s, Rag._cosine_similarity [0x1p600] [0x1p600] = Ok s /\
             PrimFloat.is_nan s = true) /\
  Rag._cosine_similarity [0x1p-600] [0x1p-600] = Ok 0 /\
  (0x1p-600 =? 0) = false.
Proof.
  repeat split; try (vm_compute; reflexivity).
  eexists. split; vm_compute; reflexivity.
Qed.

(** C3 (amended).  [_cosine_similarity] never raises: the argument of
    each square root is not negative and the divisor is not zero.  It is
    symmetric.  It is 0 whenever the vectors differ in length or one of
    the two computed magnitudes is zero, and otherwise it is the quotient
    of the computed dot product by the product of the computed
    magnitudes.  The similarity of a vector with itself is never
    negative. *)
Theorem cosine_similarity_symmetric_total :
  forall u v,
    (exists s, Rag._cosine_similarity u v = Ok s /\
               Rag._cosine_similarity v u = Ok s) /\
    (List.length u <> List.length v -> Rag._cosine_similarity u v = Ok 0) /\
    ((magnitude u =? 0) = true \/ (magnitude v =? 0) = true ->
     Rag._cosine_similarity u v = Ok 0) /\
    (List.length u = List.length v ->
     (magnitude u =? 0) = false -> (magnitude v =? 0) = false ->
     (magnitude u * magnitude v =? 0) = false /\
     Rag._cosine_similarity u v
     = Ok (dot_product u v / (magnitude u * magnitude v))) /\
    (exists s, Rag._cosine_similarity v v = Ok s /\ (s <? 0) = false).
Proof.
  intros u v. rewrite !cosine_similarity_returns.
  split; [|split; [|split; [|split]]].
  - exists (cosine u v). split; [reflexivity|]. now rewrite cosine_comm.
  - intros H. unfold cosine. apply Nat.eqb_neq in H. now rewrite H.
  - intros H. unfold cosine. destruct (negb _); [reflexivity|].
    replace ((magnitude u =? 0) || (magnitude v =? 0)) with true; [reflexivity|].
    symmetry. apply orb_true_iff. exact H.
  - intros Hl Hu Hv.
    split; [apply product_of_magnitudes_not_zero; assumption|].
    unfold cosine. rewrite Hl, Nat.eqb_refl, Hu, Hv. reflexivity.
  - exists (cosine v v). split; [reflexivity|].
    unfold cosine. rewrite Nat.eqb_refl. cbn [negb].
    destruct (magnitude v =? 0) eqn:Ev; [reflexivity|]. cbn [orb].
    apply not_negative_ltb. rewrite dot_product_same.
    apply div_not_negative.
    + apply sum_of_squares_sign.
    + apply mul_not_negative; apply sqrt_not_negative.
    + apply eqb_zero_not_zero.
      apply product_of_magnitudes_not_zero; assumption.
Qed.

Lemma cosine_similarity_symmetric_total_witness :
  Rag._cosine_similarity [1; 2; 3] [1; 2] = Ok 0 /\
  Rag._cosine_similarity [0; 0] [3; 4] = Ok 0 /\
  Rag._cosine_similarity [3; 4] [4; 3] = Ok (24 / (5 * 5)).
Proof.
  split; [|split].
  - apply (proj1 (proj2 (cosine_similarity_symmetric_total [1; 2; 3] [1; 2]))).
    discriminate.
  - apply (proj1 (proj2 (proj2 (cosine_similarity_symmetric_total [0; 0] [3; 4])))).
    left. reflexivity.
  - apply (proj1 (proj2 (proj2 (proj2 (cosine_similarity_symmetric_total [3; 4] [4; 3])))));
      reflexivity.
Defined.

(** ** The ranking of chunks *)

(** The similarity of a chunk to the query. *)
Definition score (query_embedding : list float) (chunk : Rag.Chunk) : float :=
  cosine query_embedding (Rag.embedding chunk).

Definition scored (query_embedding : list float) (chunks : list Rag.Chunk)
  : list (Rag.Chunk * float) :=
  map (fun chunk => (chunk, score query_embedding chunk)) chunks.

Lemma score_all_returns chunks q : Rag.score_all chunks q = Ok (scored q chunks).
Proof.
  induction chunks as [|c chunks IH]; [reflexivity|].
  cbn. rewrite cosine_similarity_returns, IH. reflexivity.
Qed.

Lemma top_matches_returns chunks q k :
  Rag._top_matches chunks q k
  = Ok (map fst (PyList.slice_to (Rag.sort_desc (scored q chunks)) k)).
Proof. unfold Rag._top_matches. now rewrite score_all_returns. Qed.

Section Sorting.

Context {A : Type}.
Implicit Types (x : A * float) (l : list (A * float)).

(** [a] may stand before [b]: the key of [b] is at most that of [a]. *)
Definition precedes (a b : A * float) : Prop := (snd b <=? snd a) = true.

Lemma insert_desc_perm x l : Permutation (Rag.insert_desc x l) (x :: l).
Proof.
  induction l as [|y l IH]; cbn; [reflexivity|].
  destruct (snd x <? snd y); [|reflexivity].
  rewrite IH. apply perm_swap.
Qed.

Lemma sort_desc_perm l : Permutation (Rag.sort_desc l) l.
Proof.
  induction l as [|x l IH]; [reflexivity|].
  change (Rag.sort_desc (x :: l)) with (Rag.insert_desc x (Rag.sort_desc l)).
  rewrite insert_desc_perm. now constructor.
Qed.

Lemma insert_desc_sorted x l :
  number (snd x) -> Forall (fun y => number (snd y)) l ->
  StronglySorted precedes l -> StronglySorted precedes (Rag.insert_desc x l).
Proof.
  intros Hx Hl Hs. induction Hs as [|y l Hs IH Hy]; cbn.
  - repeat constructor.
  - inversion Hl as [|? ? Ny Nl]; subst.
    destruct (snd x <? snd y) eqn:E.
    + constructor; [apply IH, Nl|].
      rewrite insert_desc_perm. constructor; [|exact Hy].
      apply ltb_leb, E.
    + constructor; [constructor; assumption|].
      assert (Hxy : precedes x y) by (apply not_ltb_leb; assumption).
      constructor; [exact Hxy|].
      eapply Forall_impl; [|exact Hy]. intros z Hz.
      unfold precedes in *. eapply leb_trans; eassumption.
Qed.

Lemma sort_desc_sorted l :
  Forall (fun y => number (snd y)) l -> StronglySorted precedes (Rag.sort_desc l).
Proof.
  induction l as [|x l IH]; intros Hl; [constructor|].
  change (Rag.sort_desc (x :: l)) with (Rag.insert_desc x (Rag.sort_desc l)).
  inversion Hl; subst. apply insert_desc_sorted; auto.
  eapply Permutation_Forall; [symmetry; apply sort_desc_perm|assumption].
Qed.

(** The elements whose key equals [s]. *)
Definition with_key (s : float) (x : A * float) : bool := snd x =? s.

Lemma insert_desc_stable s x l :
  filter (with_key s) (Rag.insert_desc x l) = filter (with_key s) (x :: l).
Proof.
  induction l as [|y l IH]; [reflexivity|].
  cbn [Rag.insert_desc]. destruct (snd x <? snd y) eqn:E; [|reflexivity].
  cbn [filter] in *. rewrite IH.
  destruct (with_key s x) eqn:Ex, (with_key s y) eqn:Ey; try reflexivity.
  unfold with_key in *. rewrite (eqb_not_ltb _ _ _ Ex Ey) in E. discriminate E.
Qed.

Lemma sort_desc_stable s l :
  filter (with_key s) (Rag.sort_desc l) = filter (with_key s) l.
Proof.
  induction l as [|x l IH]; [reflexivity|].
  change (Rag.sort_desc (x :: l)) with (Rag.insert_desc x (Rag.sort_desc l)).
  rewrite insert_desc_stable. cbn [filter]. now rewrite IH.
Qed.

Lemma slice_to_firstn (l' : list A) k :
  (0 <= k)%Z -> PyList.slice_to l' k = firstn (Z.to_nat k) l'.
Proof. intros H. unfold PyList.slice_to. apply Z.leb_le in H. now rewrite H. Qed.

End Sorting.

(** [top] is the ranking of [index] cut at [k]: at most [k] chunks; the
    best of the index in non-increasing order of similarity ([top]
    followed by the chunks left out is the index reordered, each chunk
    scoring at least as much as those after it); and, for each value of the
    similarity, the chunks of [top] with that value are the first chunks
    of the index with that value, in the order of the index. *)
Definition ranking (q : list float) (index : list Rag.Chunk) (k : Z)
    (top : list Rag.Chunk) : Prop :=
  (Z.of_nat (List.length top) <= k)%Z /\
  (exists rest,
      Permutation (top ++ rest) index /\
      StronglySorted (fun a b => (score q b <=? score q a) = true) (top ++ rest)) /\
  (forall s, exists rest,
      filter (fun c => score q c =? s) index
      = filter (fun c => score q c =? s) top ++ rest).

Lemma scored_fst q index : map fst (scored q index) = index.
Proof. unfold scored. rewrite map_map. cbn. apply map_id. Qed.

Lemma scored_keys q index p :
  In p (scored q index) -> snd p = score q (fst p).
Proof. unfold scored. intros H. apply in_map_iff in H. now destruct H as (c & <- & _). Qed.

Lemma filter_scored q s l :
  Forall (fun p => snd p = score q (fst p)) l ->
  filter (fun c => score q c =? s) (map fst l) = map fst (filter (with_key s) l).
Proof.
  induction 1 as [|p l Hp Hl IH]; [reflexivity|].
  cbn. unfold with_key at 1. rewrite <- Hp, IH.
  destruct (snd p =? s); reflexivity.
Qed.

Lemma sorted_by_score q (l : list (Rag.Chunk * float)) :
  Forall (fun p => snd p = score q (fst p)) l ->
  StronglySorted precedes l ->
  StronglySorted (fun a b => (score q b <=? score q a) = true) (map fst l).
Proof.
  intros Hkeys Hsorted. induction Hsorted as [|p l Hs IH Hp]; cbn; constructor.
  - apply IH. now inversion Hkeys.
  - inversion Hkeys as [|? ? Kp Kl]; subst.
    apply Forall_map. rewrite Forall_forall in *. intros z Hz.
    specialize (Hp z Hz). unfold precedes in Hp.
    now rewrite <- Kp, <- (Kl z Hz).
Qed.

Lemma top_matches_ranking q index k :
  (0 <= k)%Z ->
  Forall (fun c => number (score q c)) index ->
  ranking q index k
    (map fst (PyList.slice_to (Rag.sort_desc (scored q index)) k)).
Proof.
  intros Hk Hn. rewrite slice_to_firstn by exact Hk.
  set (sorted := Rag.sort_desc (scored q index)).
  assert (Hperm : Permutation sorted (scored q index)) by apply sort_desc_perm.
  assert (Hkeys : Forall (fun p => snd p = score q (fst p)) sorted).
  { apply Forall_forall. intros p Hp. apply (scored_keys q index).
    eapply Permutation_in; eassumption. }
  assert (Hsorted : StronglySorted precedes sorted).
  { apply sort_desc_sorted. unfold scored. apply Forall_map. exact Hn. }
  assert (Hsplit : sorted = firstn (Z.to_nat k) sorted ++ skipn (Z.to_nat k) sorted)
    by (symmetry; apply firstn_skipn).
  repeat split.
  - rewrite length_map. pose proof (firstn_le_length (Z.to_nat k) sorted). lia.
  - exists (map fst (skipn (Z.to_nat k) sorted)).
    rewrite <- map_app, <- Hsplit. split.
    + rewrite <- (scored_fst q index). apply Permutation_map, Hperm.
    + apply sorted_by_score; assumption.
  - intros s. exists (map fst (filter (with_key s) (skipn (Z.to_nat k) sorted))).
    rewrite <- (scored_fst q index) at 1.
    rewrite filter_scored
      by (apply Forall_forall; intros p Hp; now apply (scored_keys q index)).
    rewrite <- (sort_desc_stable s (scored q index)). fold sorted.
    rewrite filter_scored.
    + rewrite <- map_app, <- filter_app, <- Hsplit. reflexivity.
    + rewrite Forall_forall in *. intros p Hp. apply Hkeys.
      rewrite Hsplit. apply in_or_app. now left.
Qed.

(** ** C2: what [retrieve] returns, and in which order *)

Definition chunk_of (name : string) (e : list float) : Rag.Chunk :=
  {| Rag.id := name; Rag.content := name; Rag.edition := None;
     Rag.embedding := e; Rag.metadata := [] |}.

(** Three chunks; against the query [[1, 1024]] the second one has the
    similarity NaN (its dot product and its magnitude overflow). *)
Definition small_store : Rag.RAGStore :=
  {| Rag.full_index :=
       [ chunk_of "A" [1; 0]; chunk_of "B" [0x1p600; 0x1p1020]; chunk_of "C" [0; 1] ];
     Rag.versions_index := [] |}.

Definition fragment_ids (ds : list Rag.Dict) : list (option Rag.PyVal) :=
  map (fun d => Rag.dict_get d "id") ds.

(** C2 (counterexample).  With [top_k = -1] the slice [scored[:top_k]]
    drops the last chunk only: two fragments come back, more than [k].
    And with a NaN among the similarities the sort leaves the chunks where
    they are: for [top_k = 1] the fragment returned is A, whose similarity
    is below that of C. *)
Lemma retrieve_beyond_k_and_out_of_order :
  option_map (fun r => List.length (Rag.full r))
    (match fst (Rag.retrieve 2 small_store [1; 1024] "Suite" (-1)) with
     | Ok r => Some r | Raised _ => None end) = Some 2%nat /\
  option_map (fun r => fragment_ids (Rag.full r))
    (match fst (Rag.retrieve 2 small_store [1; 1024] "Suite" 1) with
     | Ok r => Some r | Raised _ => None end) = Some [Some (Rag.VStr "A")] /\
  (score [1; 1024] (chunk_of "A" [1; 0]) <? score [1; 1024] (chunk_of "C" [0; 1])) = true /\
  PrimFloat.is_nan (score [1; 1024] (chunk_of "B" [0x1p600; 0x1p1020])) = true.
Proof. vm_compute. repeat split. Qed.

Lemma retrieve_returns kv store q edition k :
  Rag.retrieve kv store q edition k =
  (Ok {| Rag.full :=
           map Rag._chunk_to_dict
             (map fst (PyList.slice_to
                         (Rag.sort_desc (scored q (Rag.full_index store))) k));
         Rag.versions :=
           map Rag._chunk_to_dict
             (map fst (PyList.slice_to
                         (Rag.sort_desc (scored q (Rag.versions_index store))) kv)) |},
   store).
Proof. unfold Rag.retrieve. now rewrite !top_matches_returns. Qed.

(** C2 (amended).  For [k >= 0] and [VERSION_CHECK_TOP_K >= 0], and when
    no similarity to the query is NaN, [retrieve] returns the dictionaries
    of at most [k] chunks of the full index and of at most
    [VERSION_CHECK_TOP_K] chunks of the versions index, each list being the
    ranking of its index: the best chunks by non-increasing similarity,
    chunks of equal similarity in the order of the index. *)
Theorem retrieve_ranks_by_similarity :
  forall kv store q edition k,
    (0 <= k)%Z -> (0 <= kv)%Z ->
    Forall (fun c => number (score q c)) (Rag.full_index store) ->
    Forall (fun c => number (score q c)) (Rag.versions_index store) ->
    exists top_full top_versions,
      fst (Rag.retrieve kv store q edition k)
      = Ok {| Rag.full := map Rag._chunk_to_dict top_full;
              Rag.versions := map Rag._chunk_to_dict top_versions |} /\
      (Z.of_nat (List.length (map Rag._chunk_to_dict top_full)) <= k)%Z /\
      (Z.of_nat (List.length (map Rag._chunk_to_dict top_versions)) <= kv)%Z /\
      ranking q (Rag.full_index store) k top_full /\
      ranking q (Rag.versions_index store) kv top_versions.
Proof.
  intros kv store q edition k Hk Hkv Hf Hv.
  rewrite retrieve_returns. cbn [fst].
  eexists _, _. split; [reflexivity|].
  pose proof (top_matches_ranking q _ k Hk Hf) as Rf.
  pose proof (top_matches_ranking q _ kv Hkv Hv) as Rv.
  rewrite !length_map in *.
  repeat split; try apply Rf; try apply Rv.
  - rewrite <- length_map with (f := fst). apply Rf.
  - rewrite <- length_map with (f := fst). apply Rv.
Qed.

(** Two chunks with the same similarity to [[1, 0]], a better one loaded
    after them, and a versions index of one chunk. *)
Definition tie_store : Rag.RAGStore :=
  {| Rag.full_index :=
       [ chunk_of "first" [0; 1]; chunk_of "second" [0; 2]; chunk_of "best" [3; 0] ];
     Rag.versions_index := [ chunk_of "notes" [1; 0] ] |}.

Lemma retrieve_ranks_by_similarity_witness :
  exists top_full top_versions,
    fst (Rag.retrieve 2 tie_store [1; 0] "Suite" 2)
    = Ok {| Rag.full := map Rag._chunk_to_dict top_full;
            Rag.versions := map Rag._chunk_to_dict top_versions |} /\
    (Z.of_nat (List.length (map Rag._chunk_to_dict top_full)) <= 2)%Z /\
    (Z.of_nat (List.length (map Rag._chunk_to_dict top_versions)) <= 2)%Z /\
    ranking [1; 0] (Rag.full_index tie_store) 2 top_full /\
    ranking [1; 0] (Rag.versions_index tie_store) 2 top_versions.
Proof.
  apply (retrieve_ranks_by_similarity 2 tie_store [1; 0] "Suite" 2).
  - lia.
  - lia.
  - repeat constructor.
  - repeat constructor.
Defined.

(** On that store the two best of three come back, the tie in load
    order. *)
Example retrieve_tie_store :
  option_map (fun r => fragment_ids (Rag.full r))
    (match fst (Rag.retrieve 2 tie_store [1; 0] "Suite" 2) with
     | Ok r => Some r | Raised _ => None end)
  = Some [Some (Rag.VStr "best"); Some (Rag.VStr "first")].
Proof. vm_compute. reflexivity. Qed.

(** ** C10: the fragments [retrieve] returns *)

(** [d] is the dictionary of [chunk]: the four keys with the values of
    the chunk, and no embedding. *)
Definition fragment_of (chunk : Rag.Chunk) (d : Rag.Dict) : Prop :=
  Rag.dict_keys d = ["id"; "content"; "edition"; "metadata"]%string /\
  Rag.dict_get d "id" = Some (Rag.VStr (Rag.id chunk)) /\
  Rag.dict_get d "content" = Some (Rag.VStr (Rag.content chunk)) /\
  Rag.dict_get d "edition"
    = Some (match Rag.edition chunk with Some e => Rag.VStr e | None => Rag.VNone end) /\
  Rag.dict_get d "metadata" = Some (Rag.VMeta (Rag.metadata chunk)) /\
  Rag.dict_get d "embedding" = None /\
  (forall key l, Rag.dict_get d key <> Some (Rag.VFloats l)).

Lemma chunk_to_dict_fragment chunk : fragment_of chunk (Rag._chunk_to_dict chunk).
Proof.
  repeat split.
  intros key l. unfold Rag._chunk_to_dict. cbn [Rag.dict_get].
  repeat match goal with |- context [String.eqb key ?k] => destruct (String.eqb key k) end;
    try discriminate.
  destruct (Rag.edition chunk); discriminate.
Qed.

Lemma in_firstn {A} (n : nat) (l : list A) (x : A) : In x (firstn n l) -> In x l.
Proof.
  intros H. rewrite <- (firstn_skipn n l). apply in_or_app. now left.
Qed.

Lemma top_matches_from_index q index k c :
  In c (map fst (PyList.slice_to (Rag.sort_desc (scored q index)) k)) -> In c index.
Proof.
  intros H. rewrite <- (scored_fst q index).
  apply in_map_iff in H. destruct H as (p & <- & Hp). apply in_map.
  eapply Permutation_in; [apply sort_desc_perm|].
  unfold PyList.slice_to in Hp. destruct (0 <=? k)%Z; eapply in_firstn; eassumption.
Qed.

(** C10.  For every query, edition and [k], [retrieve] returns, and each
    dictionary of its two lists is the dictionary of a chunk of the
    corresponding index: exactly the keys id, content, edition and
    metadata with the values of the chunk, no embedding among them; the
    store is left as it was. *)
Theorem retrieve_returns_fragments_and_keeps_store :
  forall kv store q edition k,
    exists result,
      Rag.retrieve kv store q edition k = (Ok result, store) /\
      Forall (fun d => exists chunk,
                  In chunk (Rag.full_index store) /\ fragment_of chunk d)
             (Rag.full result) /\
      Forall (fun d => exists chunk,
                  In chunk (Rag.versions_index store) /\ fragment_of chunk d)
             (Rag.versions result).
Proof.
  intros kv store q edition k. rewrite retrieve_returns.
  eexists. split; [reflexivity|]. cbn [Rag.full Rag.versions].
  split; apply Forall_map, Forall_forall; intros c Hc; exists c;
    (split; [eapply top_matches_from_index; eassumption|apply chunk_to_dict_fragment]).
Qed.

Local Close Scope float_scope.

(** ** C9: the iteration cap of a turn *)

Import Workflow.


(** At the twentieth stage result the loop stops with that result. *)
Lemma consume_at_cap name node_state rest result :
  consume (SYield name node_state rest) 19 result = Ok (node_state, max_iterations).
Proof. cbn [consume]. now rewrite orb_true_r. Qed.

(** The number of stages a turn can still run from a node of the path
    that leads from the entry point to [wait_action]; 0 for the nodes
    behind [wait_action]. *)
Definition stages_left (n : Node) : nat :=
  match n with
  | detect_intent => 10
  | check_version => 9
  | wait_version_choice => 8
  | retrieve => 7
  | generate_answer => 6
  | wait_step_choice => 5
  | step_agent => 4
  | detect_interaction => 3
  | analyze_screenshot => 2
  | wait_action => 1
  | _ => 0
  end.

Ltac returns :=
  repeat first
    [ rewrite outcome_bind_call
    | rewrite outcome_bind_lift
    | rewrite retrieve_returns; cbn [fst]
    | match goal with
      | |- context [match ?x with _ => _ end] => destruct x eqn:?
      end ];
  eexists; reflexivity.





Lemma current_step_nonneg state :
  (0 <= current_step_index state)%Z -> no_current_step state = false ->
  exists s, current_step state = Ok s.
Proof.
  intros H0 Hn. apply current_step_ok. split; [exact H0|].
  now apply no_current_step_false.
Qed.

Lemma analyze_screenshot_for_button_returns env reply state :
  (0 <= current_step_index state)%Z ->
  exists state', outcome (analyze_screenshot_for_button env reply state) = Ok state'.
Proof.
  intros H0. unfold analyze_screenshot_for_button.
  destruct (no_current_step state) eqn:En; [eexists; reflexivity|].
  destruct (current_step_nonneg state H0 En) as [s Hs].
  rewrite outcome_bind_lift, Hs. returns.
Qed.












(** A store with one chunk in each index, and replies under which a turn
    walks the whole path: the edition is judged incompatible, one step is
    generated and it requires a click. *)
Definition versions_store : Rag.RAGStore :=
  {| Rag.full_index := [ chunk_of "manual" [1%float; 0%float] ];
     Rag.versions_index := [ chunk_of "Suite only" [1%float; 0%float] ] |}.

Definition env_with_store : Env :=
  {| client := true;
     rag_store := versions_store;
     VERSION_CHECK_TOP_K := 2;
     count_alpha := fun _ => 0%Z |}.

Definition long_script (_ : nat) : Oracle :=
  {| o_intent := IntentContent (Some "ableton_question");
     o_embedding := [1%float; 0%float];
     o_version := VersionResult (Val false) (Val "feature X requires Suite edition");
     o_generate :=
       GenResult (Val "Use the browser.")
         [ {| raw_text := Val "Click the browser."; raw_requires_click := Val true;
              raw_button_coords := None |} ];
     o_interaction := InteractionResult (Val true);
     o_locate := LocNoJson;
     o_validate := ValNoJson;
     o_fallback := FallbackRaise |}.

(** A session whose stored choice is "yes" and which awaits nothing. *)
Definition eager_session : AgentState :=
  set_user_choice
    (Main.new_session "s3" "How do I add an audio effect?" "Ableton Live Intro" None)
    (Some "yes").

(** The bound of 10 stages is attained. *)
Example a_turn_of_ten_stages :
  option_map (fun r => (snd r, response_text (fst r), action_required (fst r)))
    (match consume (stream env_with_store long_script eager_session) 0 eager_session with
     | Ok r => Some r | Raised _ => None end)
  = Some (10%nat,
          Some (step_header 1 1 ++ nl ++ "Click the browser.")%string,
          Some WaitUserAction).
Proof. vm_compute. reflexivity. Qed.


(** * Further properties of the workflow *)

(** ** What the stages leave alone *)

Lemma update_nth_texts (l : list Step) (n : nat) (f : Step -> Step) :
  (forall s, text (f s) = text s) ->
  map text (PyList.update_nth l n f) = map text l.
Proof.
  intros Hf. revert n. induction l as [|x l IH]; intros [|n]; cbn; try reflexivity.
  - now rewrite Hf.
  - now rewrite IH.
Qed.

Lemma update_nth_elsewhere {A} (l : list A) (n j : nat) (f : A -> A) :
  j <> n -> nth_error (PyList.update_nth l n f) j = nth_error l j.
Proof.
  revert n j. induction l as [|x l IH]; intros [|n] [|j] H; cbn; try reflexivity.
  - congruence.
  - apply IH. congruence.
Qed.

(** [state'] holds the steps of [state] except, possibly, for the flags
    and coordinates of the step under the cursor: the same number of
    steps, the same texts, and every other step as it was. *)
Definition same_steps_but_current (state state' : AgentState) : Prop :=
  List.length (steps state') = List.length (steps state) /\
  map text (steps state') = map text (steps state) /\
  forall j, j <> PyList.position (steps state) (current_step_index state) ->
            nth_error (steps state') j = nth_error (steps state) j.

Lemma same_steps_refl state state' :
  steps state' = steps state -> same_steps_but_current state state'.
Proof. intros E. unfold same_steps_but_current. rewrite E. auto. Qed.

Lemma same_steps_update state (f : Step -> Step) :
  (forall s, text (f s) = text s) ->
  same_steps_but_current state (update_current_step state f).
Proof.
  intros Hf. unfold same_steps_but_current, update_current_step, PyList.update. cbn.
  split; [apply length_update_nth|].
  split; [now apply update_nth_texts|].
  intros j Hj. now apply update_nth_elsewhere.
Qed.

Lemma same_steps_update_after state state' (f : Step -> Step) :
  steps state' = steps state -> current_step_index state' = current_step_index state ->
  (forall s, text (f s) = text s) ->
  same_steps_but_current state (update_current_step state' f).
Proof.
  intros Es Ei Hf. unfold same_steps_but_current, update_current_step, PyList.update.
  cbn. rewrite Es, Ei.
  split; [apply length_update_nth|].
  split; [now apply update_nth_texts|].
  intros j Hj. now apply update_nth_elsewhere.
Qed.

Ltac same_steps :=
  first [ apply same_steps_refl; reflexivity
        | apply same_steps_update; intros []; reflexivity ].

(** X1.  Every stage handler other than [generate_full_answer] keeps the
    number of steps and the text of each step, and leaves every step other
    than the one under the cursor exactly as it was. *)
Theorem stages_keep_the_steps :
  forall env n o state state',
    n <> Workflow.generate_answer ->
    outcome (Workflow.handler env n o state) = Ok state' ->
    same_steps_but_current state state'.
Proof.
  intros env n o state state' Hn H.
  destruct n; cbn [handler] in H; try congruence.
  - unfold detect_user_intent in H. peel H; same_steps.
  - unfold check_ableton_version in H. peel H; same_steps.
  - cbn in H. injection H as <-. unfold wait_for_version_choice.
    destruct (truthy_opt _); same_steps.
  - unfold retrieve_from_vectorstore in H. peel H; same_steps.
  - cbn in H. injection H as <-. unfold wait_for_user_step_choice.
    destruct (truthy _); [destruct (_ || _); [|destruct (_ || _)]|destruct (steps state)];
      same_steps.
  - cbn in H. injection H as <-. unfold step_agent_start.
    destruct (steps state) eqn:E; apply same_steps_refl; cbn; congruence.
  - unfold detect_interaction_type in H. peel H; same_steps.
  - unfold analyze_screenshot_for_button in H. peel H; same_steps.
  - unfold wait_user_action in H. peel H; same_steps.
  - unfold optional_validate_step in H. peel H; same_steps.
  - cbn in H. injection H as <-. apply same_steps_refl.
    now destruct (next_step_or_finish_steps state).
  - unfold Nodes.final_confirmation in H. peel H; same_steps.
  - unfold fallback_review_steps in H. peel H; same_steps.
Qed.

Lemma stages_keep_the_steps_witness :
  same_steps_but_current guided_state
    (update_current_step guided_state (set_step_requires_click (Some true))).
Proof.
  apply (stages_keep_the_steps env_with_client Workflow.detect_interaction
           (long_script 0) guided_state).
  - discriminate.
  - reflexivity.
Defined.

(** ** Advancing through the steps *)

Lemma next_step_or_finish_on_step state :
  cursor_on_step state ->
  cursor_on_step (next_step_or_finish state) /\
  len (next_step_or_finish state) = len state /\
  current_step_index (next_step_or_finish state)
  = Z.min (current_step_index state + 1) (len state - 1).
Proof.
  intros Hon. destruct (next_step_or_finish_cursor state) as (Hl & Ha & Hs).
  unfold cursor_on_step in *. rewrite Hl.
  destruct (Z_lt_le_dec (current_step_index state) (len state - 1)) as [Hlt|Hge].
  - rewrite Ha by lia. lia.
  - destruct (Hs Hge) as [-> _]. lia.
Qed.

(** X2.  From a cursor on a step, [n] advances put the cursor at
    [i + n] or, from the last step on, keep it on the last step: the
    cursor never reaches [len(steps)], and once the last step is reached
    every further advance leaves the session awaiting the completion
    answer. *)
Theorem repeated_advance_stops_at_last_step :
  forall n state,
    cursor_on_step state ->
    let state' := Nat.iter n next_step_or_finish state in
    len state' = len state /\
    current_step_index state'
    = Z.min (current_step_index state + Z.of_nat n) (len state - 1) /\
    (len state - 1 < current_step_index state + Z.of_nat n ->
     action_required state' = Some WaitTaskCompletionChoice).
Proof.
  intros n state Hon. cbv zeta.
  induction n as [|n (Hl & Hi & Ha)].
  - cbn. unfold cursor_on_step in Hon. repeat split; lia.
  - change (Nat.iter (S n) next_step_or_finish state)
      with (next_step_or_finish (Nat.iter n next_step_or_finish state)).
    set (prev := Nat.iter n next_step_or_finish state) in *.
    assert (Hp : cursor_on_step prev).
    { unfold cursor_on_step in *. rewrite Hl, Hi. lia. }
    destruct (next_step_or_finish_on_step prev Hp) as (_ & Hl' & Hi').
    rewrite Hl', Hi', Hl, Hi. repeat split; try lia.
    intros Hover. destruct (next_step_or_finish_cursor prev) as (_ & _ & Hs).
    apply Hs. rewrite Hl, Hi. unfold cursor_on_step in Hon. lia.
Qed.

Lemma repeated_advance_stops_at_last_step_witness :
  current_step_index (Nat.iter 5 next_step_or_finish guided_state) = 2 /\
  action_required (Nat.iter 5 next_step_or_finish guided_state)
  = Some WaitTaskCompletionChoice.
Proof.
  assert (Hon : cursor_on_step guided_state) by (unfold cursor_on_step; cbn; lia).
  destruct (repeated_advance_stops_at_last_step 5 guided_state Hon) as (_ & Hi & Ha).
  split; [rewrite Hi; reflexivity|apply Ha; reflexivity].
Defined.

(** X3.  After [next_step_or_finish], the edge out of [next_step] leads to
    [final_confirmation] exactly when there is no current step (no steps,
    or a cursor at or beyond their number); with a current step it always
    leads back to [detect_interaction], also at the last step. *)
Theorem next_step_edge_reaches_final_confirmation_only_without_step :
  forall state,
    (Workflow.should_continue_after_next_step (next_step_or_finish state)
     = Some Workflow.final_confirmation <-> no_current_step state = true) /\
    (Workflow.should_continue_after_next_step (next_step_or_finish state)
     = Some Workflow.detect_interaction <-> no_current_step state = false).
Proof.
  intros state.
  assert (H : no_current_step (next_step_or_finish state) = no_current_step state).
  { unfold next_step_or_finish, no_current_step, len.
    destruct (steps state) as [|s ss] eqn:E;
      cbn [steps current_step_index set_current_step_index set_action_required];
      rewrite ?E; [reflexivity|].
    destruct (current_step_index state <? _) eqn:Hlt;
      cbn [steps current_step_index set_current_step_index set_action_required];
      rewrite E; [|reflexivity].
    apply Z.ltb_lt in Hlt.
    transitivity false; [|symmetry]; apply Z.leb_gt; lia. }
  unfold Workflow.should_continue_after_next_step. rewrite H.
  destruct (no_current_step state); cbn; split; split; congruence.
Qed.

(** ** The stages a turn of /chat runs *)

(** The names of the stage results the loop of [chat] consumes, in the
    order it consumes them (the companion of [consume]). *)
Fixpoint consumed (s : Stream) (iteration : nat) : list Node :=
  match s with
  | SEnd => []
  | SRaise _ => []
  | SYield name node_state rest =>
    let iteration := S iteration in
    name ::
      (if truthy_action (action_required node_state)
          || Nat.leb max_iterations iteration
       then [] else consumed (rest tt) iteration)
  end.

Lemma successor_stays_on_path n state n' :
  (1 < stages_left n)%nat -> successor n state = Ok (Some n') ->
  (0 < stages_left n')%nat.
Proof.
  intros Hn H. destruct n; cbn in Hn; try lia; cbn [successor] in H.
  - unfold should_continue_after_intent in H.
    destruct (intent state) as [[|]|]; inversion H; cbn; lia.
  - unfold should_continue_after_version_check in H.
    destruct (allowed state) as [[|]|]; inversion H; cbn; lia.
  - unfold should_continue_after_version_choice in H.
    destruct (_ || _); inversion H; cbn; lia.
  - inversion H; cbn; lia.
  - inversion H; cbn; lia.
  - unfold should_continue_after_step_choice in H.
    destruct (contains _ _); inversion H; cbn; lia.
  - inversion H; cbn; lia.
  - unfold should_continue_after_interaction_type in H.
    destruct (negb _); [destruct (current_step state) as [s|]; [destruct (clicks s)|]|];
      inversion H; cbn; lia.
  - inversion H; cbn; lia.
Qed.

Lemma consumed_on_path env script :
  forall fuel n i state it,
    (0 < stages_left n)%nat ->
    Forall (fun m => (0 < stages_left m)%nat)
           (consumed (stream_from fuel env script i n state) it).
Proof.
  induction fuel as [|fuel IH]; intros n i state it Hn; [constructor|].
  cbn [stream_from].
  destruct (outcome (handler env n (script i) state)) as [state'|e] eqn:Hs;
    [|constructor].
  cbn [consumed]. constructor; [exact Hn|].
  destruct (truthy_action (action_required state')
            || Nat.leb max_iterations (S it)) eqn:Estop; [constructor|].
  destruct (Nat.eq_dec (stages_left n) 1) as [E1|E1].
  { assert (n = wait_action) as -> by (destruct n; cbn in E1; congruence).
    cbn [handler] in Hs. apply wait_user_action_presents in Hs.
    destruct Hs as [_ Ha]. rewrite Ha in Estop. discriminate Estop. }
  destruct (successor n state') as [[n'|]|e] eqn:Ht; try constructor.
  apply IH. eapply successor_stays_on_path; [|exact Ht]. lia.
Qed.

(** X4.  A turn of /chat only runs stages of the path from [detect_intent]
    to [wait_action]: whatever the session, the request and the replies of
    the services, it never runs [validate], [next_step],
    [final_confirmation] or [fallback]. *)
Theorem chat_never_runs_the_stages_behind_wait_action :
  forall env script session,
    let run := consumed (stream env script session) 0 in
    ~ In validate run /\ ~ In next_step run /\
    ~ In Workflow.final_confirmation run /\ ~ In fallback run.
Proof.
  intros env script session run.
  assert (H : Forall (fun m => (0 < stages_left m)%nat) run).
  { apply consumed_on_path. unfold entry_point, stages_left. lia. }
  rewrite Forall_forall in H.
  repeat split; intros Hin; apply H in Hin; cbn in Hin; lia.
Qed.

Lemma detect_user_intent_sets_intent env reply state :
  exists i, detect_user_intent env reply state
            = (if client env then [CallIntent] else [], Ok (set_intent state (Some i))).
Proof.
  unfold detect_user_intent. destruct (client env); cbn [negb].
  - destruct reply as [|[c|]]; [| |]; cbn;
      try (destruct (truthy c); [destruct (contains _ _)|]); eexists; reflexivity.
  - eexists; reflexivity.
Qed.

Lemma chat_on_awaiting_session env script session a :
  action_required session = Some a ->
  exists i,
    consume (stream env script session) 0 session = Ok (set_intent session (Some i), 1%nat) /\
    consumed (stream env script session) 0 = [detect_intent].
Proof.
  intros Ha. unfold stream, recursion_limit, entry_point. cbn [stream_from handler].
  destruct (detect_user_intent_sets_intent env (o_intent (script O)) session) as [i Hi].
  rewrite Hi. cbn [outcome snd consume consumed].
  cbn [action_required set_intent]. rewrite Ha. cbn [truthy_action orb].
  exists i. split; reflexivity.
Qed.

(** X5.  When the session already awaits an input, a message sent to
    /chat (other than "show_button" with a screenshot) runs
    [detect_user_intent] and nothing else: the session goes on awaiting the
    same input, with the same steps, cursor, mode, answer and presented
    text, which is sent back again; so answering the step-choice question
    through /chat never starts the delivery of the steps. *)
Theorem chat_on_awaiting_session_only_detects_intent :
  forall env script sid session request a,
    action_required session = Some a ->
    String.eqb (lower (message request)) "show_button"
      && truthy_opt (request_screenshot_url request) = false ->
    exists result,
      chat_request env script sid (Some session) request
      = (HttpOk (chat_response result), result) /\
      consumed (stream env script (receive_message session request)) 0 = [detect_intent] /\
      action_required result = Some a /\
      steps result = steps session /\
      current_step_index result = current_step_index session /\
      mode result = mode session /\
      full_answer result = full_answer session /\
      response_text result = response_text session /\
      response (chat_response result) = chat_response_text session.
Proof.
  intros env script sid session request a Ha Hsb.
  unfold chat_request. rewrite Hsb.
  assert (Hr : action_required (receive_message session request) = Some a).
  { unfold receive_message. rewrite Ha. destruct a; cbn; exact Ha. }
  destruct (chat_on_awaiting_session env script _ a Hr) as (i & Hc & Hn).
  exists (set_intent (receive_message session request) (Some i)).
  split; [unfold chat, chat_on_stream; now rewrite Hc|].
  split; [exact Hn|].
  unfold receive_message. rewrite Ha.
  destruct a; repeat split; cbn; try assumption.
Qed.

Definition awaiting_choice_state : AgentState :=
  set_response_text
    (set_action_required guided_state (Some WaitStepChoice))
    (Some "Use the browser. Would you like me to show this step-by-step? (yes/no)").

Definition yes_request : ChatRequest :=
  {| message := "yes";
     request_session_id := Some "s1";
     request_edition := "Ableton Live Suite";
     request_screenshot_url := None;
     rag_answer := "" |}.

Lemma chat_on_awaiting_session_only_detects_intent_witness :
  exists result,
    chat_request env_with_client bare_script "s1" (Some awaiting_choice_state) yes_request
    = (HttpOk (chat_response result), result) /\
    consumed (stream env_with_client bare_script
                (receive_message awaiting_choice_state yes_request)) 0 = [detect_intent] /\
    action_required result = Some WaitStepChoice /\
    steps result = steps awaiting_choice_state /\
    current_step_index result = current_step_index awaiting_choice_state /\
    mode result = mode awaiting_choice_state /\
    full_answer result = full_answer awaiting_choice_state /\
    response_text result = response_text awaiting_choice_state /\
    response (chat_response result) = chat_response_text awaiting_choice_state.
Proof.
  apply (chat_on_awaiting_session_only_detects_intent env_with_client bare_script "s1"
           awaiting_choice_state yes_request WaitStepChoice).
  - reflexivity.
  - reflexivity.
Defined.

(** ** Intent, compatibility and answer generation *)

(** X6.  [detect_user_intent] ends the workflow only on an explicit
    classification: the edge after it leads to [END] exactly when the
    client exists and the model returned a non-empty content without the
    word "ableton"; in every other case (no client, exception, empty
    content) the query is taken for an Ableton question. *)
Theorem intent_defaults_to_ableton_question :
  forall env reply state state',
    outcome (detect_user_intent env reply state) = Ok state' ->
    (Workflow.should_continue_after_intent state' = Workflow.END <->
     client env = true /\
     exists content,
       reply = IntentContent (Some content) /\
       truthy content = true /\ contains "ableton" (lower content) = false) /\
    (Workflow.should_continue_after_intent state' = Workflow.END \/
     Workflow.should_continue_after_intent state' = Some check_version).
Proof.
  intros env reply state state' H.
  unfold detect_user_intent in H. unfold Workflow.should_continue_after_intent.
  destruct (client env); cbn [negb] in H.
  - rewrite outcome_bind_call in H.
    destruct reply as [|[content|]]; cbn in H.
    + injection H as <-. cbn. split; [|now right].
      split; [discriminate|]. intros (_ & c & Hc & _). discriminate Hc.
    + destruct (truthy content) eqn:Ht; [destruct (contains _ _) eqn:Hc|];
        cbn in H; injection H as <-; cbn.
      * split; [|now right]. split; [discriminate|].
        intros (_ & c & Hr & _ & Hn). injection Hr as <-. congruence.
      * split; [|now left]. split; [|reflexivity].
        intros _. split; [reflexivity|]. exists content. auto.
      * split; [|now right]. split; [discriminate|].
        intros (_ & c & Hr & Hn & _). injection Hr as <-. congruence.
    + injection H as <-. cbn. split; [|now right].
      split; [discriminate|]. intros (_ & c & Hc & _). discriminate Hc.
  - cbn in H. injection H as <-. cbn. split; [|now right].
    split; [discriminate|]. intros (Hc & _). discriminate Hc.
Qed.

Lemma intent_defaults_to_ableton_question_witness :
  Workflow.should_continue_after_intent
    (set_intent guided_state (Some Other)) = Workflow.END <->
  client env_with_client = true /\
  exists content,
    IntentContent (Some "other") = IntentContent (Some content) /\
    truthy content = true /\ contains "ableton" (lower content) = false.
Proof.
  apply (intent_defaults_to_ableton_question env_with_client
           (IntentContent (Some "other")) guided_state
           (set_intent guided_state (Some Other))).
  reflexivity.
Defined.

(** X7.  The version check stores a verdict other than "allowed" only when
    that verdict is the model's own answer: it returns for every reply,
    and afterwards either the verdict is [True], or nothing was asked and
    the verdict is the one the session had, or the client exists, the
    embedding and the model were called once each, and the verdict is the
    [allowed] field of the reply. *)
Theorem version_check_defaults_to_allowed :
  forall env q reply state,
    exists state',
      outcome (check_ableton_version env q reply state) = Ok state' /\
      (allowed state' = Some true \/
       (allowed state' = allowed state /\
        trace (check_ableton_version env q reply state) = []) \/
       (client env = true /\
        trace (check_ableton_version env q reply state) = [CallEmbedding; CallVersion] /\
        exists a e, reply = VersionResult a e /\ allowed state' = allowed_field a)).
Proof.
  intros env q reply state. unfold check_ableton_version.
  destruct (_ || _); [eexists; split; [reflexivity|now left]|].
  destruct (allowed state) as [b|] eqn:Ea;
    [exists state; split; [reflexivity|right; left; split; [exact Ea|reflexivity]]|].
  rewrite outcome_bind_call, trace_bind_call, retrieve_returns. cbn [fst].
  rewrite outcome_bind_lift, trace_bind_lift.
  match goal with |- context [match ?v with [] => _ | _ :: _ => _ end] => destruct v end;
    [eexists; split; [reflexivity|now left]|].
  destruct (client env); cbn [negb]; [|eexists; split; [reflexivity|now left]].
  rewrite outcome_bind_call, trace_bind_call.
  destruct reply as [|a e]; [eexists; split; [reflexivity|now left]|].
  eexists; split; [reflexivity|]. right; right.
  split; [reflexivity|]. split; [reflexivity|]. exists a, e. split; reflexivity.
Qed.

Lemma handler_keeps_verdict env n o state state' :
  n <> check_version ->
  outcome (handler env n o state) = Ok state' -> allowed state' = allowed state.
Proof.
  intros Hn H. destruct n; cbn [handler] in H; try congruence.
  - unfold detect_user_intent in H. peel H; reflexivity.
  - cbn in H. injection H as <-. unfold wait_for_version_choice.
    destruct (truthy_opt _); reflexivity.
  - unfold retrieve_from_vectorstore in H. peel H; reflexivity.
  - unfold generate_full_answer in H. peel H; reflexivity.
  - cbn in H. injection H as <-. unfold wait_for_user_step_choice.
    destruct (truthy _); [destruct (_ || _); [|destruct (_ || _)]|destruct (steps state)];
      reflexivity.
  - cbn in H. injection H as <-. unfold step_agent_start.
    destruct (steps state); reflexivity.
  - unfold detect_interaction_type in H. peel H; reflexivity.
  - unfold analyze_screenshot_for_button in H. peel H; reflexivity.
  - unfold wait_user_action in H. peel H; reflexivity.
  - unfold optional_validate_step in H. peel H; reflexivity.
  - cbn in H. injection H as <-. unfold next_step_or_finish.
    destruct (steps state); [|destruct (_ <? _)]; reflexivity.
  - unfold Nodes.final_confirmation in H. peel H; reflexivity.
  - unfold fallback_review_steps in H. peel H; reflexivity.
Qed.

(** X8.  Compatibility is asked at most once: from the moment the verdict
    [allowed = True] is recorded (by the model, by default, or because the
    user chose to proceed anyway) every stage keeps it, and every further
    version check calls no service and routes to [retrieve]. *)
Theorem recorded_verdict_is_kept :
  forall env n o state state',
    allowed state = Some true ->
    outcome (handler env n o state) = Ok state' ->
    allowed state' = Some true /\
    (n = check_version ->
     trace (handler env n o state) = [] /\
     Workflow.should_continue_after_version_check state' = Some Workflow.retrieve).
Proof.
  intros env n o state state' Ha H.
  assert (Hdec : n = check_version \/ n <> check_version)
    by (destruct n; (now left) || (right; discriminate)).
  destruct Hdec as [->|Hn].
  - cbn [handler] in *. unfold check_ableton_version in *.
    destruct (_ || _).
    + cbn in H. injection H as <-. repeat split.
    + rewrite Ha in *. cbn in H. injection H as <-.
      split; [exact Ha|]. intros _. split; [reflexivity|].
      unfold Workflow.should_continue_after_version_check. now rewrite Ha.
  - split; [|congruence]. rewrite <- Ha. eapply handler_keeps_verdict; eauto.
Qed.

Lemma recorded_verdict_is_kept_witness :
  allowed (set_allowed guided_state (Some true)) = Some true /\
  trace (handler env_with_store check_version (long_script 0)
           (set_allowed guided_state (Some true))) = [].
Proof.
  destruct (recorded_verdict_is_kept env_with_store check_version (long_script 0)
              (set_allowed guided_state (Some true))
              (set_allowed guided_state (Some true)) eq_refl eq_refl) as [Ha Hc].
  split; [exact Ha|]. apply (Hc eq_refl).
Defined.

Lemma fill_steps_existing_fields raw ss :
  fill_steps_existing raw = Some ss ->
  map text ss = map raw_text raw /\ map button_coords ss = map raw_button_coords raw.
Proof.
  revert ss. induction raw as [|r raw IH]; intros ss H; cbn in H.
  - injection H as <-. split; reflexivity.
  - destruct (fill_step_existing r) as [s|] eqn:Es; [|discriminate].
    destruct (fill_steps_existing raw) as [ss'|]; [|discriminate].
    injection H as <-. destruct (IH ss' eq_refl) as [Ht Hb]. cbn. rewrite Ht, Hb.
    unfold fill_step_existing in Es.
    destruct (raw_requires_click r); [destruct (raw_text r) eqn:Et| |];
      try discriminate; injection Es as <-; cbn; rewrite ?Et; split; reflexivity.
Qed.

(** X9.  [generate_full_answer] returns for every reply, and the steps it
    leaves are either none at all (no client, an exception, or a reply
    that cannot be processed) or the steps of the reply one for one, each
    with the text and the coordinates the model gave: extraction never
    rewrites, drops or adds a step text. *)
Theorem generated_steps_are_the_reply_or_none :
  forall env reply state,
    exists state',
      outcome (generate_full_answer env reply state) = Ok state' /\
      (steps state' = [] \/
       (client env = true /\
        exists e raw,
          reply = GenResult e raw /\
          map text (steps state') = map raw_text raw /\
          map button_coords (steps state') = map raw_button_coords raw)) /\
      (client env = false ->
       steps state' = [] /\ trace (generate_full_answer env reply state) = []).
Proof.
  intros env reply state. unfold generate_full_answer.
  destruct (_ && _); destruct (client env); cbn [negb];
    try (eexists; split; [reflexivity|]; split; [now left|]; intros _; split; reflexivity).
  - rewrite outcome_bind_call.
    destruct reply as [msg|e raw];
      [eexists; split; [reflexivity|]; split; [now left|discriminate]|].
    destruct (fill_steps_existing raw) as [ss|] eqn:Ef;
      [destruct (previews_ok ss)|];
      eexists; (split; [reflexivity|]); (split; [|discriminate]);
      try (now left).
    right. split; [reflexivity|]. exists e, raw. split; [reflexivity|].
    now apply fill_steps_existing_fields.
  - rewrite outcome_bind_call.
    destruct reply as [msg|e raw];
      eexists; (split; [reflexivity|]); (split; [|discriminate]); [now left|].
    right. split; [reflexivity|]. exists e, raw. split; [reflexivity|].
    cbn. rewrite !map_map. split; reflexivity.
Qed.

(** ** Validation of a step *)

(** The warning that [optional_validate_step] presents. *)
Definition validation_warning (explanation : option string) : string :=
  ("⚠️ " ++ match explanation with
             | Some e => e
             | None => "Step was not completed correctly."
             end)%string.

Lemma optional_validate_step_cases env reply state state' :
  outcome (optional_validate_step env reply state) = Ok state' ->
  (state' = state \/
   exists explanation,
     reply = ValResult false explanation /\
     client env = true /\
     trace (optional_validate_step env reply state) = [CallValidate] /\
     (exists current, current_step state = Ok current /\ clicks current = true) /\
     state' = set_response_text state (Some (validation_warning explanation))).
Proof.
  unfold optional_validate_step.
  destruct (len state <=? current_step_index state);
    [intros H; injection H as <-; now left|].
  rewrite outcome_bind_lift, trace_bind_lift.
  destruct (current_step state) as [current|]; [|discriminate].
  destruct (contains _ _); [intros H; injection H as <-; now left|].
  destruct (clicks current) eqn:Ec; cbn [negb];
    [|intros H; injection H as <-; now left].
  destruct (client env) eqn:Ecl;
    [|rewrite orb_true_r; intros H; injection H as <-; now left].
  destruct (negb (truthy_opt _) || negb true);
    [intros H; injection H as <-; now left|].
  destruct reply as [| | | |[|] e];
    rewrite ?outcome_bind_call, ?trace_bind_call; cbn;
    intros H; injection H as <-; try (now left).
  right. exists e. repeat split; eauto.
Qed.

(** X10.  [optional_validate_step] is soft: whatever the reply it never
    raises from a cursor that is not negative, it changes nothing but the
    presented text, and it changes that text only to the warning that
    starts with the marker, and only when the vision model, asked about a
    step that requires a click, answered that the step is not valid. *)
Theorem validation_only_annotates :
  forall env reply state,
    0 <= current_step_index state ->
    exists state',
      outcome (optional_validate_step env reply state) = Ok state' /\
      (state' = state \/
       exists explanation,
         reply = ValResult false explanation /\
         state' = set_response_text state (Some (validation_warning explanation)) /\
         startswith (validation_warning explanation) "⚠️" = true).
Proof.
  intros env reply state H0.
  assert (Hr : exists state', outcome (optional_validate_step env reply state) = Ok state').
  { destruct (len state <=? current_step_index state) eqn:E.
    - unfold optional_validate_step. rewrite E. eexists; reflexivity.
    - apply optional_validate_step_returns. apply Z.leb_gt in E. split; assumption. }
  destruct Hr as [state' Hs]. exists state'. split; [exact Hs|].
  destruct (optional_validate_step_cases _ _ _ _ Hs) as [->|(e & Hr & _ & _ & _ & ->)];
    [now left|].
  right. exists e. repeat split; auto.
Qed.

Lemma validation_only_annotates_witness :
  exists state',
    outcome (optional_validate_step env_with_client (ValResult false None) guided_state)
    = Ok state' /\
    (state' = guided_state \/
     exists explanation,
       ValResult false None = ValResult false explanation /\
       state' = set_response_text guided_state (Some (validation_warning explanation)) /\
       startswith (validation_warning explanation) "⚠️" = true).
Proof.
  apply (validation_only_annotates env_with_client (ValResult false None) guided_state).
  vm_compute. discriminate.
Defined.

(** X11.  [/step/validate] reports a step invalid only when the vision
    model said so: for a step index in [[0, len(steps))] it always answers,
    and [valid = false] comes with the client present, one validation
    call, a step that requires a click, a reply [valid = false], and the
    warning as explanation; in every other case (no client, no
    screenshot, a step without click, a missing file, an exception, a
    reply without JSON) it answers [valid = true] without explanation. *)
Theorem validate_step_reports_invalid_only_on_reply :
  forall env o session url index,
    0 <= index < len session ->
    exists r,
      snd (validate_step env o session url index) = HttpOk r /\
      ((valid r = true /\ validation_explanation r = None) \/
       (valid r = false /\
        client env = true /\
        fst (validate_step env o session url index) = [CallValidate] /\
        exists explanation,
          o_validate o = ValResult false explanation /\
          validation_explanation r = Some (validation_warning explanation))).
Proof.
  intros env o session url index Hi. unfold validate_step. fold (len session).
  replace (len session <=? index) with false by (symmetry; apply Z.leb_gt; lia).
  destruct (index_nonneg_in_range (steps session) index Hi) as [s Hs]. rewrite Hs.
  set (state := set_response_text _ None).
  assert (Hon : cursor_on_step state) by (unfold cursor_on_step, len; cbn; exact Hi).
  destruct (optional_validate_step_returns env (o_validate o) state Hon) as [result Hr].
  destruct (optional_validate_step_cases _ _ _ _ Hr)
    as [->|(e & Hrep & Hc & Ht & _ & ->)].
  - destruct (optional_validate_step env (o_validate o) state) as [t r] eqn:E.
    cbn in Hr. subst r. cbn. eexists. split; [reflexivity|]. left. split; reflexivity.
  - destruct (optional_validate_step env (o_validate o) state) as [t r] eqn:E.
    unfold outcome, trace in Hr, Ht. cbn [fst snd] in Hr, Ht. subst r t.
    cbn [fst snd response_text set_response_text truthy_opt or_empty].
    assert (Hw : startswith (validation_warning e) "⚠️" = true) by (destruct e; reflexivity).
    assert (Hne : truthy (validation_warning e) = true) by (destruct e; reflexivity).
    rewrite Hne, Hw. cbn [negb].
    eexists. split; [reflexivity|]. right. repeat split; eauto.
Qed.

Lemma validate_step_reports_invalid_only_on_reply_witness :
  exists r,
    snd (validate_step env_with_client (long_script 0) guided_state "shot.png" 1) = HttpOk r /\
    ((valid r = true /\ validation_explanation r = None) \/
     (valid r = false /\
      client env_with_client = true /\
      fst (validate_step env_with_client (long_script 0) guided_state "shot.png" 1)
      = [CallValidate] /\
      exists explanation,
        o_validate (long_script 0) = ValResult false explanation /\
        validation_explanation r = Some (validation_warning explanation))).
Proof.
  apply (validate_step_reports_invalid_only_on_reply env_with_client (long_script 0)
           guided_state "shot.png" 1).
  vm_compute. split; [discriminate|reflexivity].
Defined.

(** ** /step *)

Lemma final_confirmation_steps env state state' :
  outcome (Nodes.final_confirmation env state) = Ok state' ->
  steps state' = steps state.
Proof. unfold Nodes.final_confirmation. intros H. peel H; reflexivity. Qed.

Lemma text_fmt_text a b : text a = text b -> text_fmt a = text_fmt b.
Proof. unfold text_fmt. now intros ->. Qed.

Lemma index_same_text (l l' : list Step) i a a' :
  map text l' = map text l ->
  PyList.index l i = Some a -> PyList.index l' i = Some a' -> text a' = text a.
Proof.
  intros Hm Ha Ha'. unfold PyList.index in *.
  assert (Hlen : List.length l' = List.length l)
    by (rewrite <- (length_map text l'), Hm; apply length_map).
  rewrite Hlen in Ha'.
  assert (Hn : forall n, nth_error l n = Some a -> nth_error l' n = Some a' ->
                         text a' = text a).
  { intros n H1 H2. apply (map_nth_error text) in H1. apply (map_nth_error text) in H2.
    rewrite Hm in H2. congruence. }
  destruct ((0 <=? i) && (i <? Z.of_nat (List.length l))); [eauto|].
  destruct ((- Z.of_nat (List.length l) <=? i) && (i <? 0)); [eauto|discriminate].
Qed.

Lemma current_step_same_text state state' a a' :
  map text (steps state') = map text (steps state) ->
  current_step_index state' = current_step_index state ->
  current_step state = Ok a -> current_step state' = Ok a' -> text a' = text a.
Proof.
  unfold current_step. intros Hm Hi Ha Ha'. rewrite Hi in Ha'.
  destruct (PyList.index (steps state) _) as [x|] eqn:E; [|discriminate].
  destruct (PyList.index (steps state') _) as [x'|] eqn:E'; [|discriminate].
  injection Ha as <-. injection Ha' as <-. eapply index_same_text; eauto.
Qed.

Lemma append_empty_r (s : string) : (s ++ "")%string = s.
Proof. induction s; cbn; congruence. Qed.

(** The text with which [/step] presents the step under the cursor of
    [state]: the header, the text of the step, and possibly more. *)
Definition presents_current_step (state : AgentState) (presented : string) : Prop :=
  exists current tail,
    current_step state = Ok current /\
    presented
    = (step_header (current_step_index state + 1) (len state) ++ nl
       ++ text_fmt current ++ tail)%string.

(** [present_next] once the cursor has moved to a step: the step is
    presented, unless it is not the last and its interaction analysis
    stored a [null], which the response model refuses. *)
Lemma present_next_presents env o result current_index :
  cursor_on_step result ->
  current_step_index result <> current_index ->
  let turn := present_next env o result current_index in
  keeps_cursor result (fst (snd turn)) /\
  map text (steps (fst (snd turn))) = map text (steps result) /\
  ((stores_null env (o_interaction o) = true /\
    current_step_index result <> len result - 1 /\
    snd (snd turn) = HttpError 500) \/
   (exists r,
      snd (snd turn) = HttpOk r /\
      step_index r = current_step_index result /\
      total_steps r = len result /\
      presents_current_step result (step_text r) /\
      (step_action_required r = Some WaitUserAction \/
       step_action_required r = Some WaitTaskCompletionChoice))).
Proof.
  intros Hon Hne. unfold present_next.
  replace (current_step_index result =? current_index) with false
    by (symmetry; apply Z.eqb_neq; exact Hne).
  cbn [andb]. cbv iota. fold (len result).
  destruct (current_step_ok result Hon) as [cur Hcur].
  destruct (current_step_index result =? len result - 1) eqn:Hlast.
  - destruct (final_confirmation_returns env result Hon) as [r' Hr'].
    rewrite (try_ok _ _ _ _ Hr'). cbn [fst snd done].
    split; [eapply final_confirmation_keeps_cursor; eauto|].
    split; [now rewrite (final_confirmation_steps _ _ _ Hr')|].
    right.
    eexists. split; [reflexivity|]. cbn [step_index total_steps step_text step_action_required].
    repeat split; auto.
    unfold Nodes.final_confirmation in Hr'.
    assert (Hn : no_current_step result = false).
    { unfold no_current_step. destruct (steps result) eqn:E.
      - unfold cursor_on_step, len in Hon. rewrite E in Hon. cbn in Hon. lia.
      - apply Z.leb_gt. apply Hon. }
    rewrite Hn in Hr'. cbn [negb] in Hr'. rewrite outcome_bind_lift, Hcur in Hr'.
    cbn in Hr'. injection Hr' as <-. cbn [response_text set_action_required set_response_text or_empty].
    exists cur. eexists. split; [exact Hcur|]. reflexivity.
  - replace ((current_step_index result <? len result) && (0 <=? current_step_index result))
      with true
      by (symmetry; apply andb_true_iff; split;
          [apply Z.ltb_lt|apply Z.leb_le]; apply Hon).
    destruct (detect_interaction_type_returns env (o_interaction o) result Hon) as [r' Hr'].
    rewrite (try_ok _ _ _ _ Hr').
    pose proof (detect_interaction_type_keeps_cursor _ _ _ _ Hr') as Hk.
    pose proof (detect_interaction_type_texts _ _ _ _ Hr') as Ht.
    destruct (current_step_ok r' (keeps_cursor_on_step _ _ Hk Hon)) as [s Hs].
    pose proof (detect_interaction_type_stores _ _ _ _ _ Hon Hr' Hs) as Hrc.
    rewrite try_lift, Hs, try_lift. unfold step_response. rewrite Hrc.
    apply Z.eqb_neq in Hlast.
    destruct (stores_null env (o_interaction o)); cbn [fst snd done].
    { split; [exact Hk|]. split; [exact Ht|]. left. repeat split. exact Hlast. }
    split; [exact Hk|]. split; [exact Ht|]. right.
    eexists. split; [reflexivity|]. cbn [step_index total_steps step_text step_action_required].
    repeat split; auto.
    exists cur, ""%string. split; [exact Hcur|].
    rewrite append_empty_r.
    rewrite (text_fmt_text s cur); [reflexivity|].
    destruct Hk as [_ Hki]. eapply current_step_same_text; eauto.
Qed.

(** The stages that [/step] runs on a decision return, keep the steps, and
    leave the cursor where it was or one step further. *)
Lemma run_decision_returns env o state d :
  cursor_on_step state ->
  exists result,
    outcome (run_decision env o state d) = Ok result /\
    steps result = steps state /\
    user_query result = user_query state /\
    cursor_on_step result /\
    (current_step_index state < len state - 1 ->
     current_step_index result = current_step_index state + 1 /\
     action_required result = action_required state) /\
    (len state - 1 <= current_step_index state ->
     current_step_index result = current_step_index state /\
     action_required result = Some WaitTaskCompletionChoice) /\
    ~ In CallInteraction (trace (run_decision env o state d)) /\
    (contains "skip" (lower d) = true -> trace (run_decision env o state d) = []).
Proof.
  intros Hon.
  assert (Hv : exists v t, (if contains "skip" (lower d) then ret state
                            else optional_validate_step env (o_validate o) state) = (t, Ok v)
                           /\ steps v = steps state /\ action_required v = action_required state
                           /\ user_query v = user_query state
                           /\ current_step_index v = current_step_index state
                           /\ ~ In CallInteraction t
                           /\ (contains "skip" (lower d) = true -> t = [])).
  { destruct (contains "skip" (lower d)).
    - exists state, []. repeat split; auto.
    - destruct (optional_validate_step_returns env (o_validate o) state Hon) as [v Hv].
      destruct (optional_validate_step_steps _ _ _ _ Hv) as (Hs & Ha & Hq).
      destruct (optional_validate_step_keeps_cursor _ _ _ _ Hv) as [_ Hi].
      destruct (optional_validate_step env (o_validate o) state) as [t r] eqn:E.
      cbn in Hv. subst r. exists v, t. repeat split; auto; try discriminate.
      destruct (optional_validate_step_cases env (o_validate o) state v) as [_|(e & _ & _ & Ht & _)];
        [now rewrite E| |].
      + unfold optional_validate_step in E. intros Hin.
        assert (Hsub : forall c, In c t -> c = CallValidate).
        { clear Hin. revert E.
          destruct (len state <=? current_step_index state);
            [intros E; injection E as <- _; intros c []|].
          destruct (current_step state) as [cs|]; cbn [lift bind];
            [|intros E; injection E as <- _; intros c []].
          destruct (contains _ _); [cbn; intros E; injection E as <- _; intros c []|].
          destruct (negb _); [cbn; intros E; injection E as <- _; intros c []|].
          destruct (_ || _); [cbn; intros E; injection E as <- _; intros c []|].
          destruct (o_validate o) as [| | | |[|] e]; cbn; intros E; injection E as <- _;
            intros c Hc; cbn in Hc; intuition. }
        apply Hsub in Hin. discriminate Hin.
      + rewrite E in Ht. cbn in Ht. subst t. intros [H|[]]. discriminate H. }
  destruct Hv as (v & t & Ev & Hs & Ha & Hq & Hi & Ht & Hskip).
  assert (Honv : cursor_on_step v).
  { unfold cursor_on_step, len in *. rewrite Hs, Hi. exact Hon. }
  assert (Hlen : len v = len state) by (unfold len; now rewrite Hs).
  exists (next_step_or_finish v).
  assert (Hrun : run_decision env o state d = (t, Ok (next_step_or_finish v))).
  { unfold run_decision. destruct (contains "skip" (lower d)).
    - injection Ev as <- <-. reflexivity.
    - rewrite Ev. cbn. now rewrite app_nil_r. }
  rewrite Hrun. cbn [outcome trace fst snd].
  destruct (next_step_or_finish_steps v) as [Hns Hnq].
  destruct (next_step_or_finish_cursor v) as (Hl & Hadv & Hstay).
  destruct (next_step_or_finish_on_step v Honv) as (Hon' & _ & _).
  split; [reflexivity|]. split; [congruence|]. split; [congruence|].
  split; [exact Hon'|]. split; [|split; [|split]].
  - intros Hlt. rewrite Hadv by (unfold cursor_on_step in Honv; lia).
    split; [lia|]. rewrite <- Ha. apply next_step_or_finish_action.
    unfold cursor_on_step in Honv. lia.
  - intros Hge. destruct Hstay as [Hc Hw]; [lia|]. split; [lia|exact Hw].
  - exact Ht.
  - exact Hskip.
Qed.

Lemma optional_validate_step_calls env reply state :
  trace (optional_validate_step env reply state) = [] \/
  trace (optional_validate_step env reply state) = [CallValidate].
Proof.
  unfold optional_validate_step.
  destruct (len state <=? current_step_index state); [now left|].
  rewrite trace_bind_lift. destruct (current_step state) as [cs|]; [|now left].
  destruct (contains _ _); [now left|].
  destruct (negb _); [now left|].
  destruct (_ || _); [now left|].
  destruct reply as [| | | |[|] e]; cbn; auto.
Qed.

Lemma detect_interaction_type_calls env reply state :
  trace (detect_interaction_type env reply state) = [] \/
  trace (detect_interaction_type env reply state) = [CallInteraction].
Proof.
  unfold detect_interaction_type.
  destruct (no_current_step state); [now left|].
  rewrite trace_bind_lift. destruct (current_step state); [|now left].
  destruct (client env); cbn [negb]; [|now left].
  rewrite trace_bind_call. destruct reply; cbn; auto.
Qed.

Lemma run_decision_calls env o state d :
  trace (run_decision env o state d) = [] \/
  trace (run_decision env o state d) = [CallValidate].
Proof.
  unfold run_decision. destruct (contains "skip" (lower d)); [now left|].
  destruct (optional_validate_step_calls env (o_validate o) state) as [H|H];
    revert H; unfold trace, bind, ret;
    destruct (optional_validate_step env (o_validate o) state) as [t [a|e]];
    cbn; intros ->; auto.
Qed.

Lemma answer_completion_calls env o session d :
  fst (answer_completion env o session d) = [] \/
  fst (answer_completion env o session d) = [CallInteraction].
Proof.
  unfold answer_completion.
  destruct (any_in yes_keywords (lower d)); [now left|].
  destruct (any_in no_keywords (lower d)).
  - rewrite try_lift. destruct (first_step _); [|now left].
    rewrite try_trace.
    match goal with |- context [(trace ?m ++ ?k)%list] =>
      assert (Hk : k = []) end.
    { destruct (outcome _); [|reflexivity]. rewrite try_lift.
      destruct (first_step _); [|reflexivity]. rewrite try_lift.
      destruct (step_response _ _ _ _ _); reflexivity. }
    rewrite Hk, app_nil_r. apply detect_interaction_type_calls.
  - rewrite try_lift. destruct (last_step _); now left.
Qed.

Lemma present_next_calls env o result current_index :
  fst (present_next env o result current_index) = [] \/
  fst (present_next env o result current_index) = [CallInteraction].
Proof.
  unfold present_next.
  match goal with |- context [if ?c then try_ _ (Nodes.final_confirmation _ _) _ else _] =>
    destruct c end.
  - rewrite try_trace, final_confirmation_trace. destruct (outcome _); now left.
  - match goal with |- context [if ?c then _ else _] => destruct c end; [|now left].
    rewrite try_trace.
    match goal with |- context [trace ?m ++ ?k] =>
      assert (Hk : k = []) end.
    { destruct (outcome _); [|reflexivity]. rewrite try_lift.
      destruct (current_step _); [|reflexivity]. rewrite try_lift.
      destruct (step_response _ _ _ _ _); reflexivity. }
    rewrite Hk, app_nil_r. apply detect_interaction_type_calls.
Qed.

(** X16.  Whatever the session and the decision, a [/step] request makes
    at most one validation call and at most one call that analyses the
    interaction of the step, the validation first; it makes no other
    call to the model or to the embedding service. *)
Theorem step_calls_validation_then_interaction :
  forall env o session d shot,
    exists v i,
      fst (step env o session d shot) = (v ++ i)%list /\
      (v = [] \/ v = [CallValidate]) /\
      (i = [] \/ i = [CallInteraction]).
Proof.
  intros env o session d shot. unfold step.
  fold (with_request session d shot).
  set (s := with_request session d shot).
  destruct (_ <=? _); [exists [], []; auto|].
  destruct (current_step s); [|exists [], []; auto].
  destruct (contains "cancel" (lower d)); [exists [], []; auto|].
  rewrite try_trace.
  match goal with |- context [trace ?m] => set (run := m) end.
  exists (trace run).
  destruct (outcome run) as [result|e].
  - match goal with |- context [(trace run ++ ?k)%list] => exists k end.
    split; [reflexivity|]. split; [apply run_decision_calls|].
    destruct (action_required result) as [[| | |]|];
      (apply present_next_calls || apply answer_completion_calls).
  - exists []. split; [reflexivity|]. split; [apply run_decision_calls|now left].
Qed.

Lemma first_step_ok (ss : list Step) :
  0 < Z.of_nat (List.length ss) -> exists s, first_step ss = Ok s.
Proof. destruct ss as [|s ss]; cbn; [lia|]. intros _. now exists s. Qed.

Lemma index_last {A} (l : list A) :
  0 < Z.of_nat (List.length l) ->
  PyList.last_opt l = PyList.index l (Z.of_nat (List.length l) - 1).
Proof.
  intros H. unfold PyList.last_opt, PyList.index.
  replace ((0 <=? -1) && (-1 <? Z.of_nat (List.length l))) with false by reflexivity.
  replace ((- Z.of_nat (List.length l) <=? -1) && (-1 <? 0)) with true
    by (symmetry; apply andb_true_iff; split; [apply Z.leb_le; lia|reflexivity]).
  replace ((0 <=? Z.of_nat (List.length l) - 1)
           && (Z.of_nat (List.length l) - 1 <? Z.of_nat (List.length l))) with true
    by (symmetry; apply andb_true_iff; split; [apply Z.leb_le|apply Z.ltb_lt]; lia).
  f_equal.
Qed.

Lemma last_step_ok (ss : list Step) :
  0 < Z.of_nat (List.length ss) ->
  exists s, last_step ss = Ok s /\
            PyList.index ss (Z.of_nat (List.length ss) - 1) = Some s.
Proof.
  intros H. unfold last_step. rewrite (index_last ss H).
  destruct (index_nonneg_in_range ss (Z.of_nat (List.length ss) - 1)) as [s Hs]; [lia|].
  rewrite Hs. now exists s.
Qed.

Lemma step_response_fields text index total step action r :
  step_response text index total step action = Ok r ->
  step_text r = text /\ step_index r = index /\ total_steps r = total /\
  step_action_required r = action.
Proof.
  unfold step_response. destruct (requires_click step); [|discriminate].
  intros [= <-]. repeat split.
Qed.

Lemma first_is_current state s :
  current_step_index state = 0 -> first_step (steps state) = Ok s ->
  current_step state = Ok s.
Proof. unfold current_step, first_step. now intros ->. Qed.

(** What [/step] answers to the reply to the completion question. *)
Lemma answer_completion_in_range env o result d :
  cursor_on_step result ->
  let turn := answer_completion env o result d in
  map text (steps (fst (snd turn))) = map text (steps result) /\
  cursor_on_step (fst (snd turn)) /\
  ((snd (snd turn) = HttpError 500 /\ stores_null env (o_interaction o) = true) \/
   (exists r,
      snd (snd turn) = HttpOk r /\
      total_steps r = len result /\
      0 <= step_index r < len result)).
Proof.
  intros Hon. assert (Hpos : 0 < Z.of_nat (List.length (steps result)))
    by (unfold cursor_on_step, len in Hon; lia).
  unfold answer_completion. fold (len result).
  destruct (any_in yes_keywords (lower d)).
  - cbn. split; [reflexivity|]. split; [exact Hon|]. right.
    eexists. split; [reflexivity|]. cbn.
    unfold cursor_on_step, len in *. repeat split; try lia.
  - destruct (any_in no_keywords (lower d)).
    + destruct (first_step_ok (steps result) Hpos) as [f Hf].
      rewrite try_lift, Hf.
      set (s0 := set_current_step_index
                   (set_action_required (set_current_step_index result 0)
                      (Some WaitUserAction)) 0).
      assert (Hon0 : cursor_on_step s0) by (unfold cursor_on_step, len in *; cbn; lia).
      destruct (detect_interaction_type_returns env (o_interaction o) s0 Hon0) as [r' Hr'].
      rewrite (try_ok _ _ _ _ Hr').
      pose proof (detect_interaction_type_keeps_cursor _ _ _ _ Hr') as Hk.
      pose proof (detect_interaction_type_texts _ _ _ _ Hr') as Ht.
      destruct (first_step_ok (steps r')) as [f' Hf'].
      { destruct Hk as [Hl _]. unfold len in Hl. rewrite Hl. exact Hpos. }
      assert (Hcs : current_step r' = Ok f').
      { apply first_is_current; [|exact Hf']. destruct Hk as [_ Hk]. now rewrite Hk. }
      pose proof (detect_interaction_type_stores _ _ _ _ _ Hon0 Hr' Hcs) as Hrc.
      rewrite try_lift, Hf', try_lift. unfold step_response. rewrite Hrc.
      destruct (stores_null env (o_interaction o)); cbn [fst snd done];
        (split; [exact Ht|]); (split; [eapply keeps_cursor_on_step; eauto|]).
      * left. split; reflexivity.
      * right. eexists. split; [reflexivity|]. cbn [total_steps step_index].
        split; [reflexivity|]. unfold len; lia.
    + destruct (last_step_ok (steps result) Hpos) as (l & Hl & _).
      rewrite try_lift, Hl. cbn [fst snd done].
      split; [reflexivity|]. split; [exact Hon|]. right.
      eexists. split; [reflexivity|]. cbn [total_steps step_index].
      unfold len. repeat split; lia.
Qed.

Lemma current_step_index_of state s :
  current_step state = Ok s ->
  PyList.index (steps state) (current_step_index state) = Some s.
Proof.
  unfold current_step. destruct (PyList.index _ _); [|discriminate].
  now intros [= ->].
Qed.

(** What a turn of [/step] on a session whose cursor is on a step leaves
    and answers: the same texts, a cursor on a step, and either the
    status 200 with the number of steps as total and an index within the
    steps, or the status 500 after an interaction analysis that stored a
    [null]. *)
Definition answers_within (env : Env) (o : Oracle) (session : AgentState)
    (turn : Turn StepResponse) : Prop :=
  map text (steps (fst (snd turn))) = map text (steps session) /\
  cursor_on_step (fst (snd turn)) /\
  ((snd (snd turn) = HttpError 500 /\ stores_null env (o_interaction o) = true) \/
   (exists r,
      snd (snd turn) = HttpOk r /\
      total_steps r = len session /\
      0 <= step_index r < len session)).

(** X12.  With a cursor that is not negative, [/step] answers 400 without
    running a stage when no step is left.  Otherwise the session it
    stores has the same steps with the same texts and its cursor on one
    of them, and it answers 200 with the number of steps of the session
    as total and an index within the steps; the only other answer is 500,
    and only when the client exists and the interaction analysis of the
    step to present answered a [null] [requires_click], which the
    response model refuses. *)
Theorem step_answers_within_the_steps :
  forall env o session d shot,
    0 <= current_step_index session ->
    let turn := step env o session d shot in
    (len session <= current_step_index session /\
     fst turn = [] /\ snd (snd turn) = HttpError 400) \/
    answers_within env o session turn.
Proof.
  intros env o session d shot Hnn turn.
  destruct (Z.le_gt_cases (len session) (current_step_index session)) as [Hout|Hin].
  - left. split; [exact Hout|]. subst turn. unfold step.
    fold (with_request session d shot).
    destruct (with_request_cursor session d shot) as (Hs & Hi & _ & _).
    rewrite Hs, Hi.
    replace (Z.of_nat (List.length (steps session)) <=? current_step_index session)
      with true by (symmetry; apply Z.leb_le; exact Hout).
    split; reflexivity.
  - right. assert (Hon : cursor_on_step session) by (split; assumption).
    destruct (with_request_cursor session d shot) as (Hws & Hwi & _ & _).
    unfold answers_within.
    destruct (contains "cancel" (lower d)) eqn:Hc.
    + subst turn. unfold step. fold (with_request session d shot).
      rewrite Hws, Hwi.
      replace (Z.of_nat (List.length (steps session)) <=? current_step_index session)
        with false by (symmetry; apply Z.leb_gt; apply Hon).
      destruct (current_step_ok (with_request session d shot)) as [s Hcs].
      { unfold cursor_on_step, len. rewrite Hws, Hwi. exact Hon. }
      rewrite Hcs, Hc. cbn [fst snd done].
      split; [now rewrite Hws|].
      split; [unfold cursor_on_step, len; rewrite Hws, Hwi; exact Hon|].
      right. eexists. split; [reflexivity|]. cbn [total_steps step_index].
      unfold cursor_on_step, len in *. repeat split; lia.
    + subst turn. rewrite (step_unfold env o session d shot Hon Hc).
      destruct (stage_input_fields session d shot) as (Hs & Hi & Ha & Hq).
      assert (Hon0 : cursor_on_step (stage_input session d shot)).
      { unfold cursor_on_step, len. rewrite Hs, Hi. exact Hon. }
      destruct (run_decision_returns env o _ d Hon0)
        as (result & Hr & Hrs & _ & Hron & Hadv & Hstay & _).
      rewrite (try_ok _ _ _ _ Hr).
      assert (Hlen : len result = len session) by (unfold len; now rewrite Hrs, Hs).
      assert (Hcompl : answers_within env o session (answer_completion env o result d)).
      { destruct (answer_completion_in_range env o result d Hron) as (H1 & H2 & H3).
        unfold answers_within. rewrite <- Hlen, <- Hs, <- Hrs. auto. }
      assert (Hnext : action_required result <> Some WaitTaskCompletionChoice ->
               answers_within env o session
                 (present_next env o result (current_step_index session))).
      { intros Hact.
        assert (Hne : current_step_index result <> current_step_index session).
        { destruct (Z.lt_ge_cases (current_step_index session) (len session - 1)) as [Hl|Hl].
          - destruct Hadv as [Hx _]; [unfold len in *; rewrite Hs, Hi; exact Hl|].
            rewrite Hx, Hi. lia.
          - destruct Hstay as [_ Hx]; [unfold len in *; rewrite Hs, Hi; lia|].
            contradiction. }
        destruct (present_next_presents env o result _ Hron Hne) as (Hk & Ht & Hans).
        split; [rewrite Ht, Hrs, Hs; reflexivity|].
        split; [eapply keeps_cursor_on_step; eauto|].
        destruct Hans as [(Hnull & _ & H500)|(r & H1 & H2 & H3 & _)].
        - left. split; assumption.
        - right. exists r. split; [exact H1|]. split; [congruence|].
          rewrite H2, <- Hlen. exact Hron. }
      unfold answers_within in Hcompl, Hnext.
      destruct (action_required result) as [[| | |]|];
        try exact Hcompl; apply Hnext; discriminate.
Qed.

Lemma step_answers_within_the_steps_witness :
  0 <= current_step_index guided_state /\
  let turn := step env_with_client (bare_script 0) guided_state "next" None in
  (len guided_state <= current_step_index guided_state /\
   fst turn = [] /\ snd (snd turn) = HttpError 400) \/
  answers_within env_with_client (bare_script 0) guided_state turn.
Proof.
  split; [cbn; lia|].
  apply (step_answers_within_the_steps env_with_client (bare_script 0) guided_state
           "next" None).
  cbn. lia.
Defined.

(** X13.  Before the last step, a decision that is not a cancellation
    moves the cursor to the following step, whatever the validation of
    the screenshot has answered, and the reply presents that step ("Step
    i+2 of n:" and its text).  The one exception: when the following step
    is not the last and its interaction analysis answered a [null]
    [requires_click] (the client existing), the cursor has moved but the
    answer is the status 500. *)
Theorem step_presents_the_following_step :
  forall env o session d shot,
    cursor_on_step session ->
    current_step_index session < len session - 1 ->
    action_required session <> Some WaitTaskCompletionChoice ->
    contains "cancel" (lower d) = false ->
    let turn := step env o session d shot in
    current_step_index (fst (snd turn)) = current_step_index session + 1 /\
    ((stores_null env (o_interaction o) = true /\
      current_step_index session + 1 < len session - 1 /\
      snd (snd turn) = HttpError 500) \/
     (exists r next tail,
        snd (snd turn) = HttpOk r /\
        step_index r = current_step_index session + 1 /\
        PyList.index (steps session) (current_step_index session + 1) = Some next /\
        step_text r
        = (step_header (current_step_index session + 2) (len session) ++ nl
           ++ text_fmt next ++ tail)%string)).
Proof.
  intros env o session d shot Hon Hlt Hact Hc turn. subst turn.
  rewrite (step_unfold env o session d shot Hon Hc).
  destruct (stage_input_fields session d shot) as (Hs & Hi & Ha & Hq).
  assert (Hon0 : cursor_on_step (stage_input session d shot)).
  { unfold cursor_on_step, len. rewrite Hs, Hi. exact Hon. }
  destruct (run_decision_returns env o _ d Hon0)
    as (result & Hr & Hrs & _ & Hron & Hadv & _).
  destruct Hadv as [Hidx Hra]; [unfold len in *; rewrite Hs, Hi; exact Hlt|].
  rewrite Hi in Hidx. rewrite Ha in Hra.
  assert (Hlen : len result = len session) by (unfold len; now rewrite Hrs, Hs).
  assert (Hne : current_step_index result <> current_step_index session) by lia.
  destruct (present_next_presents env o result _ Hron Hne) as (Hk & _ & Hans).
  assert (Hturn : snd (try_ (with_request session d shot)
                    (run_decision env o (stage_input session d shot) d)
                    (fun result0 =>
                       match action_required result0 with
                       | Some WaitTaskCompletionChoice =>
                         answer_completion env o result0 d
                       | _ => present_next env o result0 (current_step_index session)
                       end))
                  = snd (present_next env o result (current_step_index session))).
  { rewrite (try_ok _ _ _ _ Hr). rewrite Hra.
    destruct (action_required session) as [[| | |]|]; try reflexivity.
    now contradiction Hact. }
  rewrite Hturn.
  split; [destruct Hk as [_ Hk]; congruence|].
  destruct Hans as [(Hnull & Hnl & H500)|(r & H1 & H2 & _ & (cur & tail & Hcur & Htext) & _)].
  - left. split; [exact Hnull|]. split; [|exact H500].
    unfold cursor_on_step in Hron. lia.
  - right. exists r, cur, tail.
    split; [exact H1|]. split; [congruence|]. split.
    + apply current_step_index_of in Hcur. rewrite Hrs, Hs, Hidx in Hcur. exact Hcur.
    + rewrite Htext, Hlen, Hidx.
      replace (current_step_index session + 1 + 1) with (current_step_index session + 2)
        by lia.
      reflexivity.
Qed.

Lemma step_presents_the_following_step_witness :
  let session := set_current_step_index guided_state 0 in
  let turn := step env_with_client (bare_script 0) session "next" None in
  current_step_index (fst (snd turn)) = 0 + 1 /\
  ((stores_null env_with_client (o_interaction (bare_script 0)) = true /\
    0 + 1 < len session - 1 /\
    snd (snd turn) = HttpError 500) \/
   (exists r next tail,
      snd (snd turn) = HttpOk r /\
      step_index r = 0 + 1 /\
      PyList.index three_steps (0 + 1) = Some next /\
      step_text r = (step_header (0 + 2) 3 ++ nl ++ text_fmt next ++ tail)%string)).
Proof.
  apply (step_presents_the_following_step env_with_client (bare_script 0)
           (set_current_step_index guided_state 0) "next" None).
  - split; cbn; lia.
  - cbn. lia.
  - cbn. discriminate.
  - vm_compute. reflexivity.
Defined.

Lemma with_request_twice session d shot d' shot' :
  truthy_opt shot = false \/ truthy_opt shot' = true ->
  with_request (with_request session d shot) d' shot' = with_request session d' shot'.
Proof.
  unfold with_request. intros [H|H]; rewrite H; [|destruct (truthy_opt shot)];
    destruct session; reflexivity.
Qed.

Lemma step_of_request env o session d shot :
  step env o session d shot = step env o (with_request session d shot) d shot.
Proof.
  unfold step. fold (with_request session d shot).
  fold (with_request (with_request session d shot) d shot).
  rewrite with_request_twice; [reflexivity|].
  destruct (truthy_opt shot); auto.
Qed.

(** X14.  A cancellation runs no stage and only records the request: the
    next decision is answered as if the cancellation had not been sent
    (provided the cancellation carried no screenshot, or the next
    decision carries one). *)
Theorem cancelled_decision_is_forgotten :
  forall env o session d shot d' shot',
    cursor_on_step session ->
    contains "cancel" (lower d) = true ->
    truthy_opt shot = false \/ truthy_opt shot' = true ->
    let cancelled := step env o session d shot in
    fst cancelled = [] /\
    (exists r, snd (snd cancelled) = HttpOk r /\
               step_index r = current_step_index session /\
               step_action_required r = None) /\
    step env o (fst (snd cancelled)) d' shot' = step env o session d' shot'.
Proof.
  intros env o session d shot d' shot' Hon Hc Hshot cancelled.
  assert (E : cancelled
              = ([], (with_request session d shot,
                      HttpOk {| step_text := "Task cancelled.";
                                step_index := current_step_index session;
                                total_steps := len session;
                                step_requires_click := false;
                                step_button_coords := None;
                                step_action_required := None |}))).
  { subst cancelled. unfold step. fold (with_request session d shot).
    destruct (with_request_cursor session d shot) as (Hs & Hi & _ & _).
    rewrite Hs, Hi. fold (len session).
    replace (len session <=? current_step_index session)
      with false by (symmetry; apply Z.leb_gt; apply Hon).
    destruct (current_step_ok (with_request session d shot)) as [s Hcs].
    { unfold cursor_on_step, len. rewrite Hs, Hi. exact Hon. }
    rewrite Hcs, Hc. reflexivity. }
  rewrite E. cbn [fst snd]. split; [reflexivity|]. split; [eauto|].
  rewrite (step_of_request env o (with_request session d shot) d' shot').
  rewrite (step_of_request env o session d' shot').
  now rewrite with_request_twice.
Qed.

Lemma cancelled_decision_is_forgotten_witness :
  let cancelled := step env_with_client (bare_script 0) guided_state "cancel" None in
  fst cancelled = [] /\
  (exists r, snd (snd cancelled) = HttpOk r /\
             step_index r = current_step_index guided_state /\
             step_action_required r = None) /\
  step env_with_client (bare_script 0) (fst (snd cancelled)) "next" None
  = step env_with_client (bare_script 0) guided_state "next" None.
Proof.
  apply (cancelled_decision_is_forgotten env_with_client (bare_script 0) guided_state
           "cancel" None "next" None).
  - split; cbn; lia.
  - vm_compute. reflexivity.
  - left. reflexivity.
Defined.

(** X15.  On the last step, a decision that holds neither "cancel" nor an
    affirmative nor a negative keyword is answered by presenting the last
    step again with the completion question; the steps and the cursor stay
    and the session awaits the completion answer. *)
Theorem unclear_completion_answer_asks_again :
  forall env o session d shot,
    cursor_on_step session ->
    current_step_index session = len session - 1 ->
    contains "cancel" (lower d) = false ->
    any_in yes_keywords (lower d) = false ->
    any_in no_keywords (lower d) = false ->
    let turn := step env o session d shot in
    steps (fst (snd turn)) = steps session /\
    current_step_index (fst (snd turn)) = current_step_index session /\
    action_required (fst (snd turn)) = Some WaitTaskCompletionChoice /\
    exists r last,
      snd (snd turn) = HttpOk r /\
      step_index r = len session - 1 /\
      step_action_required r = Some WaitTaskCompletionChoice /\
      PyList.index (steps session) (len session - 1) = Some last /\
      step_text r
      = (step_header (len session) (len session) ++ nl ++ text_fmt last ++ nl ++ nl
         ++ completion_questions (detect_language env (user_query session)))%string.
Proof.
  intros env o session d shot Hon Hlast Hc Hy Hn turn. subst turn.
  rewrite (step_unfold env o session d shot Hon Hc).
  destruct (stage_input_fields session d shot) as (Hs & Hi & Ha & Hq).
  assert (Hon0 : cursor_on_step (stage_input session d shot)).
  { unfold cursor_on_step, len. rewrite Hs, Hi. exact Hon. }
  destruct (run_decision_returns env o _ d Hon0)
    as (result & Hr & Hrs & Hrq & Hron & _ & Hstay & _).
  destruct Hstay as [Hidx Hra]; [unfold len in *; rewrite Hs, Hi; lia|].
  rewrite Hi in Hidx. rewrite Hs in Hrs. rewrite Hq in Hrq.
  rewrite (try_ok _ _ _ _ Hr), Hra.
  unfold answer_completion. rewrite Hy, Hn, Hrs, Hrq. fold (len session).
  destruct (last_step_ok (steps session)) as (l & Hl & Hpos).
  { unfold cursor_on_step, len in Hon. lia. }
  rewrite try_lift, Hl. cbn [fst snd done].
  repeat split; auto.
  exists {| step_text :=
              (step_header (len session) (len session) ++ nl ++ text_fmt l ++ nl ++ nl
               ++ completion_questions (detect_language env (user_query session)))%string;
            step_index := len session - 1;
            total_steps := len session;
            step_requires_click := false;
            step_button_coords := None;
            step_action_required := Some WaitTaskCompletionChoice |}, l.
  repeat split. exact Hpos.
Qed.

Lemma unclear_completion_answer_asks_again_witness :
  let turn := step env_with_client (bare_script 0) confirming_state "hmm" None in
  steps (fst (snd turn)) = steps confirming_state /\
  current_step_index (fst (snd turn)) = current_step_index confirming_state /\
  action_required (fst (snd turn)) = Some WaitTaskCompletionChoice /\
  exists r last,
    snd (snd turn) = HttpOk r /\
    step_index r = len confirming_state - 1 /\
    step_action_required r = Some WaitTaskCompletionChoice /\
    PyList.index (steps confirming_state) (len confirming_state - 1) = Some last /\
    step_text r
    = (step_header (len confirming_state) (len confirming_state) ++ nl
       ++ text_fmt last ++ nl ++ nl
       ++ completion_questions
            (detect_language env_with_client (user_query confirming_state)))%string.
Proof.
  apply (unclear_completion_answer_asks_again env_with_client (bare_script 0)
           confirming_state "hmm" None).
  - split; cbn; lia.
  - reflexivity.
  - vm_compute. reflexivity.
  - vm_compute. reflexivity.
  - vm_compute. reflexivity.
Defined.

(** ** /chat/step-by-step *)

Lemma generate_full_answer_for_supplied env reply state :
  answer_supplied state ->
  exists result,
    outcome (generate_full_answer env reply state) = Ok result /\
    full_answer result = full_answer state /\
    user_query result = user_query state.
Proof.
  intros [Ha Hc]. unfold generate_full_answer. rewrite Ha, Hc. cbn [andb].
  destruct (client env); cbn [negb]; [|eexists; split; [reflexivity|split; reflexivity]].
  rewrite outcome_bind_call.
  destruct reply as [msg|e raw]; [eexists; split; [reflexivity|split; reflexivity]|].
  destruct (fill_steps_existing raw) as [ss|];
    [destruct (previews_ok ss)|]; eexists; (split; [reflexivity|split; reflexivity]).
Qed.

Lemma detect_interaction_type_fields env reply state state' :
  outcome (detect_interaction_type env reply state) = Ok state' ->
  mode state' = mode state /\ full_answer state' = full_answer state /\
  user_query state' = user_query state.
Proof. unfold detect_interaction_type. intros H. peel H; repeat split. Qed.

Lemma first_of_steps state s :
  current_step state = Ok s -> current_step_index state = 0 ->
  exists rest, steps state = s :: rest.
Proof.
  unfold current_step. intros H Hi. rewrite Hi in H.
  destruct (steps state) as [|x rest]; [discriminate|].
  cbn in H. injection H as <-. now exists rest.
Qed.

Lemma append_assoc (a b c : string) : ((a ++ b) ++ c = a ++ (b ++ c))%string.
Proof. induction a; cbn; congruence. Qed.

(** [wait_user_action] with the cursor on a step. *)
Lemma wait_user_action_on_step state :
  cursor_on_step state ->
  exists current tail,
    current_step state = Ok current /\
    outcome (wait_user_action state)
    = Ok (set_response_text (set_action_required state (Some WaitUserAction))
            (Some (step_header (current_step_index state + 1) (len state) ++ nl
                   ++ text_or_empty current ++ tail)%string)).
Proof.
  intros Hon. destruct (current_step_ok state Hon) as [cur Hcur].
  unfold wait_user_action.
  set (st := set_action_required state (Some WaitUserAction)).
  assert (Hn : no_current_step st = false).
  { unfold no_current_step. change (steps st) with (steps state).
    change (len st) with (len state).
    change (current_step_index st) with (current_step_index state).
    destruct (steps state) eqn:E.
    - unfold cursor_on_step, len in Hon. rewrite E in Hon. cbn in Hon. lia.
    - apply Z.leb_gt. apply Hon. }
  rewrite Hn. cbn [negb]. rewrite outcome_bind_lift.
  change (current_step st) with (current_step state). rewrite Hcur.
  change (len st) with (len state).
  change (current_step_index st) with (current_step_index state).
  exists cur. destruct (button_coords cur) as [c|].
  - eexists. split; [reflexivity|]. cbn [outcome ret fst snd].
    rewrite !append_assoc. reflexivity.
  - exists ""%string. split; [reflexivity|]. rewrite append_empty_r. reflexivity.
Qed.

(** X17.  [/chat/step-by-step] with a non-empty answer never fails: it
    keeps the answer and the message in the session, and either reports
    that no step could be extracted, giving the length of the answer and
    leaving the session as prepared, or starts the delivery: first step
    under the cursor, presented as "Step 1 of n:", the session in
    step-by-step mode awaiting the user's action. *)
Theorem step_by_step_start_delivers_first_step :
  forall env o session_id existing request,
    truthy (rag_answer request) = true ->
    let out := chat_step_by_step env o session_id existing request in
    full_answer (snd out) = Some (rag_answer request) /\
    user_query (snd out) = message request /\
    ((snd out = prepare_step_by_step session_id existing request /\
      fst out
      = HttpOk {| response :=
                    ("Failed to extract steps from answer. Answer length: "
                     ++ str_of_Z (py_len (rag_answer request))
                     ++ " characters. Please try again.")%string;
                  chat_mode := simple;
                  chat_steps := None;
                  chat_action_required := None |}) \/
     (exists first rest tail,
        steps (snd out) = first :: rest /\
        current_step_index (snd out) = 0 /\
        mode (snd out) = step_by_step /\
        action_required (snd out) = Some WaitUserAction /\
        fst out
        = HttpOk {| response :=
                      (step_header 1 (len (snd out)) ++ nl
                       ++ text_or_empty first ++ tail)%string;
                    chat_mode := step_by_step;
                    chat_steps := Some (first :: rest);
                    chat_action_required := Some WaitUserAction |})).
Proof.
  intros env o session_id existing request Hrag out. subst out.
  unfold chat_step_by_step.
  set (session := prepare_step_by_step session_id existing request).
  set (initial_state := set_response_text _ None).
  assert (Hfa : full_answer session = Some (rag_answer request))
    by (destruct existing; reflexivity).
  assert (Hq : user_query session = message request)
    by (destruct existing; reflexivity).
  assert (Hsup : answer_supplied initial_state).
  { split; [|reflexivity]. change (full_answer initial_state) with (full_answer session).
    rewrite Hfa. exact Hrag. }
  destruct (generate_full_answer_for_supplied env (o_generate o) initial_state Hsup)
    as (result & Hr & Hrfa & Hrq).
  change (full_answer initial_state) with (full_answer session) in Hrfa.
  change (user_query initial_state) with (user_query session) in Hrq.
  rewrite Hr, Hrfa, Hfa.
  destruct (steps result) as [|f fs] eqn:Hsteps.
  - cbn [fst snd]. split; [exact Hfa|]. split; [exact Hq|]. left. split; reflexivity.
  - set (started := step_agent_start result).
    assert (Hst : started
                  = set_response_text
                      (set_current_step_index (set_mode result step_by_step) 0)
                      (Some (step_header 1 (len result) ++ nl ++ text_fmt f)%string)).
    { subst started. unfold step_agent_start. now rewrite Hsteps. }
    assert (Hon : cursor_on_step started).
    { rewrite Hst. unfold cursor_on_step, len. cbn. rewrite Hsteps. cbn. lia. }
    destruct (detect_interaction_type_returns env (o_interaction o) started Hon)
      as [r2 Hr2].
    pose proof (detect_interaction_type_keeps_cursor _ _ _ _ Hr2) as Hk.
    destruct (detect_interaction_type_fields _ _ _ _ Hr2) as (Hm & Hf2 & Hq2).
    pose proof (keeps_cursor_on_step _ _ Hk Hon) as Hon2.
    destruct (wait_user_action_on_step r2 Hon2) as (cur & tail & Hcur & Hw).
    assert (Hi2 : current_step_index r2 = 0).
    { destruct Hk as [_ Hk]. rewrite Hk, Hst. reflexivity. }
    destruct (first_of_steps r2 cur Hcur Hi2) as [rest Hrest].
    assert (Hout : outcome (result0 <- detect_interaction_type env (o_interaction o) started ;;
                            wait_user_action result0)
                   = Ok (set_response_text (set_action_required r2 (Some WaitUserAction))
                           (Some (step_header 1 (len r2) ++ nl
                                  ++ text_or_empty cur ++ tail)%string))).
    { revert Hr2 Hw. unfold outcome, bind.
      destruct (detect_interaction_type env (o_interaction o) started) as [t [a|e]];
        cbn [fst snd]; [|discriminate].
      intros [= ->]. destruct (wait_user_action r2) as [t' r']. cbn [fst snd].
      intros ->. rewrite Hi2. reflexivity. }
    rewrite Hout.
    cbn [fst snd response_text set_response_text set_action_required full_answer
         user_query steps mode action_required current_step_index truthy_opt or_empty].
    rewrite Hf2, Hq2, Hm, Hrest, Hst.
    cbn [full_answer user_query mode set_response_text set_current_step_index set_mode].
    split; [congruence|]. split; [congruence|]. right.
    exists cur, rest, tail. split; [reflexivity|]. split; [exact Hi2|].
    split; [reflexivity|]. split; [reflexivity|].
    assert (Ht : truthy (step_header 1 (len r2) ++ nl ++ text_or_empty cur ++ tail) = true)
      by reflexivity.
    rewrite Ht. unfold len. cbn [steps set_response_text set_action_required].
    rewrite Hrest. reflexivity.
Qed.

Definition start_request : ChatRequest :=
  {| message := "How do I add an audio effect?";
     request_session_id := None;
     request_edition := "Ableton Live Suite";
     request_screenshot_url := None;
     rag_answer := "1. Open the browser. 2. Drag the effect onto the track." |}.

Lemma step_by_step_start_delivers_first_step_witness :
  full_answer (snd (chat_step_by_step env_with_client (long_script 0) "s7" None start_request))
  = Some (rag_answer start_request).
Proof.
  apply (step_by_step_start_delivers_first_step env_with_client (long_script 0) "s7" None
           start_request).
  reflexivity.
Defined.

(** ** Retrieval *)

(** [ds] are the dictionaries of the chunks that [index[:k]] keeps of a
    reordering of [index]: [min(k, n)] chunks for [k >= 0], and all but
    the last [-k] for [k < 0]. *)
Definition cut_of (index : list Rag.Chunk) (k : Z) (ds : list Rag.Dict) : Prop :=
  exists top rest,
    ds = map Rag._chunk_to_dict top /\
    Permutation (top ++ rest) index /\
    (0 <= k -> Z.of_nat (List.length ds) = Z.min k (Z.of_nat (List.length index))) /\
    (k < 0 -> Z.of_nat (List.length ds) = Z.max 0 (Z.of_nat (List.length index) + k)).

Lemma slice_to_split {A} (l : list A) (k : Z) :
  exists rest,
    l = (PyList.slice_to l k ++ rest)%list /\
    (0 <= k -> Z.of_nat (List.length (PyList.slice_to l k))
               = Z.min k (Z.of_nat (List.length l))) /\
    (k < 0 -> Z.of_nat (List.length (PyList.slice_to l k))
              = Z.max 0 (Z.of_nat (List.length l) + k)).
Proof.
  unfold PyList.slice_to. destruct (0 <=? k) eqn:E.
  - apply Z.leb_le in E. exists (skipn (Z.to_nat k) l).
    split; [symmetry; apply firstn_skipn|]. split; [|lia].
    intros _. rewrite length_firstn. lia.
  - apply Z.leb_gt in E. exists (skipn (Z.to_nat (Z.of_nat (List.length l) + k)) l).
    split; [symmetry; apply firstn_skipn|]. split; [lia|].
    intros _. rewrite length_firstn. lia.
Qed.

Lemma top_matches_cut q index k :
  cut_of index k
    (map Rag._chunk_to_dict
       (map fst (PyList.slice_to (Rag.sort_desc (scored q index)) k))).
Proof.
  set (sorted := Rag.sort_desc (scored q index)).
  destruct (slice_to_split sorted k) as (rest & Hsplit & Hpos & Hneg).
  assert (Hlen : List.length sorted = List.length index).
  { unfold sorted. rewrite (Permutation_length (sort_desc_perm _)).
    unfold scored. apply length_map. }
  exists (map fst (PyList.slice_to sorted k)), (map fst rest).
  split; [reflexivity|]. split.
  - rewrite <- map_app, <- Hsplit.
    pose proof (Permutation_map fst (sort_desc_perm (scored q index))) as Hp.
    rewrite scored_fst in Hp. exact Hp.
  - rewrite !length_map, <- Hlen. split; assumption.
Qed.

(** X18.  For every store, query and pair of bounds, [retrieve] returns
    for each index the dictionaries of distinct positions of that index,
    exactly [min(k, n)] of them when the bound [k] is not negative and
    all but [-k] of them when it is; no similarity needs to be a number
    for this. *)
Theorem retrieve_returns_a_cut_of_each_index :
  forall kv store q edition k,
    exists result,
      fst (Rag.retrieve kv store q edition k) = Ok result /\
      cut_of (Rag.full_index store) k (Rag.full result) /\
      cut_of (Rag.versions_index store) kv (Rag.versions result).
Proof.
  intros kv store q edition k. rewrite retrieve_returns. cbn [fst].
  eexists. split; [reflexivity|]. cbn [Rag.full Rag.versions].
  split; apply top_matches_cut.
Qed.

(** X24.  The retrieval stage always returns: it asks for one embedding,
    calls nothing else, and stores as selected chunks the dictionaries of
    [min(5, n)] distinct positions of the full index, leaving the rest of
    the session as it was. *)
Theorem retrieval_stage_selects_five :
  forall env q state,
    exists selected,
      retrieve_from_vectorstore env q state
      = ([CallEmbedding], Ok (set_selected_chunks state selected)) /\
      cut_of (Rag.full_index (rag_store env)) 5 selected.
Proof.
  intros env q state. unfold retrieve_from_vectorstore.
  rewrite retrieve_returns. cbn [fst].
  eexists. split; [reflexivity|]. cbn [Rag.full]. apply top_matches_cut.
Qed.

(** ** The language of the query *)

Lemma zero_quotient_not_above_tenth (x : float) :
  PrimFloat.ltb 0x1.999999999999ap-4%float (PrimFloat.div 0%float x) = false.
Proof.
  rewrite ltb_spec, div_spec.
  change (Prim2SF 0%float) with (S754_zero false).
  destruct (Prim2SF x) as [s|s| |s m e]; try destruct s; vm_compute; reflexivity.
Qed.

(** X19.  A text without a character of the Cyrillic block (no UTF-8
    lead byte 0xD0..0xD3) is taken for English, whatever the number of
    its letters. *)
Theorem text_without_cyrillic_is_english :
  forall env text,
    cyrillic_count text = 0 ->
    detect_language env text = en.
Proof.
  intros env text Hc. unfold detect_language.
  destruct (negb (truthy text)); [reflexivity|].
  destruct (0 <? count_alpha env text); [|reflexivity].
  rewrite Hc. change (float_of_Z 0) with 0%float.
  now rewrite zero_quotient_not_above_tenth.
Qed.

(** An environment that counts the letters of an ASCII text. *)
Definition ascii_letters (s : string) : Z :=
  Z.of_nat
    (List.length
       (filter (fun c => let n := nat_of_ascii c in
                         ((Nat.leb 65 n && Nat.leb n 90)
                          || (Nat.leb 97 n && Nat.leb n 122))%bool)
               (list_ascii_of_string s))).

Definition env_counting_letters : Env :=
  {| client := true;
     rag_store := {| Rag.full_index := []; Rag.versions_index := [] |};
     VERSION_CHECK_TOP_K := 2;
     count_alpha := ascii_letters |}.

Lemma text_without_cyrillic_is_english_witness :
  detect_language env_counting_letters "How do I add an audio effect?" = en.
Proof.
  apply (text_without_cyrillic_is_english env_counting_letters
           "How do I add an audio effect?").
  reflexivity.
Defined.

(** ** The message "show_button" *)

Lemma analyze_screenshot_for_button_fields env reply state state' :
  outcome (analyze_screenshot_for_button env reply state) = Ok state' ->
  user_query state' = user_query state /\
  action_required state' = action_required state /\
  mode state' = mode state /\
  map text (steps state') = map text (steps state).
Proof.
  unfold analyze_screenshot_for_button. intros H.
  peel H; repeat split;
    cbn [steps update_current_step set_steps set_response_text];
    unfold PyList.update; try (apply update_nth_texts; intros []; reflexivity).
Qed.

Lemma cursor_on_step_has_step state :
  cursor_on_step state -> no_current_step state = false.
Proof.
  intros Hon. unfold no_current_step. destruct (steps state) eqn:E.
  - unfold cursor_on_step, len in Hon. rewrite E in Hon. cbn in Hon. lia.
  - apply Z.leb_gt. apply Hon.
Qed.

(** X20.  The message "show_button" with a screenshot, for a session
    whose cursor is on a step, is answered outside the workflow: the
    query, the cursor and the texts of the steps stay, the session awaits
    the user's action, and the response gives the coordinates stored on
    the current step, or the fixed sentence when there are none. *)
Theorem show_button_locates_without_moving :
  forall env script session_id session request,
    cursor_on_step session ->
    lower (message request) = "show_button" ->
    truthy_opt (request_screenshot_url request) = true ->
    let out := chat_request env script session_id (Some session) request in
    user_query (snd out) = user_query session /\
    keeps_cursor session (snd out) /\
    map text (steps (snd out)) = map text (steps session) /\
    action_required (snd out) = Some WaitUserAction /\
    exists current,
      current_step (snd out) = Ok current /\
      fst out
      = HttpOk {| response :=
                    match button_coords current with
                    | Some coords =>
                      ("Button found at coordinates: x=" ++ str_of_Z (coord_x coords)
                       ++ ", y=" ++ str_of_Z (coord_y coords))%string
                    | None => "Button found! See the highlight on screen."
                    end;
                  chat_mode := step_by_step;
                  chat_steps := Some (steps (snd out));
                  chat_action_required := Some WaitUserAction |}.
Proof.
  intros env script session_id session request Hon Hmsg Hshot out. subst out.
  unfold chat_request. rewrite Hmsg, Hshot. cbn [String.eqb andb].
  replace (String.eqb "show_button" "show_button") with true by reflexivity.
  cbv iota. unfold show_button.
  set (stored := set_ableton_edition _ _).
  set (state := set_response_text _ None).
  assert (Hon0 : cursor_on_step state) by exact Hon.
  destruct (analyze_screenshot_for_button_returns env (o_locate (script O)) state)
    as [result Hr]; [apply Hon|].
  pose proof (analyze_screenshot_for_button_keeps_cursor _ _ _ _ Hr) as Hk.
  destruct (analyze_screenshot_for_button_fields _ _ _ _ Hr) as (Hq & Ha & _ & Ht).
  pose proof (keeps_cursor_on_step _ _ Hk Hon0) as Honr.
  rewrite Hr, (cursor_on_step_has_step result Honr). cbn [negb].
  destruct (current_step_ok result Honr) as [cur Hcur]. rewrite Hcur.
  cbn [fst snd]. repeat split; try assumption; try apply Hk.
  exists cur. split; [exact Hcur|]. reflexivity.
Qed.

Definition show_button_request : ChatRequest :=
  {| message := "Show_Button";
     request_session_id := Some "s1";
     request_edition := "Ableton Live Suite";
     request_screenshot_url := Some "/tmp/screen.png";
     rag_answer := "" |}.

Lemma show_button_locates_without_moving_witness :
  user_query (snd (chat_request env_with_client bare_script "s1" (Some guided_state)
                     show_button_request))
  = user_query guided_state.
Proof.
  apply (show_button_locates_without_moving env_with_client bare_script "s1"
           guided_state show_button_request).
  - split; cbn; lia.
  - vm_compute. reflexivity.
  - reflexivity.
Defined.

(** ** The request in the session *)

(** [state'] holds the request of [state]: identifier, query, edition
    and screenshot. *)
Definition same_request (state state' : AgentState) : Prop :=
  session_id state' = session_id state /\
  user_query state' = user_query state /\
  ableton_edition state' = ableton_edition state /\
  screenshot_url state' = screenshot_url state.

Lemma same_request_refl state : same_request state state.
Proof. repeat split. Qed.

Lemma same_request_trans a b c :
  same_request a b -> same_request b c -> same_request a c.
Proof.
  unfold same_request. intros (H1 & H2 & H3 & H4) (K1 & K2 & K3 & K4).
  repeat split; congruence.
Qed.

Lemma handler_keeps_request env n o state state' :
  outcome (handler env n o state) = Ok state' -> same_request state state'.
Proof.
  intros H. destruct n; cbn [handler] in H.
  - unfold detect_user_intent in H. peel H; repeat split.
  - unfold check_ableton_version in H. peel H; repeat split.
  - cbn in H. injection H as <-. unfold wait_for_version_choice.
    destruct (truthy_opt _); repeat split.
  - unfold retrieve_from_vectorstore in H. peel H; repeat split.
  - unfold generate_full_answer in H. peel H; repeat split.
  - cbn in H. injection H as <-. unfold wait_for_user_step_choice.
    destruct (truthy _); [destruct (_ || _); [|destruct (_ || _)]|destruct (steps state)];
      repeat split.
  - cbn in H. injection H as <-. unfold step_agent_start.
    destruct (steps state); repeat split.
  - unfold detect_interaction_type in H. peel H; repeat split.
  - unfold analyze_screenshot_for_button in H. peel H; repeat split.
  - unfold wait_user_action in H. peel H; repeat split.
  - unfold optional_validate_step in H. peel H; repeat split.
  - cbn in H. injection H as <-. unfold next_step_or_finish.
    destruct (steps state); [|destruct (_ <? _)]; repeat split.
  - unfold Nodes.final_confirmation in H. peel H; repeat split.
  - unfold fallback_review_steps in H. peel H; repeat split.
Qed.

Lemma consume_keeps_request env script session :
  forall fuel n i state it init result k,
    same_request session state -> same_request session init ->
    consume (stream_from fuel env script i n state) it init = Ok (result, k) ->
    same_request session result.
Proof.
  induction fuel as [|fuel IH]; intros n i state it init result k Hs Hi H;
    [discriminate H|].
  cbn [stream_from] in H.
  destruct (outcome (handler env n (script i) state)) as [state'|e] eqn:Hh;
    [|discriminate H].
  pose proof (same_request_trans _ _ _ Hs (handler_keeps_request _ _ _ _ _ Hh)) as Hs'.
  cbn [consume] in H.
  destruct (truthy_action (action_required state') || Nat.leb max_iterations (S it)).
  - injection H as <- _. exact Hs'.
  - destruct (successor n state') as [[n'|]|e]; cbn [consume] in H.
    + eapply IH; [exact Hs'|exact Hs'|exact H].
    + injection H as <- _. exact Hs'.
    + discriminate H.
Qed.

Lemma chat_keeps_request env script session :
  same_request session (snd (chat env script session)).
Proof.
  unfold chat, chat_on_stream.
  destruct (consume (stream env script session) 0 session) as [[result k]|e] eqn:H;
    cbn [snd]; [|apply same_request_refl].
  eapply consume_keeps_request; [| |exact H]; apply same_request_refl.
Qed.

(** X21.  The workflow never rewrites the request.  After a turn of
    [/chat], answered or failed, the session stored holds the edition and
    the screenshot of the request and the identifier it had; its query is
    the message, except that the query asked before is kept when the
    message answers a pending version or step choice, or asks to show the
    button. *)
Theorem chat_stores_the_request :
  forall env script session_id existing request,
    let stored := snd (chat_request env script session_id existing request) in
    ableton_edition stored = request_edition request /\
    screenshot_url stored = request_screenshot_url request /\
    Nodes.session_id stored
    = match existing with Some session => Nodes.session_id session | None => session_id end /\
    user_query stored
    = match existing with
      | None => message request
      | Some session =>
        if String.eqb (lower (message request)) "show_button"
           && truthy_opt (request_screenshot_url request)
        then user_query session
        else match action_required session with
             | Some WaitStepChoice | Some WaitVersionChoice => user_query session
             | _ => message request
             end
      end.
Proof.
  intros env script session_id existing request stored. subst stored.
  unfold chat_request. destruct existing as [session|].
  - destruct (String.eqb (lower (message request)) "show_button"
              && truthy_opt (request_screenshot_url request)).
    + unfold show_button.
      set (stored := set_ableton_edition _ _).
      set (state := set_response_text _ None).
      destruct (outcome (analyze_screenshot_for_button env (o_locate (script O)) state))
        as [result|e] eqn:Hr; [|repeat split].
      destruct (handler_keeps_request env analyze_screenshot (script O) state result Hr)
        as (H1 & H2 & H3 & H4).
      assert (Hres : ableton_edition result = request_edition request /\
                     screenshot_url result = request_screenshot_url request /\
                     Nodes.session_id result = Nodes.session_id session /\
                     user_query result = user_query session)
        by (repeat split; assumption).
      destruct (negb (no_current_step result));
        [destruct (current_step result)|]; exact Hres.
    + destruct (chat_keeps_request env script (receive_message session request))
        as (H1 & H2 & H3 & H4).
      rewrite H1, H2, H3, H4. unfold receive_message.
      destruct (action_required session) as [[| | |]|]; repeat split.
  - destruct (chat_keeps_request env script
                (new_session session_id (message request) (request_edition request)
                   (request_screenshot_url request))) as (H1 & H2 & H3 & H4).
    rewrite H1, H2, H3, H4. repeat split.
Qed.

(** ** The session table *)

Lemma sessions_get_set sessions id session :
  sessions_get (sessions_set sessions id session) id = Some session.
Proof.
  induction sessions as [|[k v] rest IH]; cbn.
  - now rewrite String.eqb_refl.
  - destruct (String.eqb k id) eqn:E; cbn; now rewrite E.
Qed.

Lemma run_decision_mode env o state d result :
  outcome (run_decision env o state d) = Ok result -> mode result = mode state.
Proof.
  assert (Hn : forall s, mode (next_step_or_finish s) = mode s).
  { intros s. unfold next_step_or_finish.
    destruct (steps s); [|destruct (_ <? _)]; reflexivity. }
  unfold run_decision. destruct (contains "skip" (lower d)).
  - cbn. intros [= <-]. apply Hn.
  - unfold outcome, bind, ret.
    destruct (optional_validate_step env (o_validate o) state) as [t [v|e]] eqn:E;
      cbn [fst snd]; [|discriminate].
    intros [= <-]. rewrite Hn.
    assert (Hv : outcome (optional_validate_step env (o_validate o) state) = Ok v)
      by now rewrite E.
    clear E. unfold optional_validate_step in Hv. peel Hv; reflexivity.
Qed.

Lemma final_confirmation_mode env state state' :
  outcome (Nodes.final_confirmation env state) = Ok state' -> mode state' = mode state.
Proof. unfold Nodes.final_confirmation. intros H. peel H; reflexivity. Qed.

(** The session [/step] stores with a response that awaits a further
    decision. *)
Lemma step_in_progress env o session d shot r :
  cursor_on_step session ->
  (action_required session = Some WaitTaskCompletionChoice ->
   current_step_index session = len session - 1) ->
  snd (snd (step env o session d shot)) = HttpOk r ->
  step_action_required r <> None ->
  let stored := fst (snd (step env o session d shot)) in
  mode stored = step_by_step /\
  current_step_index stored = step_index r /\
  len stored = total_steps r /\
  cursor_on_step stored /\
  map text (steps stored) = map text (steps session).
Proof.
  intros Hon Hlast Hr Hact stored. subst stored. revert Hr.
  destruct (with_request_cursor session d shot) as (Hws & Hwi & _ & _).
  destruct (contains "cancel" (lower d)) eqn:Hc.
  { unfold step. fold (with_request session d shot). rewrite Hws, Hwi.
    replace (Z.of_nat (List.length (steps session)) <=? current_step_index session)
      with false by (symmetry; apply Z.leb_gt; apply Hon).
    destruct (current_step_ok (with_request session d shot)) as [s Hcs].
    { unfold cursor_on_step, len. rewrite Hws, Hwi. exact Hon. }
    rewrite Hcs, Hc. cbn [fst snd done]. intros [= <-]. now contradiction Hact. }
  rewrite (step_unfold env o session d shot Hon Hc).
  destruct (stage_input_fields session d shot) as (Hs & Hi & Ha & Hq).
  assert (Hon0 : cursor_on_step (stage_input session d shot)).
  { unfold cursor_on_step, len. rewrite Hs, Hi. exact Hon. }
  destruct (run_decision_returns env o _ d Hon0)
    as (result & Hrun & Hrs & _ & Hron & Hadv & Hstay & _).
  pose proof (run_decision_mode _ _ _ _ _ Hrun) as Hmode.
  change (mode (stage_input session d shot)) with step_by_step in Hmode.
  rewrite Hs in Hrs. unfold len in Hadv, Hstay. rewrite Hs, Hi, Ha in Hadv.
  rewrite Hs, Hi in Hstay.
  fold (len session) in Hadv, Hstay.
  assert (Hlen : len result = len session) by (unfold len; now rewrite Hrs).
  assert (Hcases : (action_required result = Some WaitTaskCompletionChoice /\
                    current_step_index result = len session - 1) \/
                   (action_required result <> Some WaitTaskCompletionChoice /\
                    current_step_index result <> current_step_index session)).
  { destruct (Z.lt_ge_cases (current_step_index session) (len session - 1)) as [Hl|Hl].
    - destruct (Hadv Hl) as [Hx Hy].
      destruct (action_required session) as [[| | |]|] eqn:Eact;
        try (right; split; [rewrite Hy; discriminate|lia]).
      specialize (Hlast eq_refl). lia.
    - destruct Hstay as [Hx Hy]; [lia|]. left. split; [exact Hy|].
      unfold cursor_on_step in Hon. lia. }
  rewrite (try_ok _ _ _ _ Hrun).
  destruct Hcases as [[Hwait Hidx]|[Hnot Hne]].
  - rewrite Hwait. unfold answer_completion. fold (len result). rewrite Hlen.
    destruct (any_in yes_keywords (lower d)).
    { cbn [fst snd done]. intros [= <-]. now contradiction Hact. }
    destruct (any_in no_keywords (lower d)).
    + destruct (first_step_ok (steps result)) as [f Hf].
      { unfold cursor_on_step, len in Hron. lia. }
      rewrite try_lift, Hf.
      set (s0 := set_current_step_index
                   (set_action_required (set_current_step_index result 0)
                      (Some WaitUserAction)) 0).
      assert (Hons : cursor_on_step s0).
      { unfold cursor_on_step, len in *. cbn. lia. }
      destruct (detect_interaction_type_returns env (o_interaction o) s0 Hons) as [r' Hr'].
      pose proof (detect_interaction_type_keeps_cursor _ _ _ _ Hr') as Hk.
      pose proof (detect_interaction_type_texts _ _ _ _ Hr') as Ht.
      destruct (detect_interaction_type_fields _ _ _ _ Hr') as (Hm & _ & _).
      destruct (first_step_ok (steps r')) as [f' Hf'].
      { destruct Hk as [Hl _]. unfold len in Hl. rewrite Hl.
        unfold cursor_on_step, len in Hons. lia. }
      assert (Hturn : forall k : AgentState -> Turn StepResponse,
                 snd (try_ (set_action_required (set_current_step_index result 0)
                              (Some WaitUserAction))
                        (detect_interaction_type env (o_interaction o) s0) k)
                 = snd (k r')).
      { intros k. apply try_ok. exact Hr'. }
      rewrite Hturn, try_lift, Hf', try_lift.
      destruct (step_response _ _ _ _ _) as [resp|] eqn:Eresp; cbn [fst snd done];
        [|discriminate].
      intros [= <-].
      destruct (step_response_fields _ _ _ _ _ _ Eresp) as (_ & Hri & Hrt & _).
      rewrite Hri, Hrt.
      destruct Hk as [Hkl Hki].
      split; [rewrite Hm; exact Hmode|]. split; [rewrite Hki; reflexivity|].
      split; [rewrite Hkl; exact Hlen|].
      split; [eapply keeps_cursor_on_step; [split; eassumption|exact Hons]|].
      rewrite Ht. cbn [steps s0 set_current_step_index set_action_required].
      now rewrite Hrs.
    + destruct (last_step_ok (steps result)) as (l & Hl & _).
      { unfold cursor_on_step, len in Hron. lia. }
      rewrite try_lift, Hl. cbn [fst snd done]. intros [= <-].
      cbn [step_index total_steps].
      repeat split; try assumption; try apply Hron. now rewrite Hrs.
  - assert (Hbranch : forall k : Turn StepResponse,
               match action_required result with
               | Some WaitTaskCompletionChoice => k
               | _ => present_next env o result (current_step_index session)
               end = present_next env o result (current_step_index session)).
    { intros k. destruct (action_required result) as [[| | |]|]; try reflexivity.
      now contradiction Hnot. }
    rewrite Hbranch.
    destruct (present_next_presents env o result _ Hron Hne)
      as (Hk & Ht & [(_ & _ & H500)|(r0 & H1 & H2 & H3 & _)]);
      [rewrite H500; discriminate|].
    assert (Hm : mode (fst (snd (present_next env o result (current_step_index session))))
                 = mode result).
    { unfold present_next.
      replace (current_step_index result =? current_step_index session) with false
        by (symmetry; apply Z.eqb_neq; exact Hne).
      cbn [andb]. cbv iota. fold (len result).
      destruct (current_step_index result =? len result - 1).
      - destruct (final_confirmation_returns env result Hron) as [r' Hr'].
        rewrite (try_ok _ _ _ _ Hr'). cbn [fst snd done].
        eapply final_confirmation_mode; eauto.
      - replace ((current_step_index result <? len result)
                 && (0 <=? current_step_index result)) with true
          by (symmetry; apply andb_true_iff; split;
              [apply Z.ltb_lt|apply Z.leb_le]; apply Hron).
        destruct (detect_interaction_type_returns env (o_interaction o) result Hron)
          as [r' Hr'].
        rewrite (try_ok _ _ _ _ Hr').
        pose proof (detect_interaction_type_keeps_cursor _ _ _ _ Hr') as Hk'.
        destruct (current_step_ok r' (keeps_cursor_on_step _ _ Hk' Hron)) as [s Hs'].
        rewrite try_lift, Hs', try_lift.
        destruct (detect_interaction_type_fields _ _ _ _ Hr') as (Hm & _ & _).
        destruct (step_response _ _ _ _ _); cbn [fst snd done]; exact Hm. }
    rewrite H1. intros [= <-].
    destruct Hk as [Hkl Hki].
    split; [rewrite Hm; exact Hmode|]. split; [congruence|]. split; [congruence|].
    split; [eapply keeps_cursor_on_step; [split; eassumption|exact Hron]|].
    now rewrite Ht, Hrs.
Qed.

(** X23.  The status of a session agrees with the last answer of
    [/step]: when [/step] answers a session whose cursor is on a step (and
    which awaits the completion answer only on its last step) with a
    response that awaits a further decision, [/session/{id}/status]
    reports step-by-step mode, the index and the total of that response,
    and as current step a step with the text the session had at that
    index. *)
Theorem status_agrees_with_step :
  forall env o sessions id session d shot r,
    sessions_get sessions id = Some session ->
    cursor_on_step session ->
    (action_required session = Some WaitTaskCompletionChoice ->
     current_step_index session = len session - 1) ->
    snd (snd (step_endpoint env o sessions id d shot)) = HttpOk r ->
    step_action_required r <> None ->
    exists info before,
      get_session_status (fst (snd (step_endpoint env o sessions id d shot))) id
      = HttpOk {| status_mode := step_by_step;
                  status_current_step := Some (step_index r);
                  status_total_steps := Some (total_steps r);
                  status_current_step_info := Some info |} /\
      PyList.index (steps session) (step_index r) = Some before /\
      text info = text before.
Proof.
  intros env o sessions id session d shot r Hget Hon Hlast Hr Hact.
  unfold step_endpoint in *. rewrite Hget in *.
  pose proof (step_in_progress env o session d shot r Hon Hlast) as Hstep.
  destruct (step env o session d shot) as [t [stored resp]].
  cbn [fst snd] in *. destruct (Hstep Hr Hact) as (Hm & Hi & Hl & Hons & Ht).
  unfold get_session_status. rewrite sessions_get_set, Hm.
  rewrite (cursor_on_step_has_step stored Hons). cbn [negb].
  destruct (current_step_ok stored Hons) as [info Hinfo].
  apply current_step_index_of in Hinfo. rewrite Hinfo.
  assert (Hlen : len session = len stored).
  { unfold len. rewrite <- (length_map text (steps session)), <- Ht. now rewrite length_map. }
  destruct (index_nonneg_in_range (steps session) (step_index r)) as [before Hb].
  { rewrite <- Hi. fold (len session). rewrite Hlen. exact Hons. }
  exists info, before. split; [|split; [exact Hb|]].
  - destruct (steps stored) eqn:E.
    + unfold cursor_on_step, len in Hons. rewrite E in Hons. cbn in Hons. lia.
    + rewrite <- E, <- Hi. fold (len stored). now rewrite Hl.
  - rewrite Hi in Hinfo. eapply index_same_text; eauto.
Qed.

Lemma status_agrees_with_step_witness :
  exists info before,
    get_session_status
      (fst (snd (step_endpoint env_with_client (bare_script 0) [("s1", guided_state)]
                   "s1" "next" None))) "s1"
    = HttpOk {| status_mode := step_by_step;
                status_current_step := Some 2;
                status_total_steps := Some 3;
                status_current_step_info := Some info |} /\
    PyList.index (steps guided_state) 2 = Some before /\
    text info = text before.
Proof.
  apply (status_agrees_with_step env_with_client (bare_script 0) [("s1", guided_state)]
           "s1" guided_state "next" None
           {| step_text :=
                (step_header 3 3 ++ nl ++ "Drag Reverb onto the track." ++ nl ++ nl
                 ++ completion_questions en)%string;
              step_index := 2;
              total_steps := 3;
              step_requires_click := false;
              step_button_coords := None;
              step_action_required := Some WaitTaskCompletionChoice |}).
  - reflexivity.
  - split; cbn; lia.
  - cbn. discriminate.
  - vm_compute. reflexivity.
  - cbn. discriminate.
Defined.
